(** * Spotify -> TIDAL GUI wrapper: a shallow embedding of
      [run_spotify_to_tidal_gui.py] and the properties of its run
      coordinator, command builder and persistence helpers. *)

From Stdlib Require Import ZArith NArith Ascii String List Lia DecimalString.
From stdpp Require Import base option list gmap.

Local Open Scope N_scope.

(** ** Python strings

    A Python [str] is a sequence of Unicode code points; a code point is
    modelled as an [N]. *)

Module PyStr.

Abbreviation char := N.
Abbreviation pystr := (list N).

(** ASCII literals of the source, as code-point lists. *)
Definition py (s : string) : pystr :=
  List.map N_of_ascii (list_ascii_of_string s).

Definition LF : char := 10.

(** [str.isspace] on one character: the code points CPython classifies
    as whitespace. *)
Definition isspace (c : char) : bool :=
  ((9 <=? c) && (c <=? 13)) || ((28 <=? c) && (c <=? 32))
  || (c =? 133) || (c =? 160) || (c =? 5760)
  || ((8192 <=? c) && (c <=? 8202))
  || (c =? 8232) || (c =? 8233) || (c =? 8239) || (c =? 8287)
  || (c =? 12288).

(** [s.lstrip()], [s.rstrip()], [s.strip()]. *)
Fixpoint lstrip (s : pystr) : pystr :=
  match s with
  | c :: s' => if isspace c then lstrip s' else s
  | [] => []
  end.

Definition rstrip (s : pystr) : pystr := rev (lstrip (rev s)).

Definition strip (s : pystr) : pystr := rstrip (lstrip s).

(** Truthiness of a string: [if s], [s or d]. *)
Definition truthy (s : pystr) : bool :=
  match s with [] => false | _ => true end.

Definition or_else (s d : pystr) : pystr := if truthy s then s else d.

(** [sep.join(l)]. *)
Fixpoint join (sep : pystr) (l : list pystr) : pystr :=
  match l with
  | [] => []
  | [x] => x
  | x :: l' => x ++ sep ++ join sep l'
  end.

(** [s.split()] with no argument: maximal runs of non-whitespace.
    [cur] is the word being read, in reverse. *)
Fixpoint split_ws_aux (cur : pystr) (s : pystr) : list pystr :=
  match s with
  | [] => match cur with [] => [] | _ => [rev cur] end
  | c :: s' =>
      if isspace c
      then match cur with
           | [] => split_ws_aux [] s'
           | _ => rev cur :: split_ws_aux [] s'
           end
      else split_ws_aux (c :: cur) s'
  end.

Definition split_ws (s : pystr) : list pystr := split_ws_aux [] s.

(** [str(n)] for an [int]: decimal digits, with a leading minus sign. *)
Definition str_int (n : Z) : pystr :=
  py (NilZero.string_of_int (Z.to_int n)).

(** [needle in hay]. *)
Definition contains (needle hay : pystr) : Prop :=
  exists pre post, hay = pre ++ needle ++ post.

End PyStr.
Import PyStr.

(** ** [shlex.split]

    [shlex.split(s)] runs the lexer of the Python standard library in
    POSIX mode with [whitespace_split = True] and no comment characters.
    The lexer is the character loop of [shlex.read_token]; a token is
    emitted where the loop breaks, and [ValueError] is [None]. *)

Module Shlex.

Definition is_whitespace (c : char) : bool :=
  (c =? 32) || (c =? 9) || (c =? 13) || (c =? 10).
Definition is_quote (c : char) : bool := (c =? 39) || (c =? 34).
Definition is_escape (c : char) : bool := (c =? 92).
Definition is_escapedquote (c : char) : bool := (c =? 34).

(** [self.state]: [' '], ['a'], a quote character or an escape
    character; [escapedstate] takes its values in the same type. *)
Inductive state :=
| St_ws
| St_word
| St_quote (q : char)
| St_escape (e : char).

Definition state_is_quote (s : state) : bool :=
  match s with St_quote _ => true | _ => false end.

(** What [read_token] returns at a break: [None] (end of input) when the
    token is empty and nothing was quoted. *)
Definition emit (quoted : bool) (token : pystr) (rest : list pystr)
  : list pystr :=
  if truthy token || quoted then token :: rest else rest.

(** One pass over the input. [token], [quoted] and [esc]
    ([escapedstate]) are reset after each emitted token, as at the entry
    of [read_token]. *)
Fixpoint lex (st esc : state) (quoted : bool) (token : pystr)
  (input : pystr) : option (list pystr) :=
  match st with
  | St_ws =>
      match input with
      | [] => Some (emit quoted token [])
      | c :: input' =>
          if is_whitespace c then
            if truthy token || quoted
            then emit quoted token <$> lex St_ws St_ws false [] input'
            else lex St_ws esc quoted token input'
          else if is_escape c then lex (St_escape c) St_word quoted token input'
          else if is_quote c then lex (St_quote c) esc quoted token input'
          else lex St_word esc quoted [c] input'
      end
  | St_quote q =>
      match input with
      | [] => None
      | c :: input' =>
          if c =? q then lex St_word esc true token input'
          else if is_escape c && is_escapedquote q
          then lex (St_escape c) (St_quote q) true token input'
          else lex (St_quote q) esc true (token ++ [c]) input'
      end
  | St_escape e =>
      match input with
      | [] => None
      | c :: input' =>
          let token' :=
            match esc with
            | St_quote q =>
                if negb (c =? e) && negb (c =? q) then token ++ [e] else token
            | _ => token
            end in
          lex esc esc quoted (token' ++ [c]) input'
      end
  | St_word =>
      match input with
      | [] => Some (emit quoted token [])
      | c :: input' =>
          if is_whitespace c then
            if truthy token || quoted
            then emit quoted token <$> lex St_ws St_ws false [] input'
            else lex St_ws esc quoted token input'
          else if is_quote c then lex (St_quote c) esc quoted token input'
          else if is_escape c then lex (St_escape c) St_word quoted token input'
          else lex St_word esc quoted (token ++ [c]) input'
      end
  end.

Definition split (s : pystr) : option (list pystr) :=
  lex St_ws St_ws false [] s.

End Shlex.

(** ** [App._split_flags] *)

Definition _split_flags (s : pystr) : list pystr :=
  if negb (truthy s) then []
  else match Shlex.split s with
       | Some l => l
       | None => split_ws s
       end.

(** ** Exceptions

    Every exception the modelled operations raise is an instance of
    Python's [Exception]; [FileNotFoundError] is kept apart because
    [_run_worker] handles it in a clause of its own. *)

Inductive exn :=
| FileNotFoundError (msg : pystr)
| Exception (msg : pystr).

Definition exn_str (e : exn) : pystr :=
  match e with FileNotFoundError m => m | Exception m => m end.

Inductive result (A : Type) :=
| Ok (a : A)
| Raise (e : exn).
Arguments Ok {A} a.
Arguments Raise {A} e.

(** ** The operating system as the program sees it *)

(** A working directory is either a path given as text or one of the
    directories made by [tempfile.mkdtemp], named by its index. *)
Inductive path :=
| Path (s : pystr)
| TmpDir (n : nat).

(** A child process: its arguments and working directory, the lines it
    has written that nobody has read yet, its exit code once it has
    exited, and whether [terminate] was delivered to it. *)
Record Proc := {
  p_args : list pystr;
  p_cwd : path;
  p_out : list pystr;
  p_exit : option Z;
  p_terminated : bool;
}.

(** The settings file holds a JSON document, or something [json.load]
    rejects. A document is a flat mapping of strings, as
    [save_settings] writes it. *)
Inductive file :=
| JsonDoc (d : gmap pystr pystr)
| Garbage.

(** Where writing the settings file fails: in [open(SETTINGS_PATH, "w")],
    which then leaves the file as it is, or in [json.dump], after [open]
    has created or truncated the file. *)
Inductive write_fault :=
| OpenFails (e : exn)
| DumpFails (e : exn).

(** How the next call of each fallible operation ends: [Some e] makes it
    raise [e]. [f_rmtree] makes [shutil.rmtree(..., ignore_errors=True)]
    fail, which it does without raising: it then leaves the tree in
    place, or, with [f_rmtree_partial], removes the file in it and
    leaves the directory. [f_cwd] is for [Path.cwd()] in a program
    that has started: the current directory has been removed since. *)
Record Faults := {
  f_keyring_get : option exn;
  f_keyring_set : option exn;
  f_mkdir : option exn;
  f_read : option exn;
  f_write : option write_fault;
  f_mkdtemp : option exn;
  f_write_text : option exn;
  f_rmtree : bool;
  f_rmtree_partial : bool;
  f_popen : option exn;
  f_stdout : option exn;
  f_terminate : option exn;
  f_cwd : option exn;
}.

Definition no_faults : Faults :=
  {| f_keyring_get := None; f_keyring_set := None; f_mkdir := None;
     f_read := None; f_write := None; f_mkdtemp := None;
     f_write_text := None; f_rmtree := false; f_rmtree_partial := false;
     f_popen := None; f_stdout := None; f_terminate := None;
     f_cwd := None |}.

(** [tmpdirs] lists every directory [mkdtemp] has made, by index:
    [Some cfg] while the directory exists ([cfg] is the text of its
    [config.yml], if written), [None] once it is removed. [mkdtemp]
    never hands out a name twice. *)
Record OS := {
  KEYRING_AVAILABLE : bool;
  keyring_store : gmap pystr pystr;
  settings_file : option file;
  tmpdirs : list (option (option pystr));
  procs : list Proc;
  cwd : pystr;
  executable : pystr;
  faults : Faults;
}.

(** ** The application object *)

Record Vars := {
  var_spotify_client_id : pystr;
  var_spotify_client_secret : pystr;
  var_spotify_username : pystr;
  var_spotify_redirect : pystr;
  var_tidal_username : pystr;
  var_tidal_password : pystr;
  var_action : pystr;
  var_playlist_url : pystr;
  var_subcommand_custom : pystr;
  var_extra_flags : pystr;
  var_work_dir : pystr;
}.

Inductive var_name :=
| V_spotify_client_id | V_spotify_client_secret | V_spotify_username
| V_spotify_redirect | V_tidal_username | V_tidal_password | V_action
| V_playlist_url | V_subcommand_custom | V_extra_flags | V_work_dir.

(** [var.set(s)]. *)
Definition var_set (n : var_name) (s : pystr) (v : Vars) : Vars :=
  let a := var_spotify_client_id v in
  let b := var_spotify_client_secret v in
  let c := var_spotify_username v in
  let d := var_spotify_redirect v in
  let e := var_tidal_username v in
  let f := var_tidal_password v in
  let g := var_action v in
  let h := var_playlist_url v in
  let i := var_subcommand_custom v in
  let j := var_extra_flags v in
  let k := var_work_dir v in
  match n with
  | V_spotify_client_id => Build_Vars s b c d e f g h i j k
  | V_spotify_client_secret => Build_Vars a s c d e f g h i j k
  | V_spotify_username => Build_Vars a b s d e f g h i j k
  | V_spotify_redirect => Build_Vars a b c s e f g h i j k
  | V_tidal_username => Build_Vars a b c d s f g h i j k
  | V_tidal_password => Build_Vars a b c d e s g h i j k
  | V_action => Build_Vars a b c d e f s h i j k
  | V_playlist_url => Build_Vars a b c d e f g s i j k
  | V_subcommand_custom => Build_Vars a b c d e f g h s j k
  | V_extra_flags => Build_Vars a b c d e f g h i s k
  | V_work_dir => Build_Vars a b c d e f g h i j s
  end.

Inductive dialog_kind := ShowInfo | ShowWarning | ShowError.

Record dialog := {
  d_kind : dialog_kind;
  d_title : pystr;
  d_message : pystr;
}.

(** Callbacks registered with [self.after]. *)
Inductive callback :=
| Cb_drain
| Cb_ready.

Record App := {
  vars : Vars;
  settings : gmap pystr pystr;
  proc : option nat;
  stop_requested : bool;
  output_queue : list pystr;
  console : list pystr;
  status_var : pystr;
  dialogs : list dialog;
  pending : list callback;
}.

(** ** Worker threads

    A thread runs [_run_worker]; [t_pc] is where it stands, with the
    locals it holds there. *)

Inductive pc :=
| W_start                               (* line 484 *)
| W_spawn (temp_root : nat)             (* lines 489-509 *)
| W_iter (temp_root : nat)              (* line 511, [self.proc.stdout] *)
| W_read (temp_root : nat) (stream : nat) (* lines 511-514, one line *)
| W_wait (temp_root : nat)              (* line 516 *)
| W_report (temp_root : nat) (rc : Z)   (* lines 517-522 *)
| W_finally (temp_root : option nat)    (* lines 528-537 *)
| W_done.                               (* the thread has ended *)

(** How an invocation ended: the branch of lines 517-527 it took. *)
Inductive outcome := Succeeded | Failed | Cancelled.

(** [t_rc] and [t_outcome] record what the thread observed: the exit
    code [wait] returned and the branch that reported the end. *)
Record Thread := {
  t_cmd_args : list pystr;
  t_work_dir : option path;
  t_pc : pc;
  t_rc : option Z;
  t_outcome : option outcome;
}.

Record World := {
  app : App;
  os : OS;
  threads : list Thread;
}.

(** *** Field updates *)

Definition upd_app (f : App -> App) (w : World) : World :=
  {| app := f (app w); os := os w; threads := threads w |}.
Definition upd_os (f : OS -> OS) (w : World) : World :=
  {| app := app w; os := f (os w); threads := threads w |}.
Definition set_threads (t : list Thread) (w : World) : World :=
  {| app := app w; os := os w; threads := t |}.

Definition set_vars (x : Vars) (a : App) : App :=
  {| vars := x; settings := settings a; proc := proc a;
     stop_requested := stop_requested a; output_queue := output_queue a;
     console := console a; status_var := status_var a;
     dialogs := dialogs a; pending := pending a |}.
Definition set_settings (x : gmap pystr pystr) (a : App) : App :=
  {| vars := vars a; settings := x; proc := proc a;
     stop_requested := stop_requested a; output_queue := output_queue a;
     console := console a; status_var := status_var a;
     dialogs := dialogs a; pending := pending a |}.
Definition set_proc (x : option nat) (a : App) : App :=
  {| vars := vars a; settings := settings a; proc := x;
     stop_requested := stop_requested a; output_queue := output_queue a;
     console := console a; status_var := status_var a;
     dialogs := dialogs a; pending := pending a |}.
Definition set_stop_requested (x : bool) (a : App) : App :=
  {| vars := vars a; settings := settings a; proc := proc a;
     stop_requested := x; output_queue := output_queue a;
     console := console a; status_var := status_var a;
     dialogs := dialogs a; pending := pending a |}.
Definition set_output_queue (x : list pystr) (a : App) : App :=
  {| vars := vars a; settings := settings a; proc := proc a;
     stop_requested := stop_requested a; output_queue := x;
     console := console a; status_var := status_var a;
     dialogs := dialogs a; pending := pending a |}.
Definition set_console (x : list pystr) (a : App) : App :=
  {| vars := vars a; settings := settings a; proc := proc a;
     stop_requested := stop_requested a; output_queue := output_queue a;
     console := x; status_var := status_var a;
     dialogs := dialogs a; pending := pending a |}.
Definition set_status_var (x : pystr) (a : App) : App :=
  {| vars := vars a; settings := settings a; proc := proc a;
     stop_requested := stop_requested a; output_queue := output_queue a;
     console := console a; status_var := x;
     dialogs := dialogs a; pending := pending a |}.
Definition set_dialogs (x : list dialog) (a : App) : App :=
  {| vars := vars a; settings := settings a; proc := proc a;
     stop_requested := stop_requested a; output_queue := output_queue a;
     console := console a; status_var := status_var a;
     dialogs := x; pending := pending a |}.
Definition set_pending (x : list callback) (a : App) : App :=
  {| vars := vars a; settings := settings a; proc := proc a;
     stop_requested := stop_requested a; output_queue := output_queue a;
     console := console a; status_var := status_var a;
     dialogs := dialogs a; pending := x |}.

Definition set_keyring_store (x : gmap pystr pystr) (o : OS) : OS :=
  {| KEYRING_AVAILABLE := KEYRING_AVAILABLE o; keyring_store := x;
     settings_file := settings_file o; tmpdirs := tmpdirs o;
     procs := procs o; cwd := cwd o; executable := executable o;
     faults := faults o |}.
Definition set_settings_file (x : option file) (o : OS) : OS :=
  {| KEYRING_AVAILABLE := KEYRING_AVAILABLE o;
     keyring_store := keyring_store o;
     settings_file := x; tmpdirs := tmpdirs o;
     procs := procs o; cwd := cwd o; executable := executable o;
     faults := faults o |}.
Definition set_tmpdirs (x : list (option (option pystr))) (o : OS) : OS :=
  {| KEYRING_AVAILABLE := KEYRING_AVAILABLE o;
     keyring_store := keyring_store o;
     settings_file := settings_file o; tmpdirs := x;
     procs := procs o; cwd := cwd o; executable := executable o;
     faults := faults o |}.
Definition set_procs (x : list Proc) (o : OS) : OS :=
  {| KEYRING_AVAILABLE := KEYRING_AVAILABLE o;
     keyring_store := keyring_store o;
     settings_file := settings_file o; tmpdirs := tmpdirs o;
     procs := x; cwd := cwd o; executable := executable o;
     faults := faults o |}.
Definition set_faults (x : Faults) (o : OS) : OS :=
  {| KEYRING_AVAILABLE := KEYRING_AVAILABLE o;
     keyring_store := keyring_store o;
     settings_file := settings_file o; tmpdirs := tmpdirs o;
     procs := procs o; cwd := cwd o; executable := executable o;
     faults := x |}.

Definition set_pc (x : pc) (t : Thread) : Thread :=
  {| t_cmd_args := t_cmd_args t; t_work_dir := t_work_dir t; t_pc := x;
     t_rc := t_rc t; t_outcome := t_outcome t |}.
Definition set_outcome (x : outcome) (t : Thread) : Thread :=
  {| t_cmd_args := t_cmd_args t; t_work_dir := t_work_dir t;
     t_pc := t_pc t; t_rc := t_rc t; t_outcome := Some x |}.
Definition set_rc (x : Z) (t : Thread) : Thread :=
  {| t_cmd_args := t_cmd_args t; t_work_dir := t_work_dir t;
     t_pc := t_pc t; t_rc := Some x; t_outcome := t_outcome t |}.
Definition set_work_dir (x : path) (t : Thread) : Thread :=
  {| t_cmd_args := t_cmd_args t; t_work_dir := Some x; t_pc := t_pc t;
     t_rc := t_rc t; t_outcome := t_outcome t |}.

(** ** Code that may raise: state passing with exceptions *)

Definition M (A : Type) : Type := World -> World * result A.

Definition ret {A} (a : A) : M A := fun w => (w, Ok a).
Definition raise {A} (e : exn) : M A := fun w => (w, Raise e).
Definition bind {A B} (m : M A) (k : A -> M B) : M B :=
  fun w =>
    match m w with
    | (w', Ok a) => k a w'
    | (w', Raise e) => (w', Raise e)
    end.
(** [try: m  except Exception as e: h e]. *)
Definition try_except {A} (m : M A) (h : exn -> M A) : M A :=
  fun w =>
    match m w with
    | (w', Raise e) => h e w'
    | r => r
    end.
Definition gets {A} (f : World -> A) : M A := fun w => (w, Ok (f w)).
Definition modify (f : World -> World) : M unit := fun w => (f w, Ok tt).
(** An operation that raises when its fault is armed. *)
Definition fallible (f : Faults -> option exn) : M unit :=
  fun w =>
    match f (faults (os w)) with
    | Some e => (w, Raise e)
    | None => (w, Ok tt)
    end.
Definition exec {A} (m : M A) (w : World) : World := fst (m w).

Declare Scope py_scope.
Delimit Scope py_scope with py.
Notation "'let*' x ':=' c 'in' k" := (bind c (fun x => k))
  (at level 10, x name, c at level 200, k at level 200) : py_scope.
Notation "c ';;' k" := (bind c (fun _ => k))
  (at level 100, k at level 200, right associativity) : py_scope.
Local Open Scope py_scope.

(** ** Module-level functions *)

Definition DEFAULT_REDIRECT_URI : pystr := py "http://127.0.0.1:8888/callback".

Definition default_settings : gmap pystr pystr :=
  <[py "spotify_client_id" := []]>
  (<[py "spotify_username" := []]>
  (<[py "spotify_redirect_uri" := DEFAULT_REDIRECT_URI]>
  (<[py "tidal_username" := []]>
  (<[py "last_playlist_url" := []]>
  (<[py "default_subcommand" := py "sync"]> ∅))))).

(** [app_data_dir().mkdir(parents=True, exist_ok=True)]. *)
Definition mkdir_app_data_dir : M unit := fallible f_mkdir.

(** [open(SETTINGS_PATH)] followed by [json.load]. *)
Definition read_settings_file (c : file) : M (gmap pystr pystr) :=
  fallible f_read ;;
  match c with
  | JsonDoc d => ret d
  | Garbage => raise (Exception (py "JSONDecodeError"))
  end.

(** The [try] block returns [Some d] where the source returns from
    inside it; otherwise control reaches the default mapping. *)
Definition load_settings : M (gmap pystr pystr) :=
  let* r :=
    try_except
      (mkdir_app_data_dir ;;
       let* f := gets (fun w => settings_file (os w)) in
       match f with
       | Some c => let* d := read_settings_file c in ret (Some d)
       | None => ret None
       end)
      (fun _ => ret None) in
  match r with
  | Some d => ret d
  | None => ret default_settings
  end.

(** [open(SETTINGS_PATH, "w")]: the file is created or truncated, and
    is empty until something is written. *)
Definition open_settings_file : M unit :=
  let* f := gets (fun w => f_write (faults (os w))) in
  match f with
  | Some (OpenFails e) => raise e
  | _ => modify (upd_os (set_settings_file (Some Garbage)))
  end.

(** [json.dump(data, f, indent=2)]: when it raises, what it has written
    so far stays in the file, which [json.load] will reject. *)
Definition json_dump (data : gmap pystr pystr) : M unit :=
  let* f := gets (fun w => f_write (faults (os w))) in
  match f with
  | Some (DumpFails e) => raise e
  | _ => modify (upd_os (set_settings_file (Some (JsonDoc data))))
  end.

Definition save_settings (data : gmap pystr pystr) : M unit :=
  mkdir_app_data_dir ;;
  open_settings_file ;;
  json_dump data.

(** [keyring.set_password(SERVICE_NAME, name, value)] and
    [keyring.get_password(SERVICE_NAME, name)]. *)
Definition keyring_set_password (name value : pystr) : M unit :=
  fallible f_keyring_set ;;
  modify (upd_os (fun o => set_keyring_store (<[name := value]> (keyring_store o)) o)).

Definition keyring_get_password (name : pystr) : M (option pystr) :=
  fallible f_keyring_get ;;
  gets (fun w => keyring_store (os w) !! name).

Definition set_secret (name value : pystr) : M bool :=
  let* avail := gets (fun w => KEYRING_AVAILABLE (os w)) in
  if negb avail then ret false
  else
    try_except
      (keyring_set_password name (or_else value []) ;; ret true)
      (fun _ => ret false).

Definition get_secret (name : pystr) : M pystr :=
  let* avail := gets (fun w => KEYRING_AVAILABLE (os w)) in
  if negb avail then ret []
  else
    try_except
      (let* v := keyring_get_password name in
       ret (match v with Some s => or_else s [] | None => [] end))
      (fun _ => ret []).

(** ** [App]: user interface primitives *)

Definition messagebox (k : dialog_kind) (title message : pystr) : M unit :=
  modify (upd_app (fun a =>
    set_dialogs (dialogs a ++ [{| d_kind := k; d_title := title;
                                  d_message := message |}]) a)).

Definition get_vars : M Vars := gets (fun w => vars (app w)).

Definition set_var (n : var_name) (s : pystr) : M unit :=
  modify (upd_app (fun a => set_vars (var_set n s (vars a)) a)).

Definition set_status (text : pystr) : M unit :=
  modify (upd_app (set_status_var text)).

(** [self.output_queue.put(s)]. *)
Definition put (s : pystr) (w : World) : World :=
  upd_app (fun a => set_output_queue (output_queue a ++ [s]) a) w.

(** [self.after(ms, cb)]. *)
Definition after (cb : callback) : M unit :=
  modify (upd_app (fun a => set_pending (pending a ++ [cb]) a)).

(** [LogConsole.clear]. *)
Definition console_clear : M unit := modify (upd_app (set_console [])).

(** [field.strip() or get_secret(name)]. *)
Definition field_or_secret (field name : pystr) : M pystr :=
  if truthy (strip field) then ret (strip field) else get_secret name.

(** ** [App]: event handlers *)

Definition _load_ui_from_settings : M unit :=
  let* s := gets (fun w => settings (app w)) in
  set_var V_spotify_client_id (default [] (s !! py "spotify_client_id")) ;;
  set_var V_spotify_username (default [] (s !! py "spotify_username")) ;;
  set_var V_spotify_redirect
    (default DEFAULT_REDIRECT_URI (s !! py "spotify_redirect_uri")) ;;
  set_var V_tidal_username (default [] (s !! py "tidal_username")) ;;
  set_var V_playlist_url (default [] (s !! py "last_playlist_url")) ;;
  let* avail := gets (fun w => KEYRING_AVAILABLE (os w)) in
  if avail then
    let* a := get_secret (py "spotify_client_secret") in
    set_var V_spotify_client_secret (or_else a []) ;;
    let* b := get_secret (py "tidal_password") in
    set_var V_tidal_password (or_else b [])
  else
    messagebox ShowWarning (py "Keyring not available")
      (py "Python 'keyring' is not installed or not working." ++ [LF]
       ++ py "Secrets will not be saved securely. Install with:" ++ [LF; LF]
       ++ py "    python -m pip install keyring" ++ [LF]).

(** The settings mapping as [on_save_settings] updates it in place. *)
Definition settings_from_ui (v : Vars) (s : gmap pystr pystr)
  : gmap pystr pystr :=
  <[py "last_playlist_url" := strip (var_playlist_url v)]>
  (<[py "tidal_username" := strip (var_tidal_username v)]>
  (<[py "spotify_redirect_uri" :=
       or_else (strip (var_spotify_redirect v)) DEFAULT_REDIRECT_URI]>
  (<[py "spotify_username" := strip (var_spotify_username v)]>
  (<[py "spotify_client_id" := strip (var_spotify_client_id v)]> s)))).

Definition on_save_settings : M unit :=
  let* v := get_vars in
  modify (upd_app (fun a => set_settings (settings_from_ui v (settings a)) a)) ;;
  let* s := gets (fun w => settings (app w)) in
  save_settings s ;;
  let ok := true in
  let* ok :=
    if truthy (strip (var_spotify_client_secret v)) then
      let* r := set_secret (py "spotify_client_secret")
                  (strip (var_spotify_client_secret v)) in
      ret (r && ok)
    else ret ok in
  let* ok :=
    if truthy (strip (var_tidal_password v)) then
      let* r := set_secret (py "tidal_password")
                  (strip (var_tidal_password v)) in
      ret (r && ok)
    else ret ok in
  let* avail := gets (fun w => KEYRING_AVAILABLE (os w)) in
  if ok || negb avail then
    messagebox ShowInfo (py "Saved") (py "Settings saved.")
  else
    messagebox ShowWarning (py "Saved (with issues)")
      (py "Settings saved, but secrets may not have been stored in keyring.").

Definition on_load_settings_clicked : M unit :=
  let* s := load_settings in
  modify (upd_app (set_settings s)) ;;
  _load_ui_from_settings ;;
  set_status (py "Settings reloaded.").

Definition on_clear_secrets : M unit :=
  let* avail := gets (fun w => KEYRING_AVAILABLE (os w)) in
  if negb avail then
    messagebox ShowInfo (py "No keyring")
      (py "Keyring not available " ++ [8212] ++ py " nothing to clear.")
  else
    try_except
      (set_secret (py "spotify_client_secret") [] ;;
       set_secret (py "tidal_password") [] ;;
       set_var V_spotify_client_secret [] ;;
       set_var V_tidal_password [] ;;
       messagebox ShowInfo (py "Cleared") (py "Secrets cleared from keyring."))
      (fun _ =>
         messagebox ShowWarning (py "Error") (py "Could not clear secrets.")).

(** The directory dialog opens at the entry's directory, or at
    [Path.cwd()] when the entry is empty; [d] is what it returned. *)
Definition on_browse_workdir (d : pystr) : M unit :=
  let* v := get_vars in
  (if truthy (var_work_dir v) then ret tt else fallible f_cwd) ;;
  if truthy d then set_var V_work_dir d else ret tt.

(** [self.proc.terminate()]. *)
Definition terminate (p : nat) : M unit :=
  fallible f_terminate ;;
  modify (upd_os (fun o =>
    set_procs (alter (fun P => {| p_args := p_args P; p_cwd := p_cwd P;
                                  p_out := p_out P; p_exit := p_exit P;
                                  p_terminated := true |}) p (procs o)) o)).

(** [self.proc and self.proc.poll() is None]. *)
Definition proc_running (w : World) : bool :=
  match proc (app w) with
  | Some p =>
      match procs (os w) !! p with
      | Some P => match p_exit P with None => true | Some _ => false end
      | None => false
      end
  | None => false
  end.

Definition on_cancel : M unit :=
  let* running := gets proc_running in
  if running then
    modify (upd_app (set_stop_requested true)) ;;
    let* p := gets (fun w => proc (app w)) in
    try_except
      (match p with Some p => terminate p | None => ret tt end)
      (fun _ => ret tt) ;;
    set_status (py "Cancellation requested" ++ [8230])
  else
    set_status (py "No running process.").

(** *** Command builder: lines 408-438 of [on_run]

    [None] is the early return after the "Please paste a Spotify
    playlist URL." error. *)
Definition build_cmd_args (v : Vars) : option (list pystr) :=
  let action := var_action v in
  let playlist_url := strip (var_playlist_url v) in
  let extra_flags := _split_flags (strip (var_extra_flags v)) in
  if bool_decide (action = py "sync_playlist_url") then
    if negb (truthy playlist_url) then None
    else Some ([py "sync"; playlist_url] ++ extra_flags)
  else if bool_decide (action = py "sync_favorites") then
    Some ([py "favorites"] ++ extra_flags)
  else if bool_decide (action = py "sync_all_playlists") then
    Some ([py "playlists"] ++ extra_flags)
  else
    let subcommand := or_else (strip (var_subcommand_custom v)) (py "sync") in
    Some (([subcommand] ++ (if truthy playlist_url then [playlist_url] else []))
          ++ extra_flags).

(** [threading.Thread(target=self._run_worker, args=(cmd_args,)).start()]. *)
Definition new_thread (cmd_args : list pystr) : Thread :=
  {| t_cmd_args := cmd_args; t_work_dir := None; t_pc := W_start;
     t_rc := None; t_outcome := None |}.

Definition start_thread (cmd_args : list pystr) : M unit :=
  modify (fun w => set_threads (threads w ++ [new_thread cmd_args]) w).

Definition showerror_missing (what : pystr) : M unit :=
  messagebox ShowError (py "Missing") what.

(** Lines 407-446 of [on_run]: build the command and start the worker. *)
Definition on_run_launch : M unit :=
  let* v := get_vars in
  match build_cmd_args v with
  | None => showerror_missing (py "Please paste a Spotify playlist URL.")
  | Some cmd_args =>
      console_clear ;;
      set_status (py "Running" ++ [8230]) ;;
      modify (upd_app (set_stop_requested false)) ;;
      start_thread cmd_args ;;
      after Cb_drain
  end.

Definition on_run : M unit :=
  let* v := get_vars in
  if negb (truthy (strip (var_spotify_client_id v))) then
    showerror_missing (py "Spotify Client ID is required.")
  else
  let* client_secret :=
    field_or_secret (var_spotify_client_secret v) (py "spotify_client_secret") in
  if negb (truthy client_secret) then
    showerror_missing (py "Spotify Client Secret is required.")
  else
  if negb (truthy (strip (var_spotify_username v))) then
    showerror_missing (py "Spotify Username is required.")
  else
  if negb (truthy (strip (var_tidal_username v))) then
    showerror_missing (py "TIDAL Username is required.")
  else
  let* tidal_password :=
    field_or_secret (var_tidal_password v) (py "tidal_password") in
  if negb (truthy tidal_password) then
    showerror_missing (py "TIDAL Password is required.")
  else
    on_save_settings ;;
    on_run_launch.

(** ** Process runner *)

(** The name [mkdtemp] gave to directory [d], as printed in the log. *)
Definition tmp_path (d : nat) : pystr :=
  py "/tmp/s2t_gui_" ++ str_int (Z.of_nat d).

(** [tempfile.mkdtemp(prefix="s2t_gui_")]: a new, empty directory. *)
Definition mkdtemp : M nat :=
  fallible f_mkdtemp ;;
  let* d := gets (fun w => length (tmpdirs (os w))) in
  modify (upd_os (fun o => set_tmpdirs (tmpdirs o ++ [Some None]) o)) ;;
  ret d.

(** [cfg.write_text(text)] for the [config.yml] of directory [d]. *)
Definition write_text (d : nat) (text : pystr) : M unit :=
  fallible f_write_text ;;
  modify (upd_os (fun o => set_tmpdirs (<[d := Some (Some text)]> (tmpdirs o)) o)).

Definition config_content (v : Vars) (client_secret tidal_password : pystr)
  : list pystr :=
  [ py "spotify:";
    py "  client_id: " ++ strip (var_spotify_client_id v);
    py "  client_secret: " ++ client_secret;
    py "  username: " ++ strip (var_spotify_username v);
    py "  redirect_uri: "
      ++ or_else (strip (var_spotify_redirect v)) DEFAULT_REDIRECT_URI;
    [];
    py "tidal:";
    py "  username: " ++ strip (var_tidal_username v);
    py "  password: " ++ tidal_password;
    [] ].

Definition _build_temp_config : M nat :=
  let* tmpdir := mkdtemp in
  let* v := get_vars in
  let* client_secret :=
    field_or_secret (var_spotify_client_secret v) (py "spotify_client_secret") in
  let* tidal_password :=
    field_or_secret (var_tidal_password v) (py "tidal_password") in
  write_text tmpdir (join [LF] (config_content v client_secret tidal_password)) ;;
  ret tmpdir.

(** [temp_root.exists()]. *)
Definition tmp_exists (d : nat) (w : World) : bool :=
  match tmpdirs (os w) !! d with
  | Some (Some _) => true
  | _ => false
  end.

(** [shutil.rmtree(temp_root, ignore_errors=True)]: removes the tree,
    or as much of it as it can when the removal fails: nothing, or the
    [config.yml] but not the directory; it does not raise. *)
Definition rmtree (d : nat) (w : World) : World :=
  if f_rmtree (faults (os w)) then
    if f_rmtree_partial (faults (os w))
    then upd_os (fun o =>
           set_tmpdirs (alter (fun x => match x with
                                        | Some _ => Some None
                                        | None => None
                                        end) d (tmpdirs o)) o) w
    else w
  else upd_os (fun o => set_tmpdirs (<[d := None]> (tmpdirs o)) o) w.

(** [subprocess.Popen(full_cmd, cwd=run_cwd, ...)]. *)
Definition Popen (full_cmd : list pystr) (run_cwd : path) : M nat :=
  fallible f_popen ;;
  let* pid := gets (fun w => length (procs (os w))) in
  modify (upd_os (fun o =>
    set_procs (procs o ++ [{| p_args := full_cmd; p_cwd := run_cwd;
                              p_out := []; p_exit := None;
                              p_terminated := false |}]) o)) ;;
  ret pid.

(** The two [except] clauses of [_run_worker]. *)
Definition except_message (e : exn) : pystr :=
  match e with
  | FileNotFoundError m =>
      [LF; 10007] ++ py " Error: " ++ m ++ [LF]
      ++ py "Make sure 'spotify_to_tidal' is installed and Python can run it."
      ++ [LF]
  | Exception m =>
      [LF; 10007] ++ py " Unexpected error: " ++ m ++ [LF]
  end.

(** Lines 517-522: the message for exit code [rc] and the branch taken. *)
Definition report (stop : bool) (rc : Z) : outcome * pystr :=
  if stop then (Cancelled, [LF] ++ py "Process terminated by user." ++ [LF])
  else if (rc =? 0)%Z
  then (Succeeded, [LF; 10003] ++ py " Done. Exit code 0." ++ [LF])
  else (Failed, [LF; 10007] ++ py " Finished with exit code "
                ++ str_int rc ++ py "." ++ [LF]).

(** An exception inside the [try] of [_run_worker]: the [except] clause
    logs it and control passes to [finally]. *)
Definition worker_except (temp_root : option nat) (e : exn)
  (th : Thread) (w : World) : Thread * World :=
  (set_outcome Failed (set_pc (W_finally temp_root) th),
   put (except_message e) w).

Definition take_line (s : nat) (rest : list pystr) (w : World) : World :=
  upd_os (fun o =>
    set_procs (alter (fun P => {| p_args := p_args P; p_cwd := p_cwd P;
                                  p_out := rest; p_exit := p_exit P;
                                  p_terminated := p_terminated P |})
                 s (procs o)) o) w.

(** Line 484 calls [Path.cwd()] when the working-directory entry is
    blank, and only then; the call raises when the current directory
    cannot be resolved. *)
Definition cwd_fault (w : World) : option exn :=
  if truthy (strip (var_work_dir (vars (app w)))) then None
  else f_cwd (faults (os w)).

(** One step of a thread running [_run_worker]. A thread blocked in a
    read or in [wait] does not move. Line 484 stands before the [try]:
    an exception raised there is caught by nobody and ends the thread
    at once, without the [finally] block. *)
Definition worker_step (th : Thread) (w : World) : Thread * World :=
  match t_pc th with
  | W_start =>
      match cwd_fault w with
      | Some _ => (set_pc W_done th, w)
      | None =>
          let work_dir :=
            Path (or_else (strip (var_work_dir (vars (app w)))) (cwd (os w))) in
          let th := set_work_dir work_dir th in
          match _build_temp_config w with
          | (w', Ok d) => (set_pc (W_spawn d) th, w')
          | (w', Raise e) => worker_except None e th w'
          end
      end
  | W_spawn temp_root =>
      let run_cwd := TmpDir temp_root in
      let full_cmd :=
        [executable (os w); py "-m"; py "spotify_to_tidal"] ++ t_cmd_args th in
      let w := put (py "> Running: " ++ join (py " ") full_cmd ++ [LF]) w in
      let w := put (py "> Using config: " ++ tmp_path temp_root
                    ++ py "/config.yml" ++ [LF; LF]) w in
      match Popen full_cmd run_cwd w with
      | (w', Ok pid) =>
          (set_pc (W_iter temp_root) th, upd_app (set_proc (Some pid)) w')
      | (w', Raise e) => worker_except (Some temp_root) e th w'
      end
  | W_iter temp_root =>
      match proc (app w) with
      | Some p => (set_pc (W_read temp_root p) th, w)
      | None =>
          worker_except (Some temp_root)
            (Exception (py "'NoneType' object has no attribute 'stdout'")) th w
      end
  | W_read temp_root s =>
      match f_stdout (faults (os w)) with
      | Some e => worker_except (Some temp_root) e th w
      | None =>
          match procs (os w) !! s with
          | Some P =>
              match p_out P with
              | line :: rest =>
                  let w := take_line s rest w in
                  if stop_requested (app w)
                  then (set_pc (W_wait temp_root) th, w)
                  else (th, put line w)
              | [] =>
                  match p_exit P with
                  | Some _ => (set_pc (W_wait temp_root) th, w)
                  | None => (th, w)
                  end
              end
          | None => (th, w)
          end
      end
  | W_wait temp_root =>
      match proc (app w) with
      | Some p =>
          match procs (os w) !! p with
          | Some P =>
              match p_exit P with
              | Some rc => (set_rc rc (set_pc (W_report temp_root rc) th), w)
              | None => (th, w)
              end
          | None => (th, w)
          end
      | None =>
          worker_except (Some temp_root)
            (Exception (py "'NoneType' object has no attribute 'wait'")) th w
      end
  | W_report temp_root rc =>
      let (o, msg) := report (stop_requested (app w)) rc in
      (set_outcome o (set_pc (W_finally (Some temp_root)) th), put msg w)
  | W_finally temp_root =>
      let w :=
        match temp_root with
        | Some d =>
            if tmp_exists d w
            then put (py "Temporary config removed." ++ [LF]) (rmtree d w)
            else w
        | None => w
        end in
      let w := upd_app (set_proc None) w in
      (set_pc W_done th, exec (after Cb_ready) w)
  | W_done => (th, w)
  end.

(** ** Output polling *)

Definition _drain_output_queue : M unit :=
  modify (upd_app (fun a =>
    set_output_queue [] (set_console (console a ++ output_queue a) a))) ;;
  let* running := gets proc_running in
  if running then after Cb_drain
  else
    let* q := gets (fun w => output_queue (app w)) in
    match q with
    | [] => ret tt
    | _ => after Cb_drain
    end.

Definition run_callback (cb : callback) : M unit :=
  match cb with
  | Cb_drain => _drain_output_queue
  | Cb_ready => set_status (py "Ready.")
  end.

(** ** The program as a transition system

    What can happen next: the user acts on the window, a timer fires, a
    worker thread takes a step, a child process writes a line or exits,
    or the environment changes which operations fail. An event that is
    not possible in a state leaves it as it is. A handler that raises
    is abandoned by the Tk main loop, with the state it reached. *)

Inductive event :=
| EvEdit (n : var_name) (s : pystr)
| EvSave
| EvLoad
| EvClearSecrets
| EvBrowse (d : pystr)
| EvCancel
| EvRun
| EvClearLogs
| EvTimer (i : nat)
| EvWorker (tid : nat)
| EvOutput (pid : nat) (line : pystr)
| EvExit (pid : nat) (rc : Z)
| EvFaults (f : Faults).

Definition child_writes (line : pystr) (P : Proc) : Proc :=
  match p_exit P with
  | None => {| p_args := p_args P; p_cwd := p_cwd P;
               p_out := p_out P ++ [line]; p_exit := p_exit P;
               p_terminated := p_terminated P |}
  | Some _ => P
  end.

Definition child_exits (rc : Z) (P : Proc) : Proc :=
  match p_exit P with
  | None => {| p_args := p_args P; p_cwd := p_cwd P;
               p_out := p_out P; p_exit := Some rc;
               p_terminated := p_terminated P |}
  | Some _ => P
  end.

Definition step (e : event) (w : World) : World :=
  match e with
  | EvEdit n s => exec (set_var n s) w
  | EvSave => exec on_save_settings w
  | EvLoad => exec on_load_settings_clicked w
  | EvClearSecrets => exec on_clear_secrets w
  | EvBrowse d => exec (on_browse_workdir d) w
  | EvCancel => exec on_cancel w
  | EvRun => exec on_run w
  | EvClearLogs => exec console_clear w
  | EvTimer i =>
      match pending (app w) !! i with
      | Some cb =>
          exec (run_callback cb)
            (upd_app (fun a => set_pending (delete i (pending a)) a) w)
      | None => w
      end
  | EvWorker tid =>
      match threads w !! tid with
      | Some th =>
          let (th', w') := worker_step th w in
          set_threads (<[tid := th']> (threads w')) w'
      | None => w
      end
  | EvOutput pid line =>
      upd_os (fun o => set_procs (alter (child_writes line) pid (procs o)) o) w
  | EvExit pid rc =>
      upd_os (fun o => set_procs (alter (child_exits rc) pid (procs o)) o) w
  | EvFaults f => upd_os (set_faults f) w
  end.

Fixpoint run (es : list event) (w : World) : World :=
  match es with
  | [] => w
  | e :: es' => run es' (step e w)
  end.

(** ** Start-up: [App.__init__]

    The start of a program that gets through its constructor: the
    working-directory entry is set from [Path.cwd()], which answers at
    that moment (where it does not, the constructor raises and there is
    no window). *)

Definition initial_vars (o : OS) : Vars :=
  {| var_spotify_client_id := []; var_spotify_client_secret := [];
     var_spotify_username := [];
     var_spotify_redirect := DEFAULT_REDIRECT_URI;
     var_tidal_username := []; var_tidal_password := [];
     var_action := py "sync_playlist_url"; var_playlist_url := [];
     var_subcommand_custom := []; var_extra_flags := [];
     var_work_dir := cwd o |}.

Definition App__init__ : M unit :=
  let* s := load_settings in
  modify (upd_app (set_settings s)) ;;
  set_var V_subcommand_custom (default (py "sync") (s !! py "default_subcommand")) ;;
  _load_ui_from_settings.

Definition boot (o : OS) : World :=
  exec App__init__
    {| app := {| vars := initial_vars o; settings := ∅; proc := None;
                 stop_requested := false; output_queue := [];
                 console := []; status_var := py "Ready.";
                 dialogs := []; pending := [] |};
       os := o; threads := [] |}.

(** ** Vocabulary of the properties *)

(** The characters [shlex] treats specially: its whitespace, its quotes
    and its escape character. *)
Definition is_special (c : char) : bool :=
  Shlex.is_whitespace c || Shlex.is_quote c || Shlex.is_escape c.

(** A token of already-tokenized input: not empty, and free of special
    characters, so that the only whitespace of the joined string is the
    single space between two tokens. *)
Definition plain_token (t : pystr) : Prop :=
  t <> [] /\ Forall (fun c => is_special c = false) t.

(** The leading token of each action: fixed for the three presets; for
    any other action tag (the "Custom subcommand" choice) the custom
    field, or ["sync"] when that is blank. *)
Definition subcommand_token (v : Vars) : pystr :=
  if bool_decide (var_action v = py "sync_playlist_url") then py "sync"
  else if bool_decide (var_action v = py "sync_favorites") then py "favorites"
  else if bool_decide (var_action v = py "sync_all_playlists") then py "playlists"
  else or_else (strip (var_subcommand_custom v)) (py "sync").

(** The reference as it follows the token: always for the playlist
    action, when not blank for the custom action, never otherwise. *)
Definition reference_args (v : Vars) : list pystr :=
  if bool_decide (var_action v = py "sync_playlist_url")
  then [strip (var_playlist_url v)]
  else if bool_decide (var_action v = py "sync_favorites") then []
  else if bool_decide (var_action v = py "sync_all_playlists") then []
  else if truthy (strip (var_playlist_url v))
       then [strip (var_playlist_url v)] else [].

(** The form of the Sync tab with the given entries. *)
Definition sync_form (action reference custom extra : pystr) : Vars :=
  {| var_spotify_client_id := []; var_spotify_client_secret := [];
     var_spotify_username := [];
     var_spotify_redirect := DEFAULT_REDIRECT_URI;
     var_tidal_username := []; var_tidal_password := [];
     var_action := action; var_playlist_url := reference;
     var_subcommand_custom := custom; var_extra_flags := extra;
     var_work_dir := [] |}.

(** ** Sample states *)

(** A machine with a working keyring and no settings file. *)
Definition sample_os : OS :=
  {| KEYRING_AVAILABLE := true; keyring_store := ∅; settings_file := None;
     tmpdirs := []; procs := []; cwd := py "/home/user";
     executable := py "python3"; faults := no_faults |}.

(** A machine without the keyring module and with an unparsable
    settings file. *)
Definition bare_os : OS :=
  {| KEYRING_AVAILABLE := false; keyring_store := ∅;
     settings_file := Some Garbage;
     tmpdirs := []; procs := []; cwd := py "/home/user";
     executable := py "python3"; faults := no_faults |}.

(** The user fills in the Setup tab and the Sync tab. *)
Definition fill_form (reference : pystr) : list event :=
  [ EvEdit V_spotify_client_id (py "cid");
    EvEdit V_spotify_client_secret (py "s3cret");
    EvEdit V_spotify_username (py "me");
    EvEdit V_tidal_username (py "me@example.org");
    EvEdit V_tidal_password (py "pw");
    EvEdit V_playlist_url reference;
    EvEdit V_extra_flags (py "--dry-run") ].

(** The window after start-up with the form filled in, and the same
    with the reference left blank. *)
Definition sample_ready : World := run (fill_form (py "abc123")) (boot sample_os).
Definition sample_blank : World := run (fill_form (py "  ")) (boot sample_os).

(** A first run has been requested and its worker has spawned the
    child and is reading its output. *)
Definition sample_running : World :=
  run [EvRun; EvWorker 0; EvWorker 0; EvWorker 0] sample_ready.


(** ** Validation of a run request *)

(** The value a computation returns in a state, if it returns one. *)
Definition value_of {A} (m : M A) (w : World) : option A :=
  match snd (m w) with
  | Ok a => Some a
  | Raise _ => None
  end.

(** A secret as [on_run] resolves it: the stripped entry, else the
    stored secret. *)
Definition resolved_secret (field name : pystr) (w : World) : pystr :=
  default [] (value_of (field_or_secret field name) w).

(** The five checks of lines 388-402 pass. *)
Definition credentials_ok (w : World) : bool :=
  let v := vars (app w) in
  truthy (strip (var_spotify_client_id v))
  && truthy (resolved_secret (var_spotify_client_secret v)
               (py "spotify_client_secret") w)
  && truthy (strip (var_spotify_username v))
  && truthy (strip (var_tidal_username v))
  && truthy (resolved_secret (var_tidal_password v) (py "tidal_password") w).

(** What a run request leaves untouched when it starts nothing: the
    threads, the child processes, the temporary directories, the
    process handle and the stop flag. *)
Definition same_run_state (w w' : World) : Prop :=
  threads w' = threads w
  /\ procs (os w') = procs (os w)
  /\ tmpdirs (os w') = tmpdirs (os w)
  /\ proc (app w') = proc (app w)
  /\ stop_requested (app w') = stop_requested (app w).

(** [set_secret(name, field.strip())] when the stripped entry is not
    empty: what Save Settings does to the keyring for one secret. *)
Definition store_if_set (name field : pystr) (k : gmap pystr pystr)
  : gmap pystr pystr :=
  if truthy (strip field) then <[name := strip field]> k else k.

(** The child that [_run_worker] spawns for a thread whose temporary
    directory is [d]. *)
Definition spawned_child (w : World) (th : Thread) (d : nat) : Proc :=
  {| p_args := [executable (os w); py "-m"; py "spotify_to_tidal"]
               ++ t_cmd_args th;
     p_cwd := TmpDir d; p_out := []; p_exit := None;
     p_terminated := false |}.

(** [frames f m]: running [m] does not change the observation [f] of the
    state, whether [m] returns or raises. *)
Definition frames {X A : Type} (f : World -> X) (m : M A) : Prop :=
  forall w, f (fst (m w)) = f w.

(** [keeps P m]: running [m] from a state where [P] holds ends in a
    state where [P] holds, whether [m] returns or raises. *)
Definition keeps {A : Type} (P : World -> Prop) (m : M A) : Prop :=
  forall w, P w -> P (fst (m w)).

(** ** Vocabulary of the run coordinator *)

(** The temporary directory a worker holds in [temp_root]. *)
Definition temp_root_of (p : pc) : option nat :=
  match p with
  | W_spawn d | W_iter d | W_read d _ | W_wait d | W_report d _ => Some d
  | W_finally o => o
  | W_start | W_done => None
  end.

(** The worker has spawned its child and has not yet seen it exit. *)
Definition awaiting_child (p : pc) : bool :=
  match p with
  | W_iter _ | W_read _ _ | W_wait _ => true
  | _ => false
  end.

(** The worker is past its report: in [finally], or done. *)
Definition finished (p : pc) : bool :=
  match p with
  | W_finally _ | W_done => true
  | _ => false
  end.

(** [P] holds in every state along the run of [es] from [w]. *)
Fixpoint always (P : World -> Prop) (es : list event) (w : World) : Prop :=
  P w /\ match es with
         | [] => True
         | e :: es' => always P es' (step e w)
         end.

(** No run request among the events. *)
Definition no_run_request (es : list event) : Prop :=
  Forall (fun e => e <> EvRun) es.

(** Directory [d] of the list exists. *)
Definition tmp_held (t : list (option (option pystr))) (d : nat) : Prop :=
  exists c, t !! d = Some (Some c).

(** How the list of temporary directories changes: it never shrinks,
    and an entry that is there stays as it is, or becomes removed, or,
    for a directory that exists, loses its document. *)
Definition tmp_evolves (t t' : list (option (option pystr))) : Prop :=
  (length t <= length t')%nat
  /\ forall d, (d < length t)%nat ->
       t' !! d = t !! d \/ t' !! d = Some None
       \/ (tmp_held t d /\ t' !! d = Some (Some None)).

(** The event is a step of a worker thread. *)
Definition is_worker (e : event) : bool :=
  match e with EvWorker _ => true | _ => false end.

Arguments py : simpl never.
Arguments str_int : simpl never.
Arguments tmp_path : simpl never.
Arguments except_message : simpl never.
Arguments config_content : simpl never.
Arguments strip : simpl never.

(** The worker holds temporary directory [d], or it is done and [d] is
    removed. *)
Definition holds_or_removed (d : nat) (th : Thread) (w : World) : Prop :=
  temp_root_of (t_pc th) = Some d
  \/ (t_pc th = W_done /\ tmpdirs (os w) !! d = Some None).

(** Removal of directory trees fails from now on. *)
Definition rmtree_fails : Faults :=
  {| f_keyring_get := None; f_keyring_set := None; f_mkdir := None;
     f_read := None; f_write := None; f_mkdtemp := None;
     f_write_text := None; f_rmtree := true; f_rmtree_partial := false;
     f_popen := None; f_stdout := None; f_terminate := None;
     f_cwd := None |}.

(** The child exits with code 0 and the worker runs to its end. *)
Definition finish_first_run : list event :=
  [EvExit 0 0; EvWorker 0; EvWorker 0; EvWorker 0; EvWorker 0].

(** The first worker of [sample_running]. *)
Definition first_worker : Thread :=
  default (new_thread []) (threads sample_running !! 0%nat).

(** What holds of a worker from the moment the stop flag is set while
    it awaits its child, as long as the flag stays set: it still awaits
    the child; or it holds the exit code and has not reported; or it is
    past the report, with the cancellation reported, or with an error
    reported and no exit code seen. *)
Definition cancel_inv (th : Thread) : Prop :=
  (awaiting_child (t_pc th) = true /\ t_rc th = None /\ t_outcome th = None)
  \/ (exists d rc, t_pc th = W_report d rc /\ t_rc th = Some rc
                   /\ t_outcome th = None)
  \/ (finished (t_pc th) = true
      /\ (t_outcome th = Some Cancelled
          \/ (t_outcome th = Some Failed /\ t_rc th = None))).

(** The user has pressed Cancel while the child of the first run is
    running. *)
Definition sample_cancelled : World := run [EvCancel] sample_running.

(** The worker of the first run in that state. *)
Definition cancelled_worker : Thread :=
  default (new_thread []) (threads sample_cancelled !! 0%nat).

(** The child exits with code 0 and the worker reads to the end, waits
    and reports. *)
Definition exit_and_report : list event :=
  [EvExit 0 0; EvWorker 0; EvWorker 0; EvWorker 0].

(** ** The working-directory entry

    A state with the working-directory entry of the Advanced tab, and
    the [work_dir] local of every worker, blanked out: what is left is
    everything else the program holds. *)

Definition forget_app (a : App) : App :=
  set_vars (var_set V_work_dir [] (vars a)) a.

Definition forget_thread (t : Thread) : Thread :=
  {| t_cmd_args := t_cmd_args t; t_work_dir := None; t_pc := t_pc t;
     t_rc := t_rc t; t_outcome := t_outcome t |}.

Definition sans_work_dir (w : World) : App * OS * list Thread :=
  (forget_app (app w), os w, forget_thread <$> threads w).

(** Two computations agree up to the working-directory entry: from
    states that differ only there they give the same result and end in
    states that differ only there. *)
Definition agree {A : Type} (m m' : M A) : Prop :=
  forall w w',
    sans_work_dir w = sans_work_dir w' ->
    sans_work_dir (fst (m w)) = sans_work_dir (fst (m' w'))
    /\ snd (m w) = snd (m' w').

(** The same window as [sample_ready] with another working directory
    entered on the Advanced tab. *)
Definition sample_elsewhere : World :=
  step (EvEdit V_work_dir (py "/srv/music")) sample_ready.

(** [Path.cwd()] does not fail. *)
Definition cwd_resolves (w : World) : Prop :=
  f_cwd (faults (os w)) = None.

(** The current directory cannot be resolved from now on. *)
Definition cwd_gone : Faults :=
  {| f_keyring_get := None; f_keyring_set := None; f_mkdir := None;
     f_read := None; f_write := None; f_mkdtemp := None;
     f_write_text := None; f_rmtree := false; f_rmtree_partial := false;
     f_popen := None; f_stdout := None; f_terminate := None;
     f_cwd := Some (FileNotFoundError (py "[Errno 2] No such file or directory")) |}.

(** The same window as [sample_ready] with the working-directory entry
    blanked on the Advanced tab. *)
Definition sample_unset : World :=
  step (EvEdit V_work_dir []) sample_ready.

(** A run request and the two worker steps that lead to its child. *)
Definition first_spawn : list event := [EvRun; EvWorker 0; EvWorker 0].


(** ** Vocabulary of the further properties *)

(** [n] consecutive steps of worker [tid]. *)
Definition worker_steps (tid n : nat) : list event :=
  repeat (EvWorker tid) n.

(** A child whose pending output has been read. *)
Definition drained (P : Proc) : Proc :=
  {| p_args := p_args P; p_cwd := p_cwd P; p_out := [];
     p_exit := p_exit P; p_terminated := p_terminated P |}.


(** Every worker's [temp_root] names a directory [mkdtemp] has made. *)
Definition roots_bounded (w : World) : Prop :=
  Forall (fun th => forall d, temp_root_of (t_pc th) = Some d ->
                      (d < length (tmpdirs (os w)))%nat)
         (threads w).

(** Directory [d] exists and no worker holds it in [temp_root]. *)
Definition orphaned (d : nat) (w : World) : Prop :=
  tmp_exists d w = true
  /\ Forall (fun th => temp_root_of (t_pc th) <> Some d) (threads w).

(** No poll of the output queue is scheduled, and the log view shows
    [C]. *)
Definition polling_stopped (C : list pystr) (w : World) : Prop :=
  (Cb_drain ∉ pending (app w)) /\ console (app w) = C.

(** The events that start or clear the log view. *)
Definition keeps_log (e : event) : Prop :=
  e <> EvRun /\ e <> EvClearLogs.

(** [mkdtemp] works and writing [config.yml] fails. *)
Definition write_text_fails (e : exn) : Faults :=
  {| f_keyring_get := None; f_keyring_set := None; f_mkdir := None;
     f_read := None; f_write := None; f_mkdtemp := None;
     f_write_text := Some e; f_rmtree := false; f_rmtree_partial := false;
     f_popen := None; f_stdout := None; f_terminate := None;
     f_cwd := None |}.


(** A character that can stand between two quotes [q] as it is: not the
    closing quote and, between double quotes, not the backslash. *)
Definition quotable (q c : char) : Prop :=
  c <> q /\ Shlex.is_escape c && Shlex.is_escapedquote q = false.

(** A character that is neither a quote nor the escape character. *)
Definition unquoted (c : char) : Prop :=
  Shlex.is_quote c = false /\ Shlex.is_escape c = false.


(** The program is closed and started again: what it held in memory is
    gone, the machine is as it was left. *)
Definition restart (w : World) : World := boot (os w).

(** What [load_settings] returns on machine [o]. *)
Definition stored_settings (o : OS) : gmap pystr pystr :=
  match f_mkdir (faults o), settings_file o, f_read (faults o) with
  | None, Some (JsonDoc d), None => d
  | _, _, _ => default_settings
  end.

(** What [get_secret name] returns on machine [o]. *)
Definition stored_secret (name : pystr) (o : OS) : pystr :=
  if KEYRING_AVAILABLE o
  then match f_keyring_get (faults o) with
       | Some _ => []
       | None =>
           match keyring_store o !! name with
           | Some s => or_else s []
           | None => []
           end
       end
  else [].


(** What the user is shown or will be shown: the log view followed by
    the lines still in the output queue. *)
Definition log_stream (w : World) : list pystr :=
  console (app w) ++ output_queue (app w).

(** [Popen] fails from now on. *)
Definition popen_fails (e : exn) : Faults :=
  {| f_keyring_get := None; f_keyring_set := None; f_mkdir := None;
     f_read := None; f_write := None; f_mkdtemp := None;
     f_write_text := None; f_rmtree := false; f_rmtree_partial := false;
     f_popen := Some e; f_stdout := None; f_terminate := None;
     f_cwd := None |}.


(** The dialog that ends Save Settings once the file is written: the
    warning when the keyring module is there, a secret entry was to be
    stored and the keyring refused; the plain confirmation otherwise. *)
Definition save_dialog (w : World) : dialog :=
  let v := vars (app w) in
  if KEYRING_AVAILABLE (os w)
     && match f_keyring_set (faults (os w)) with
        | Some _ => true
        | None => false
        end
     && (truthy (strip (var_spotify_client_secret v))
         || truthy (strip (var_tidal_password v)))
  then {| d_kind := ShowWarning; d_title := py "Saved (with issues)";
          d_message :=
            py "Settings saved, but secrets may not have been stored in keyring." |}
  else {| d_kind := ShowInfo; d_title := py "Saved";
          d_message := py "Settings saved." |}.


(** Writing the settings file fails from now on, in the way [f] says. *)
Definition write_fails (f : write_fault) : Faults :=
  {| f_keyring_get := None; f_keyring_set := None; f_mkdir := None;
     f_read := None; f_write := Some f; f_mkdtemp := None;
     f_write_text := None; f_rmtree := false; f_rmtree_partial := false;
     f_popen := None; f_stdout := None; f_terminate := None;
     f_cwd := None |}.

(** The exception [save_settings] ends with, if any: that of [mkdir],
    of [open] or of [json.dump], in this order. *)
Definition save_fault (w : World) : option exn :=
  match f_mkdir (faults (os w)) with
  | Some e => Some e
  | None =>
      match f_write (faults (os w)) with
      | Some (OpenFails e) => Some e
      | Some (DumpFails e) => Some e
      | None => None
      end
  end.

(** The settings file after a [save_settings] that raised: as it was
    when [mkdir] or [open] failed; cut short, so that [json.load]
    rejects it, when [json.dump] failed. *)
Definition file_after_failed_save (w : World) : option file :=
  match f_mkdir (faults (os w)), f_write (faults (os w)) with
  | None, Some (DumpFails _) => Some Garbage
  | _, _ => settings_file (os w)
  end.


(** Removal of directory trees fails from now on after the files are
    gone: the directory itself stays. *)
Definition rmtree_leaves_dir : Faults :=
  {| f_keyring_get := None; f_keyring_set := None; f_mkdir := None;
     f_read := None; f_write := None; f_mkdtemp := None;
     f_write_text := None; f_rmtree := true; f_rmtree_partial := true;
     f_popen := None; f_stdout := None; f_terminate := None;
     f_cwd := None |}.


(** The application-data directory cannot be made. *)
Definition mkdir_fails (e : exn) : Faults :=
  {| f_keyring_get := None; f_keyring_set := None; f_mkdir := Some e;
     f_read := None; f_write := None; f_mkdtemp := None;
     f_write_text := None; f_rmtree := false; f_rmtree_partial := false;
     f_popen := None; f_stdout := None; f_terminate := None;
     f_cwd := None |}.

(** The settings file is there and holds a JSON document. *)
Definition parsable (f : option file) : bool :=
  match f with Some (JsonDoc _) => true | _ => false end.

(** * Properties *)

(** ** Tokenization *)

Lemma is_special_false c :
  is_special c = false ->
  Shlex.is_whitespace c = false /\ Shlex.is_quote c = false
  /\ Shlex.is_escape c = false.
Proof.
  unfold is_special. intros H.
  apply orb_false_elim in H as [H Hesc].
  apply orb_false_elim in H as [Hws Hq]. auto.
Qed.

(** Inside a word, plain characters are appended to the token. *)
Lemma lex_word_plain w : forall esc quoted token rest,
  Forall (fun c => is_special c = false) w ->
  Shlex.lex Shlex.St_word esc quoted token (w ++ rest)
  = Shlex.lex Shlex.St_word esc quoted (token ++ w) rest.
Proof.
  induction w as [|c w IH]; intros esc quoted token rest Hw.
  - by rewrite app_nil_r.
  - inversion Hw as [|? ? Hc Hw']; subst.
    destruct (is_special_false c Hc) as (Hws & Hq & He).
    rewrite <- app_comm_cons. cbn [Shlex.lex]. rewrite Hws, Hq, He.
    rewrite IH by assumption. by rewrite <- app_assoc.
Qed.

Lemma join_cons_cons sep (x y : pystr) l :
  join sep (x :: y :: l) = x ++ sep ++ join sep (y :: l).
Proof. reflexivity. Qed.

Lemma lex_plain_tokens toks :
  toks <> [] -> Forall plain_token toks ->
  Shlex.lex Shlex.St_ws Shlex.St_ws false [] (join (py " ") toks) = Some toks.
Proof.
  induction toks as [|t ts IH]; intros Hne Hall; [done|].
  inversion Hall as [|? ? [Ht Hplain] Hts]; subst.
  destruct t as [|c t]; [done|].
  inversion Hplain as [|? ? Hc Hrest]; subst.
  destruct (is_special_false c Hc) as (Hws & Hq & He).
  destruct ts as [|t' ts].
  - cbn [join]. rewrite <- (app_nil_r t) at 1.
    cbn [Shlex.lex]. rewrite Hws, Hq, He.
    rewrite lex_word_plain by assumption. reflexivity.
  - rewrite join_cons_cons, <- app_comm_cons.
    cbn [Shlex.lex]. rewrite Hws, Hq, He.
    rewrite lex_word_plain by assumption.
    change (py " " ++ join (py " ") (t' :: ts))
      with (32 :: join (py " ") (t' :: ts)).
    cbn [Shlex.lex]. change (Shlex.is_whitespace 32) with true.
    cbn [app truthy orb]. rewrite IH by done. reflexivity.
Qed.

Lemma join_plain_truthy toks :
  toks <> [] -> Forall plain_token toks -> truthy (join (py " ") toks) = true.
Proof.
  intros Hne Hall. destruct toks as [|t ts]; [done|].
  inversion Hall as [|? ? [Ht _] _]; subst.
  destruct t as [|c t]; [done|]. by destruct ts.
Qed.

(** C7: tokenizing the space-joined string of a list of tokens that are
    non-empty and contain no whitespace, quote or escape character gives
    back that list. *)
Theorem split_flags_join_plain (toks : list pystr) :
  Forall plain_token toks ->
  _split_flags (join (py " ") toks) = toks.
Proof.
  intros Hall. destruct (decide (toks = [])) as [->|Hne]; [reflexivity|].
  unfold _split_flags, Shlex.split.
  rewrite join_plain_truthy, lex_plain_tokens by assumption. reflexivity.
Qed.

Lemma split_flags_join_plain_witness :
  Forall plain_token [py "--dry-run"; py "--no-duplicates"]
  /\ _split_flags (join (py " ") [py "--dry-run"; py "--no-duplicates"])
     = [py "--dry-run"; py "--no-duplicates"].
Proof.
  assert (H : Forall plain_token [py "--dry-run"; py "--no-duplicates"]).
  { repeat constructor; try discriminate. }
  split; [exact H | exact (split_flags_join_plain _ H)].
Defined.

(** ** Command builder *)

Lemma build_cmd_args_None v :
  build_cmd_args v = None <->
  var_action v = py "sync_playlist_url" /\ strip (var_playlist_url v) = [].
Proof.
  unfold build_cmd_args.
  repeat case_bool_decide; try (split; [discriminate | intros [? _]; done]).
  destruct (strip (var_playlist_url v)) eqn:E; cbn [truthy negb].
  - split; auto.
  - split; [discriminate | intros [_ ?]; done].
Qed.

(** C4, as the code has it: a built argument list is the token of the
    action, then the reference where the action takes one, then the
    tokens of the extra-flags entry; the token is fixed for the three
    preset actions and is the custom-subcommand entry (or "sync") for
    the custom action. The scenario of the claim is the second part. *)
Theorem build_cmd_args_shape :
  (forall v args,
     build_cmd_args v = Some args ->
     args = [subcommand_token v] ++ reference_args v
            ++ _split_flags (strip (var_extra_flags v)))
  /\ build_cmd_args
       (sync_form (py "sync_playlist_url") (py "abc123") [] (py "--dry-run"))
     = Some [py "sync"; py "abc123"; py "--dry-run"].
Proof.
  split; [|reflexivity].
  intros v args. unfold build_cmd_args, subcommand_token, reference_args.
  repeat case_bool_decide; repeat case_match;
    intros [= <-]; try done; by rewrite <- ?app_assoc.
Qed.

Lemma build_cmd_args_shape_witness :
  let v := sync_form (py "custom") (py " abc123 ") (py "favorites")
             (py "--dry-run 'a b'") in
  build_cmd_args v
  = Some [py "favorites"; py "abc123"; py "--dry-run"; py "a b"]
  /\ [py "favorites"; py "abc123"; py "--dry-run"; py "a b"]
     = [subcommand_token v] ++ reference_args v
       ++ _split_flags (strip (var_extra_flags v)).
Proof.
  split; [reflexivity|].
  apply (proj1 build_cmd_args_shape). reflexivity.
Defined.

(** C4 as stated fails: under the custom action the leading token is
    not fixed by the action; the same action, reference and extra flags
    give lists that begin with different tokens. *)
Lemma build_cmd_args_token_not_fixed :
  let v1 := sync_form (py "custom") [] (py "favorites") [] in
  let v2 := sync_form (py "custom") [] (py "playlists") [] in
  var_action v1 = var_action v2
  /\ var_playlist_url v1 = var_playlist_url v2
  /\ var_extra_flags v1 = var_extra_flags v2
  /\ build_cmd_args v1 = Some [py "favorites"]
  /\ build_cmd_args v2 = Some [py "playlists"]
  /\ hd_error [py "favorites"] <> hd_error [py "playlists"].
Proof. repeat split; try reflexivity. discriminate. Qed.

(** ** Secret store and settings store *)

Ltac unfold_monad :=
  unfold bind, ret, raise, try_except, gets, modify, fallible, exec in *.

Lemma get_secret_spec name w :
  get_secret name w
  = (w, Ok (if KEYRING_AVAILABLE (os w)
            then match f_keyring_get (faults (os w)) with
                 | Some _ => []
                 | None =>
                     match keyring_store (os w) !! name with
                     | Some s => or_else s []
                     | None => []
                     end
                 end
            else [])).
Proof.
  unfold get_secret, keyring_get_password. unfold_monad.
  destruct (KEYRING_AVAILABLE (os w)); cbn; [|reflexivity].
  destruct (f_keyring_get (faults (os w))); reflexivity.
Qed.

Lemma set_secret_spec name value w :
  set_secret name value w
  = if KEYRING_AVAILABLE (os w)
    then match f_keyring_set (faults (os w)) with
         | Some _ => (w, Ok false)
         | None =>
             (upd_os (fun o => set_keyring_store
                        (<[name := or_else value []]> (keyring_store o)) o) w,
              Ok true)
         end
    else (w, Ok false).
Proof.
  unfold set_secret, keyring_set_password. unfold_monad.
  destruct (KEYRING_AVAILABLE (os w)); cbn; [|reflexivity].
  destruct (f_keyring_set (faults (os w))); reflexivity.
Qed.

Lemma load_settings_spec w :
  load_settings w
  = (w, Ok (match f_mkdir (faults (os w)), settings_file (os w),
                  f_read (faults (os w)) with
            | None, Some (JsonDoc d), None => d
            | _, _, _ => default_settings
            end)).
Proof.
  unfold load_settings, mkdir_app_data_dir, read_settings_file. unfold_monad.
  destruct (f_mkdir (faults (os w))); cbn; [reflexivity|].
  destruct (settings_file (os w)) as [[d|]|]; cbn;
    destruct (f_read (faults (os w))); reflexivity.
Qed.

(** X26: [get_secret], [set_secret] and [load_settings] return a value in
    every state, whatever the backing store does; where the keyring is
    absent or its call raises they return the empty string and [False],
    and where the settings file is missing, unreadable or not parsable
    [load_settings] returns the default mapping. *)
Theorem stores_never_raise (w : World) (name value : pystr) :
  (exists s, get_secret name w = (w, Ok s))
  /\ (exists w' b, set_secret name value w = (w', Ok b))
  /\ (exists d, load_settings w = (w, Ok d))
  /\ (KEYRING_AVAILABLE (os w) = false
      \/ is_Some (f_keyring_get (faults (os w))) ->
      get_secret name w = (w, Ok []))
  /\ (KEYRING_AVAILABLE (os w) = false
      \/ is_Some (f_keyring_set (faults (os w))) ->
      set_secret name value w = (w, Ok false))
  /\ (is_Some (f_mkdir (faults (os w))) \/ settings_file (os w) = None
      \/ is_Some (f_read (faults (os w)))
      \/ settings_file (os w) = Some Garbage ->
      load_settings w = (w, Ok default_settings)).
Proof.
  rewrite get_secret_spec, set_secret_spec, load_settings_spec.
  repeat split.
  - eauto.
  - destruct (KEYRING_AVAILABLE (os w)); [|eauto].
    destruct (f_keyring_set (faults (os w))); eauto.
  - eauto.
  - intros [-> | [e ->]]; [reflexivity|].
    by destruct (KEYRING_AVAILABLE (os w)).
  - intros [-> | [e ->]]; [reflexivity|].
    by destruct (KEYRING_AVAILABLE (os w)).
  - intros [[e ->] | [-> | [[e ->] | ->]]]; try reflexivity;
      destruct (f_mkdir (faults (os w))); try reflexivity;
      destruct (settings_file (os w)) as [[d|]|]; reflexivity.
Qed.

Lemma stores_never_raise_witness :
  let w := boot bare_os in
  get_secret (py "tidal_password") w = (w, Ok [])
  /\ set_secret (py "tidal_password") (py "pw") w = (w, Ok false)
  /\ load_settings w = (w, Ok default_settings).
Proof.
  intros w.
  destruct (stores_never_raise w (py "tidal_password") (py "pw"))
    as (_ & _ & _ & Hget & Hset & Hload).
  split; [apply Hget; left; reflexivity|].
  split; [apply Hset; left; reflexivity|].
  apply Hload. do 3 right. reflexivity.
Defined.

(** C8: where the code departs from the claim. [save_settings] has no
    handler, unlike [load_settings], [get_secret] and [set_secret], and
    Save Settings does not catch what it raises. When the
    application-data directory cannot be made, [load_settings] returns
    the default mapping while [save_settings] raises to its caller and
    Save Settings ends without a dialog; when [json.dump] fails after a
    successful save, the exception reaches the caller as well and the
    settings file, which held a JSON document, is left unparsable. *)
Theorem save_settings_raises :
  let e := Exception (py "[Errno 13] Permission denied") in
  let w1 := step (EvFaults (mkdir_fails e)) sample_ready in
  let w2 := run [EvSave; EvFaults (write_fails (DumpFails e))] sample_ready in
  snd (load_settings w1) = Ok default_settings
  /\ snd (save_settings default_settings w1) = Raise e
  /\ snd (on_save_settings w1) = Raise e
  /\ dialogs (app (step EvSave w1)) = dialogs (app w1)
  /\ parsable (settings_file (os w2)) = true
  /\ snd (save_settings default_settings w2) = Raise e
  /\ snd (on_save_settings w2) = Raise e
  /\ settings_file (os (step EvSave w2)) = Some Garbage
  /\ dialogs (app (step EvSave w2)) = dialogs (app w2).
Proof.
  intros e w1 w2. split.
  { rewrite load_settings_spec. reflexivity. }
  repeat match goal with |- _ /\ _ => split end; vm_compute; reflexivity.
Qed.

(** ** The worker's report *)


Lemma lookup_insert_thread (ts : list Thread) tid th th' :
  ts !! tid = Some th -> <[tid := th']> ts !! tid = Some th'.
Proof.
  intros H. apply list_lookup_insert_eq. by eapply lookup_lt_Some.
Qed.

(** The step of a thread whose [wait] returns [rc]. *)
Lemma step_wait w tid th d p P rc :
  threads w !! tid = Some th -> t_pc th = W_wait d ->
  proc (app w) = Some p -> procs (os w) !! p = Some P ->
  p_exit P = Some rc ->
  step (EvWorker tid) w
  = set_threads (<[tid := set_rc rc (set_pc (W_report d rc) th)]> (threads w)) w.
Proof.
  intros Hth Hpc Hproc HP Hexit. cbn [step]. rewrite Hth.
  unfold worker_step. by rewrite Hpc, Hproc, HP, Hexit.
Qed.

(** The step of a thread that reports the exit code it holds. *)
Lemma step_report w tid th d rc :
  threads w !! tid = Some th -> t_pc th = W_report d rc ->
  step (EvWorker tid) w
  = set_threads
      (<[tid := set_outcome (fst (report (stop_requested (app w)) rc))
                  (set_pc (W_finally (Some d)) th)]> (threads w))
      (put (snd (report (stop_requested (app w)) rc)) w).
Proof.
  intros Hth Hpc. cbn [step]. rewrite Hth.
  unfold worker_step. rewrite Hpc.
  by destruct (report (stop_requested (app w)) rc).
Qed.

(** ** Run requests *)

Lemma field_or_secret_spec field name w :
  field_or_secret field name w = (w, Ok (resolved_secret field name w)).
Proof.
  unfold resolved_secret, value_of, field_or_secret.
  destruct (truthy (strip field)); [reflexivity|].
  by rewrite get_secret_spec.
Qed.

Lemma on_run_valid w :
  credentials_ok w = true ->
  on_run w = (on_save_settings ;; on_run_launch) w.
Proof.
  unfold credentials_ok. intros H.
  repeat (apply andb_prop in H as [H ?]).
  unfold on_run, get_vars. unfold bind at 1, gets at 1. cbn beta iota.
  rewrite H. cbn [negb].
  unfold bind at 1. rewrite field_or_secret_spec.
  match goal with H : truthy (resolved_secret _ (py "spotify_client_secret") _) = _ |- _ =>
    rewrite H end.
  cbn [negb].
  repeat match goal with H : truthy (strip _) = true |- _ =>
    rewrite H; clear H end.
  cbn [negb]. unfold bind at 1. rewrite field_or_secret_spec.
  match goal with H : truthy (resolved_secret _ _ _) = _ |- _ => rewrite H end.
  reflexivity.
Qed.

Lemma on_run_invalid w :
  credentials_ok w = false ->
  exists what, on_run w = showerror_missing what w.
Proof.
  unfold credentials_ok. intros H.
  unfold on_run, get_vars. unfold bind at 1, gets at 1. cbn beta iota.
  destruct (truthy (strip (var_spotify_client_id (vars (app w)))));
    cbn [negb]; [|eauto].
  unfold bind at 1. rewrite field_or_secret_spec.
  destruct (truthy (resolved_secret _ (py "spotify_client_secret") w));
    cbn [negb]; [|eauto].
  destruct (truthy (strip (var_spotify_username (vars (app w)))));
    cbn [negb]; [|eauto].
  destruct (truthy (strip (var_tidal_username (vars (app w)))));
    cbn [negb]; [|eauto].
  unfold bind at 1. rewrite field_or_secret_spec.
  destruct (truthy (resolved_secret _ (py "tidal_password") w));
    cbn [negb]; [done|eauto].
Qed.

(** *** What a computation leaves as it is *)

Section Frames.
Context {X : Type} (f : World -> X).

Lemma frames_ret {A} (a : A) : frames f (ret a).
Proof. by intros w. Qed.

Lemma frames_raise {A} e : frames f (@raise A e).
Proof. by intros w. Qed.

Lemma frames_gets {A} (g : World -> A) : frames f (gets g).
Proof. by intros w. Qed.

Lemma frames_fallible g : frames f (fallible g).
Proof. intros w. unfold fallible. by destruct (g _). Qed.

Lemma frames_modify g : (forall w, f (g w) = f w) -> frames f (modify g).
Proof. intros H w. apply H. Qed.

Lemma frames_bind {A B} (m : M A) (k : A -> M B) :
  frames f m -> (forall a, frames f (k a)) -> frames f (bind m k).
Proof.
  intros Hm Hk w. unfold bind. specialize (Hm w).
  destruct (m w) as [w' [a|e]]; cbn in *; [|done].
  by rewrite Hk.
Qed.

Lemma frames_try {A} (m : M A) (h : exn -> M A) :
  frames f m -> (forall e, frames f (h e)) -> frames f (try_except m h).
Proof.
  intros Hm Hh w. unfold try_except. specialize (Hm w).
  destruct (m w) as [w' [a|e]]; cbn in *; [done|].
  by rewrite Hh.
Qed.

End Frames.

(** Decompose a computation along its binds and branches. *)
Ltac frames_step :=
  lazymatch goal with
  | |- frames _ (ret _) => apply frames_ret
  | |- frames _ (raise _) => apply frames_raise
  | |- frames _ (gets _) => apply frames_gets
  | |- frames _ (fallible _) => apply frames_fallible
  | |- frames _ (modify _) => apply frames_modify; intros ?; reflexivity
  | |- frames _ (bind _ _) => apply frames_bind; [|intros ?]
  | |- frames _ (try_except _ _) => apply frames_try; [|intros ?]
  | |- frames _ (if ?c then _ else _) => destruct c
  | |- frames _ _ => progress case_match
  end.

Ltac frames_ops :=
  unfold messagebox, showerror_missing, get_vars, set_var, set_status, after,
    console_clear, field_or_secret, get_secret, set_secret,
    keyring_get_password, keyring_set_password, save_settings,
    open_settings_file, json_dump,
    load_settings, read_settings_file, mkdir_app_data_dir, start_thread,
    terminate.

Ltac solve_frames := repeat first [progress frames_ops | frames_step].

(** [on_save_settings] changes the settings, the settings file, the
    keyring and the dialogs, and nothing else. *)
Lemma on_save_settings_frame w :
  same_run_state w (exec on_save_settings w)
  /\ vars (app (exec on_save_settings w)) = vars (app w)
  /\ faults (os (exec on_save_settings w)) = faults (os w)
  /\ KEYRING_AVAILABLE (os (exec on_save_settings w)) = KEYRING_AVAILABLE (os w).
Proof.
  assert (H : frames (fun w => (threads w, procs (os w), tmpdirs (os w),
                                proc (app w), stop_requested (app w),
                                vars (app w), faults (os w),
                                KEYRING_AVAILABLE (os w)))
                on_save_settings).
  { unfold on_save_settings. solve_frames. }
  specialize (H w). unfold same_run_state, exec. by simplify_eq.
Qed.

Lemma on_run_launch_None w :
  build_cmd_args (vars (app w)) = None ->
  on_run_launch w
  = showerror_missing (py "Please paste a Spotify playlist URL.") w.
Proof.
  intros H. unfold on_run_launch, get_vars. unfold bind at 1, gets at 1.
  cbn beta iota. by rewrite H.
Qed.

Lemma on_run_launch_Some w cmd_args :
  build_cmd_args (vars (app w)) = Some cmd_args ->
  threads (exec on_run_launch w) = threads w ++ [new_thread cmd_args]
  /\ stop_requested (app (exec on_run_launch w)) = false
  /\ os (exec on_run_launch w) = os w
  /\ proc (app (exec on_run_launch w)) = proc (app w).
Proof.
  intros H. unfold exec.
  assert (E : on_run_launch w
              = (console_clear ;;
                 set_status (py "Running" ++ [8230]) ;;
                 modify (upd_app (set_stop_requested false)) ;;
                 start_thread cmd_args ;;
                 after Cb_drain) w).
  { unfold on_run_launch, get_vars. unfold bind at 1, gets at 1.
    cbn beta iota. by rewrite H. }
  rewrite E. repeat split; reflexivity.
Qed.

Lemma showerror_missing_same_run_state what w :
  same_run_state w (exec (showerror_missing what) w).
Proof. by unfold same_run_state. Qed.

Lemma same_run_state_trans w1 w2 w3 :
  same_run_state w1 w2 -> same_run_state w2 w3 -> same_run_state w1 w3.
Proof.
  unfold same_run_state. intros (?&?&?&?&?) (?&?&?&?&?).
  repeat split; congruence.
Qed.

(** A run request with the playlist action and a blank reference, after
    the credential checks have passed. *)
Lemma on_run_blank_reference w :
  credentials_ok w = true ->
  build_cmd_args (vars (app w)) = None ->
  on_run w
  = (on_save_settings ;;
     showerror_missing (py "Please paste a Spotify playlist URL.")) w.
Proof.
  intros Hok Hnone. rewrite on_run_valid by assumption.
  unfold bind. destruct (on_save_settings_frame w) as (_ & Hvars & _).
  unfold exec in Hvars.
  destruct (on_save_settings w) as [w' [[]|e]]; cbn in *; [|reflexivity].
  apply on_run_launch_None. by rewrite Hvars.
Qed.

(** C6, as the code has it: with the playlist action and a blank
    reference a run request starts no thread, spawns no process and
    writes no temporary directory, and leaves the process handle and
    the stop flag alone. When the credential checks pass it has by then
    run Save Settings, after which it shows the error; when they fail
    it shows their error and nothing else. *)
Theorem blank_reference_starts_nothing w :
  var_action (vars (app w)) = py "sync_playlist_url" ->
  strip (var_playlist_url (vars (app w))) = [] ->
  same_run_state w (step EvRun w)
  /\ (credentials_ok w = true ->
      step EvRun w
      = exec (on_save_settings ;;
              showerror_missing (py "Please paste a Spotify playlist URL.")) w)
  /\ (credentials_ok w = false ->
      exists what, step EvRun w = exec (showerror_missing what) w).
Proof.
  intros Hact Hurl.
  assert (Hnone : build_cmd_args (vars (app w)) = None)
    by (by apply build_cmd_args_None).
  cbn [step]. destruct (credentials_ok w) eqn:Hok.
  - assert (Heq := on_run_blank_reference w Hok Hnone).
    unfold exec. rewrite Heq. split; [|split; [done|discriminate]].
    destruct (on_save_settings_frame w) as (Hsame & _).
    unfold exec in *. unfold bind.
    destruct (on_save_settings w) as [w' [[]|e]]; cbn in *; [|done].
    eapply same_run_state_trans; [exact Hsame|].
    apply showerror_missing_same_run_state.
  - destruct (on_run_invalid w Hok) as [what Heq].
    unfold exec. rewrite Heq. split; [|split; [discriminate|]].
    + apply showerror_missing_same_run_state.
    + intros _. by exists what.
Qed.

Lemma blank_reference_starts_nothing_witness :
  same_run_state sample_blank (step EvRun sample_blank)
  /\ step EvRun sample_blank
     = exec (on_save_settings ;;
             showerror_missing (py "Please paste a Spotify playlist URL."))
         sample_blank.
Proof.
  assert (Hact : var_action (vars (app sample_blank)) = py "sync_playlist_url")
    by reflexivity.
  assert (Hurl : strip (var_playlist_url (vars (app sample_blank))) = [])
    by reflexivity.
  destruct (blank_reference_starts_nothing sample_blank Hact Hurl)
    as (Hsame & Hok & _).
  split; [exact Hsame|]. apply Hok. vm_compute. reflexivity.
Defined.

(** C6 as stated fails: a run request with valid credentials and a blank
    reference changes state beyond the error it shows; it writes the
    settings file and stores the secrets, and shows the "Saved" dialog
    before the error. *)
Lemma blank_reference_saves_first :
  credentials_ok sample_blank = true
  /\ var_action (vars (app sample_blank)) = py "sync_playlist_url"
  /\ strip (var_playlist_url (vars (app sample_blank))) = []
  /\ settings_file (os sample_blank) = None
  /\ settings_file (os (step EvRun sample_blank))
     = Some (JsonDoc (settings_from_ui (vars (app sample_blank))
                        (settings (app sample_blank))))
  /\ keyring_store (os sample_blank) !! py "spotify_client_secret" = None
  /\ keyring_store (os (step EvRun sample_blank)) !! py "spotify_client_secret"
     = Some (py "s3cret")
  /\ List.map d_title (dialogs (app (step EvRun sample_blank)))
     = List.map d_title (dialogs (app sample_blank))
       ++ [py "Saved"; py "Missing"].
Proof. vm_compute. repeat split; reflexivity. Qed.

(** *** Running a computation step by step *)

Lemma bind_gets {A B} (g : World -> A) (k : A -> M B) w :
  bind (gets g) k w = k (g w) w.
Proof. reflexivity. Qed.

Lemma bind_modify {B} (g : World -> World) (k : unit -> M B) w :
  bind (modify g) k w = k tt (g w).
Proof. reflexivity. Qed.

Lemma bind_ret {A B} (a : A) (k : A -> M B) w :
  bind (ret a) k w = k a w.
Proof. reflexivity. Qed.

Lemma bind_fallible_None {B} f (k : unit -> M B) w :
  f (faults (os w)) = None -> bind (fallible f) k w = k tt w.
Proof. intros H. unfold bind, fallible. by rewrite H. Qed.

Lemma bind_fallible_Some {B} f (k : unit -> M B) w e :
  f (faults (os w)) = Some e -> bind (fallible f) k w = (w, Raise e).
Proof. intros H. unfold bind, fallible. by rewrite H. Qed.

Lemma bind_assoc {A B C} (m : M A) (k : A -> M B) (h : B -> M C) w :
  bind (bind m k) h w = bind m (fun x => bind (k x) h) w.
Proof. unfold bind. by destruct (m w) as [w' [a|e]]. Qed.

Lemma bind_Ok {A B} (m : M A) (k : A -> M B) w w' a :
  m w = (w', Ok a) -> bind m k w = k a w'.
Proof. intros H. unfold bind. by rewrite H. Qed.

(** Projections of updated records. *)
Ltac proj_simpl :=
  cbn [app os threads upd_app upd_os set_threads
       vars settings proc stop_requested output_queue console status_var
       dialogs pending
       set_vars set_settings set_proc set_stop_requested set_output_queue
       set_console set_status_var set_dialogs set_pending
       KEYRING_AVAILABLE keyring_store settings_file tmpdirs procs cwd
       executable faults
       set_keyring_store set_settings_file set_tmpdirs set_procs set_faults
       t_cmd_args t_work_dir t_pc t_rc t_outcome
       set_pc set_outcome set_rc set_work_dir new_thread
       put fst snd] in *.

(** With a writable disk, [save_settings] leaves the document in the
    settings file. *)
Lemma save_settings_ok data w :
  f_mkdir (faults (os w)) = None -> f_write (faults (os w)) = None ->
  save_settings data w
  = (upd_os (set_settings_file (Some (JsonDoc data))) w, Ok tt).
Proof.
  intros Hmk Hwr. unfold save_settings, mkdir_app_data_dir,
    open_settings_file, json_dump.
  rewrite bind_fallible_None by exact Hmk. cbn beta.
  rewrite bind_assoc, bind_gets; cbn beta. rewrite Hwr.
  rewrite bind_modify; cbn beta. rewrite bind_gets; cbn beta.
  proj_simpl. rewrite Hwr. reflexivity.
Qed.

(** With a writable disk, Save Settings writes the whole settings
    mapping, updated from the form, to the settings file. *)
Lemma on_save_settings_file w :
  f_mkdir (faults (os w)) = None -> f_write (faults (os w)) = None ->
  settings_file (os (exec on_save_settings w))
  = Some (JsonDoc (settings_from_ui (vars (app w)) (settings (app w)))).
Proof.
  intros Hmk Hwr. unfold exec, on_save_settings, get_vars.
  rewrite bind_gets; cbn beta. rewrite bind_modify; cbn beta.
  rewrite bind_gets; cbn beta.
  erewrite bind_Ok by (apply save_settings_ok; proj_simpl; done). cbn beta.
  match goal with |- settings_file (os (fst (?m ?w0))) = _ =>
    assert (H : frames (fun w => settings_file (os w)) m) end.
  { solve_frames. }
  rewrite H. reflexivity.
Qed.

Lemma set_secret_ok name value w :
  KEYRING_AVAILABLE (os w) = true -> f_keyring_set (faults (os w)) = None ->
  set_secret name value w
  = (upd_os (fun o => set_keyring_store
               (<[name := or_else value []]> (keyring_store o)) o) w,
     Ok true).
Proof. intros Ha Hf. by rewrite set_secret_spec, Ha, Hf. Qed.

(** The keyring after Save Settings, when the disk and the keyring
    work: each secret entry that is not blank has been stored. *)
Lemma on_save_settings_keyring w :
  f_mkdir (faults (os w)) = None -> f_write (faults (os w)) = None ->
  KEYRING_AVAILABLE (os w) = true -> f_keyring_set (faults (os w)) = None ->
  keyring_store (os (exec on_save_settings w))
  = store_if_set (py "tidal_password") (var_tidal_password (vars (app w)))
      (store_if_set (py "spotify_client_secret")
         (var_spotify_client_secret (vars (app w)))
         (keyring_store (os w))).
Proof.
  intros Hmk Hwr Hav Hks. unfold exec, on_save_settings, get_vars,
    store_if_set.
  rewrite bind_gets; cbn beta. rewrite bind_modify; cbn beta.
  rewrite bind_gets; cbn beta.
  erewrite bind_Ok by (apply save_settings_ok; proj_simpl; done). cbn beta.
  assert (Hor : forall s, truthy s = true -> or_else s [] = s).
  { intros s Hs. unfold or_else. by rewrite Hs. }
  destruct (truthy (strip (var_spotify_client_secret (vars (app w))))) eqn:Hs1;
    destruct (truthy (strip (var_tidal_password (vars (app w))))) eqn:Hs2;
    repeat first
      [ rewrite bind_ret; cbn beta
      | rewrite bind_assoc
      | erewrite (bind_Ok (set_secret _ _));
          [| apply set_secret_ok; proj_simpl; assumption ]; cbn beta
      | rewrite bind_gets; cbn beta ];
    proj_simpl; rewrite Hav; cbn [orb negb];
    unfold messagebox, modify; proj_simpl; rewrite ?Hor by assumption;
    reflexivity.
Qed.

Lemma on_run_launch_frame w :
  os (exec on_run_launch w) = os w
  /\ settings (app (exec on_run_launch w)) = settings (app w).
Proof.
  assert (H : frames (fun w => (os w, settings (app w))) on_run_launch).
  { unfold on_run_launch. solve_frames. }
  specialize (H w). unfold exec. by simplify_eq.
Qed.

(** C10: a run request that passes the credential checks is Save
    Settings followed by the launch. What it leaves in the settings
    file, in the keyring and in the settings mapping is what Save
    Settings leaves; it spawns no process itself, and it starts a
    worker only when Save Settings has returned. With a writable disk
    the file holds the whole settings mapping, and with a working
    keyring every secret entry that is not blank has been stored. *)
Theorem run_request_saves_first w :
  credentials_ok w = true ->
  on_run w = (on_save_settings ;; on_run_launch) w
  /\ settings_file (os (step EvRun w))
     = settings_file (os (exec on_save_settings w))
  /\ keyring_store (os (step EvRun w))
     = keyring_store (os (exec on_save_settings w))
  /\ settings (app (step EvRun w)) = settings (app (exec on_save_settings w))
  /\ procs (os (step EvRun w)) = procs (os w)
  /\ tmpdirs (os (step EvRun w)) = tmpdirs (os w)
  /\ (threads (step EvRun w) <> threads w -> snd (on_save_settings w) = Ok tt)
  /\ (f_mkdir (faults (os w)) = None -> f_write (faults (os w)) = None ->
      settings_file (os (step EvRun w))
      = Some (JsonDoc (settings_from_ui (vars (app w)) (settings (app w))))
      /\ (KEYRING_AVAILABLE (os w) = true ->
          f_keyring_set (faults (os w)) = None ->
          keyring_store (os (step EvRun w))
          = store_if_set (py "tidal_password")
              (var_tidal_password (vars (app w)))
              (store_if_set (py "spotify_client_secret")
                 (var_spotify_client_secret (vars (app w)))
                 (keyring_store (os w))))).
Proof.
  intros Hok. pose proof (on_run_valid w Hok) as Heq.
  assert (Hos : os (step EvRun w) = os (exec on_save_settings w)
                /\ settings (app (step EvRun w))
                   = settings (app (exec on_save_settings w))
                /\ (threads (step EvRun w) <> threads w ->
                    snd (on_save_settings w) = Ok tt)).
  { cbn [step]. unfold exec. rewrite Heq. unfold bind.
    destruct (on_save_settings_frame w) as ((Hth & _) & _).
    unfold exec in Hth.
    destruct (on_save_settings w) as [w' [[]|e]]; cbn [fst snd] in *.
    - destruct (on_run_launch_frame w') as [H1 H2].
      unfold exec in H1, H2. by rewrite H1, H2.
    - repeat split. intros Hne. by rewrite Hth in Hne. }
  destruct Hos as (Hos & Hset & Hthr).
  destruct (on_save_settings_frame w) as ((_ & Hprocs & Htmp & _) & _).
  rewrite Hos, Hset. repeat split; try done.
  - by apply on_save_settings_file.
  - by apply on_save_settings_keyring.
Qed.

Lemma run_request_saves_first_witness :
  settings_file (os (step EvRun sample_ready))
  = Some (JsonDoc (settings_from_ui (vars (app sample_ready))
                     (settings (app sample_ready))))
  /\ keyring_store (os (step EvRun sample_ready))
     = store_if_set (py "tidal_password")
         (var_tidal_password (vars (app sample_ready)))
         (store_if_set (py "spotify_client_secret")
            (var_spotify_client_secret (vars (app sample_ready)))
            (keyring_store (os sample_ready))).
Proof.
  assert (Hok : credentials_ok sample_ready = true) by (vm_compute; reflexivity).
  destruct (run_request_saves_first sample_ready Hok)
    as (_ & _ & _ & _ & _ & _ & _ & H).
  destruct H as [Hfile Hkey]; [reflexivity | reflexivity |].
  split; [exact Hfile | apply Hkey; reflexivity].
Defined.

(** ** Concurrent run requests *)

(** The step of a thread that spawns its child. *)
Lemma step_spawn w tid th d :
  threads w !! tid = Some th -> t_pc th = W_spawn d ->
  f_popen (faults (os w)) = None ->
  procs (os (step (EvWorker tid) w)) = procs (os w) ++ [spawned_child w th d]
  /\ proc (app (step (EvWorker tid) w)) = Some (length (procs (os w)))
  /\ threads (step (EvWorker tid) w) = <[tid := set_pc (W_iter d) th]> (threads w)
  /\ tmpdirs (os (step (EvWorker tid) w)) = tmpdirs (os w)
  /\ stop_requested (app (step (EvWorker tid) w)) = stop_requested (app w).
Proof.
  intros Hth Hpc Hf. cbn [step]. rewrite Hth.
  unfold worker_step. rewrite Hpc. unfold Popen.
  rewrite bind_fallible_None by (proj_simpl; exact Hf).
  rewrite bind_gets; cbn beta. rewrite bind_modify; cbn beta.
  unfold ret. by proj_simpl.
Qed.

(** C1, as the code has it: [on_run] does not consult the process
    handle. Whenever the credential checks pass, Save Settings returns
    and a command is built, it starts a new worker thread and clears
    the stop flag, whether or not a child is running; and a worker that
    reaches [Popen] adds a child process and points the process handle
    at it. *)
Theorem run_request_not_rejected :
  (forall w cmd_args,
     credentials_ok w = true ->
     snd (on_save_settings w) = Ok tt ->
     build_cmd_args (vars (app w)) = Some cmd_args ->
     threads (step EvRun w) = threads w ++ [new_thread cmd_args]
     /\ stop_requested (app (step EvRun w)) = false
     /\ proc (app (step EvRun w)) = proc (app w))
  /\ (forall w tid th d,
        threads w !! tid = Some th -> t_pc th = W_spawn d ->
        f_popen (faults (os w)) = None ->
        procs (os (step (EvWorker tid) w))
        = procs (os w) ++ [spawned_child w th d]
        /\ proc (app (step (EvWorker tid) w)) = Some (length (procs (os w)))).
Proof.
  split.
  - intros w cmd_args Hok Hsave Hbuild.
    cbn [step]. unfold exec. rewrite (on_run_valid w Hok). unfold bind.
    destruct (on_save_settings_frame w) as ((Hth & _ & _ & Hproc & _) & Hvars & _).
    unfold exec in *.
    destruct (on_save_settings w) as [w' [[]|e]]; cbn [fst snd] in *; [|done].
    rewrite <- Hvars in Hbuild.
    destruct (on_run_launch_Some w' cmd_args Hbuild) as (H1 & H2 & _ & H4).
    unfold exec in *. by rewrite H1, H2, H4, Hth, Hproc.
  - intros w tid th d Hth Hpc Hf.
    destruct (step_spawn w tid th d Hth Hpc Hf) as (H1 & H2 & _). done.
Qed.

Lemma run_request_not_rejected_witness :
  proc_running sample_running = true
  /\ threads (step EvRun sample_running)
     = threads sample_running
       ++ [new_thread [py "sync"; py "abc123"; py "--dry-run"]].
Proof.
  assert (Hok : credentials_ok sample_running = true)
    by (vm_compute; reflexivity).
  assert (Hsave : snd (on_save_settings sample_running) = Ok tt)
    by (vm_compute; reflexivity).
  assert (Hbuild : build_cmd_args (vars (app sample_running))
                   = Some [py "sync"; py "abc123"; py "--dry-run"])
    by (vm_compute; reflexivity).
  split; [vm_compute; reflexivity|].
  exact (proj1 (proj1 run_request_not_rejected sample_running _
                  Hok Hsave Hbuild)).
Defined.

(** C1 as stated fails: while the child of the first run is running, a
    second run request is accepted; its worker spawns a second child,
    both children are alive, and the process handle has moved to the
    second one. *)
Lemma second_run_spawns_second_child :
  proc_running sample_running = true
  /\ length (threads sample_running) = 1%nat
  /\ List.map p_exit (procs (os sample_running)) = [None]
  /\ proc (app sample_running) = Some 0%nat
  /\ length (threads (step EvRun sample_running)) = 2%nat
  /\ List.map p_exit
       (procs (os (run [EvRun; EvWorker 1; EvWorker 1] sample_running)))
     = [None; None]
  /\ proc (app (run [EvRun; EvWorker 1; EvWorker 1] sample_running))
     = Some 1%nat.
Proof. vm_compute. repeat split; reflexivity. Qed.

(** ** Events and what they leave alone *)

Section Keeps.
Context (P : World -> Prop).

Lemma keeps_ret {A} (a : A) : keeps P (ret a).
Proof. by intros w. Qed.

Lemma keeps_raise {A} e : keeps P (@raise A e).
Proof. by intros w. Qed.

Lemma keeps_gets {A} (g : World -> A) : keeps P (gets g).
Proof. by intros w. Qed.

Lemma keeps_fallible g : keeps P (fallible g).
Proof. intros w. unfold fallible. by destruct (g _). Qed.

Lemma keeps_modify g : (forall w, P w -> P (g w)) -> keeps P (modify g).
Proof. intros H w. apply H. Qed.

Lemma keeps_bind {A B} (m : M A) (k : A -> M B) :
  keeps P m -> (forall a, keeps P (k a)) -> keeps P (bind m k).
Proof.
  intros Hm Hk w Hw. unfold bind. specialize (Hm w Hw).
  destruct (m w) as [w' [a|e]]; cbn in *; [|done].
  by apply Hk.
Qed.

Lemma keeps_try {A} (m : M A) (h : exn -> M A) :
  keeps P m -> (forall e, keeps P (h e)) -> keeps P (try_except m h).
Proof.
  intros Hm Hh w Hw. unfold try_except. specialize (Hm w Hw).
  destruct (m w) as [w' [a|e]]; cbn in *; [done|].
  by apply Hh.
Qed.

End Keeps.

Ltac keeps_step :=
  lazymatch goal with
  | |- keeps _ (ret _) => apply keeps_ret
  | |- keeps _ (raise _) => apply keeps_raise
  | |- keeps _ (gets _) => apply keeps_gets
  | |- keeps _ (fallible _) => apply keeps_fallible
  | |- keeps _ (modify _) =>
      apply keeps_modify;
      let H := fresh in
      intros ? H; first [exact H | reflexivity | by apply lookup_app_l_Some]
  | |- keeps _ (bind _ _) => apply keeps_bind; [|intros ?]
  | |- keeps _ (try_except _ _) => apply keeps_try; [|intros ?]
  | |- keeps _ (if ?c then _ else _) => destruct c
  | |- keeps _ _ => progress case_match
  end.

Ltac handler_ops :=
  unfold on_save_settings, on_load_settings_clicked, on_clear_secrets,
    on_browse_workdir, on_cancel, on_run, on_run_launch, run_callback,
    _drain_output_queue, _load_ui_from_settings.

Ltac solve_keeps :=
  repeat first [progress handler_ops | progress frames_ops | keeps_step].

Lemma step_keeps_stop_flag e w :
  e <> EvRun -> is_worker e = false ->
  stop_requested (app w) = true -> stop_requested (app (step e w)) = true.
Proof.
  intros Hrun Hwk Hstop.
  assert (K : forall A (m : M A),
             keeps (fun w => stop_requested (app w) = true) m ->
             stop_requested (app (exec m w)) = true).
  { intros A m Hm. by apply Hm. }
  destruct e; try done; cbn [step]; try (apply K; solve_keeps).
  destruct (pending (app w) !! i) as [cb|]; [|done].
  assert (Hm : keeps (fun w => stop_requested (app w) = true) (run_callback cb)).
  { destruct cb; solve_keeps. }
  by apply Hm.
Qed.

(** Lifting a property kept by every handler to the events that are not
    worker steps. *)
Ltac step_by_keeps P :=
  let K := fresh "K" in
  assert (K : forall A (m : M A) w, keeps P m -> P w -> P (exec m w))
    by (intros ? ? ? Hm ?; by apply Hm);
  lazymatch goal with
  | |- context [step ?e ?w] =>
      destruct e; try done; cbn [step];
      try (apply (K _ _ w); [solve_keeps | assumption]);
      try (destruct (pending (app w) !! _) as [[]|]; [| |assumption];
           apply K; [solve_keeps | assumption | solve_keeps | assumption])
  end.

Lemma step_keeps_thread e w tid th :
  is_worker e = false ->
  threads w !! tid = Some th -> threads (step e w) !! tid = Some th.
Proof.
  intros Hwk Hth.
  step_by_keeps (fun w => threads w !! tid = Some th).
Qed.

Lemma step_keeps_tmpdirs e w :
  is_worker e = false -> tmpdirs (os (step e w)) = tmpdirs (os w).
Proof.
  intros Hwk.
  remember (tmpdirs (os w)) as T eqn:HT. symmetry in HT.
  step_by_keeps (fun w => tmpdirs (os w) = T).
Qed.

(** ** Worker steps *)

Lemma tmp_evolves_refl t : tmp_evolves t t.
Proof. split; [lia | by left]. Qed.

Lemma tmp_evolves_app t x : tmp_evolves t (t ++ [x]).
Proof.
  split; [rewrite length_app; lia|].
  intros d Hd. left. by apply lookup_app_l.
Qed.

Lemma tmp_evolves_created t x y :
  tmp_evolves t (<[length t := x]> (t ++ [y])).
Proof.
  split; [rewrite length_insert, length_app; lia|].
  intros d Hd. left.
  rewrite list_lookup_insert_ne by lia. by apply lookup_app_l.
Qed.

Lemma tmp_evolves_removed t d : tmp_evolves t (<[d := None]> t).
Proof.
  split; [rewrite length_insert; lia|].
  intros d' Hd'. destruct (decide (d = d')) as [->|Hne].
  - right; left. by apply list_lookup_insert_eq.
  - left. by apply list_lookup_insert_ne.
Qed.

Lemma tmp_evolves_emptied t d :
  tmp_evolves t (alter (fun x => match x with
                                 | Some _ => Some None
                                 | None => None
                                 end) d t).
Proof.
  split; [rewrite length_alter; lia|].
  intros d' Hd'. destruct (decide (d = d')) as [->|Hne].
  - rewrite list_lookup_alter_eq.
    destruct (t !! d') as [[c|]|] eqn:E; cbn; [|by left|by left].
    right; right. split; [by exists c|done].
  - left. by apply list_lookup_alter_ne.
Qed.

(** [_build_temp_config] touches nothing but the temporary directories;
    the directory it returns is the new one. *)
Lemma build_temp_config_spec w :
  exists w' r,
    _build_temp_config w = (w', r)
    /\ app w' = app w /\ threads w' = threads w
    /\ faults (os w') = faults (os w) /\ procs (os w') = procs (os w)
    /\ tmp_evolves (tmpdirs (os w)) (tmpdirs (os w'))
    /\ (forall d, r = Ok d ->
          d = length (tmpdirs (os w))
          /\ (d < length (tmpdirs (os w')))%nat).
Proof.
  unfold _build_temp_config, get_vars, mkdtemp, write_text.
  rewrite bind_assoc.
  destruct (f_mkdtemp (faults (os w))) as [e|] eqn:Hmk.
  { rewrite (bind_fallible_Some _ _ _ e Hmk).
    eexists _, _. split; [reflexivity|].
    repeat split; try apply tmp_evolves_refl; discriminate. }
  rewrite bind_fallible_None by exact Hmk. cbn beta.
  rewrite bind_assoc; cbn beta. rewrite bind_gets; cbn beta.
  rewrite bind_assoc; cbn beta. rewrite bind_modify; cbn beta.
  rewrite bind_ret; cbn beta. rewrite bind_gets; cbn beta.
  erewrite bind_Ok by apply field_or_secret_spec. cbn beta.
  erewrite bind_Ok by apply field_or_secret_spec. cbn beta.
  rewrite bind_assoc.
  destruct (f_write_text (faults (os w))) as [e|] eqn:Hwt.
  { rewrite (bind_fallible_Some _ _ _ e) by (proj_simpl; exact Hwt).
    eexists _, _. split; [reflexivity|]. proj_simpl.
    repeat split; try apply tmp_evolves_app; discriminate. }
  rewrite bind_fallible_None by (proj_simpl; exact Hwt). cbn beta.
  rewrite bind_modify; cbn beta.
  unfold ret. eexists _, _. split; [reflexivity|]. proj_simpl.
  repeat split; try apply tmp_evolves_created;
    simplify_eq; rewrite ?length_insert, ?length_app; cbn; lia.
Qed.

Lemma Popen_cases full_cmd run_cwd w :
  (exists e, f_popen (faults (os w)) = Some e
             /\ Popen full_cmd run_cwd w = (w, Raise e))
  \/ (f_popen (faults (os w)) = None
      /\ Popen full_cmd run_cwd w
         = (upd_os (fun o =>
              set_procs (procs o ++ [{| p_args := full_cmd; p_cwd := run_cwd;
                                        p_out := []; p_exit := None;
                                        p_terminated := false |}]) o) w,
            Ok (length (procs (os w))))).
Proof.
  unfold Popen. destruct (f_popen (faults (os w))) as [e|] eqn:Hp.
  - left. exists e. split; [done|]. by rewrite (bind_fallible_Some _ _ _ e).
  - right. split; [done|]. by rewrite bind_fallible_None.
Qed.

Ltac worker_ops :=
  unfold worker_except, take_line, rmtree, tmp_exists, exec, after, modify,
    report in *.

(** A worker step changes neither the list of threads nor the stop flag
    nor the faults; of the temporary directories it may add one and
    remove one. *)
Lemma worker_step_frame th w th' w' :
  worker_step th w = (th', w') ->
  threads w' = threads w
  /\ stop_requested (app w') = stop_requested (app w)
  /\ faults (os w') = faults (os w)
  /\ tmp_evolves (tmpdirs (os w)) (tmpdirs (os w')).
Proof.
  unfold worker_step. intros H. destruct (t_pc th) eqn:Hpc.
  - destruct (cwd_fault w);
      [simplify_eq; do 3 (split; [done|]); apply tmp_evolves_refl|].
    destruct (build_temp_config_spec w)
      as (w1 & r & E & Happ & Hth & Hf & _ & Hev & _).
    rewrite E in H. worker_ops.
    destruct r; simplify_eq; proj_simpl; by rewrite ?Happ.
  - match type of H with context [Popen ?c ?d ?w0] =>
      destruct (Popen_cases c d w0) as [(e & _ & E)|(_ & E)]; rewrite E in H
    end; worker_ops; simplify_eq; proj_simpl;
      repeat split; apply tmp_evolves_refl.
  - worker_ops. repeat case_match; simplify_eq; proj_simpl;
      repeat split; try congruence; apply tmp_evolves_refl.
  - worker_ops. repeat case_match; simplify_eq; proj_simpl;
      repeat split; try congruence; apply tmp_evolves_refl.
  - worker_ops. repeat case_match; simplify_eq; proj_simpl;
      repeat split; try congruence; apply tmp_evolves_refl.
  - worker_ops. repeat case_match; simplify_eq; proj_simpl;
      repeat split; try congruence; apply tmp_evolves_refl.
  - worker_ops. repeat case_match; simplify_eq; proj_simpl;
      repeat split; try congruence;
      first [apply tmp_evolves_refl | apply tmp_evolves_removed
            | apply tmp_evolves_emptied].
  - simplify_eq. do 3 (split; [done|]). apply tmp_evolves_refl.
Qed.

(** ** Removal of the temporary directory *)

Lemma worker_step_own_dir th w th' w' d :
  worker_step th w = (th', w') ->
  (d < length (tmpdirs (os w)))%nat ->
  f_rmtree (faults (os w)) = false ->
  holds_or_removed d th w -> holds_or_removed d th' w'.
Proof.
  unfold holds_or_removed, worker_step. intros H Hd Hrm [Hroot|[Hdone Hgone]].
  - destruct (t_pc th) eqn:Hpc; cbn [temp_root_of] in Hroot; simplify_eq.
    + match type of H with context [Popen ?c ?x ?w0] =>
        destruct (Popen_cases c x w0) as [(e & _ & E)|(_ & E)]; rewrite E in H
      end; worker_ops; simplify_eq; proj_simpl; left; rewrite ?Hpc; reflexivity.
    + worker_ops. repeat case_match; simplify_eq; proj_simpl; left; rewrite ?Hpc; reflexivity.
    + worker_ops. repeat case_match; simplify_eq; proj_simpl; left; rewrite ?Hpc; reflexivity.
    + worker_ops. repeat case_match; simplify_eq; proj_simpl; left; rewrite ?Hpc; reflexivity.
    + worker_ops. repeat case_match; simplify_eq; proj_simpl; left; rewrite ?Hpc; reflexivity.
    + worker_ops. proj_simpl. rewrite Hrm. right. split; [reflexivity|].
      destruct (tmpdirs (os w) !! d) as [[c|]|] eqn:Hlook; proj_simpl.
      * by apply list_lookup_insert_eq.
      * done.
      * apply lookup_ge_None in Hlook. lia.
  - rewrite Hdone in H. simplify_eq. by right.
Qed.

Lemma holds_or_removed_other th w w' d :
  (d < length (tmpdirs (os w)))%nat ->
  tmp_evolves (tmpdirs (os w)) (tmpdirs (os w')) ->
  holds_or_removed d th w -> holds_or_removed d th w'.
Proof.
  unfold holds_or_removed. intros Hd [_ Hev] [Hroot|[Hdone Hgone]]; [by left|].
  right. split; [done|].
  destruct (Hev d Hd) as [E|[E|[[c Hc] E]]]; congruence.
Qed.

(** One event keeps the invariant of a worker and its directory. *)
Lemma step_own_dir e w tid th d :
  threads w !! tid = Some th ->
  (d < length (tmpdirs (os w)))%nat ->
  f_rmtree (faults (os w)) = false ->
  holds_or_removed d th w ->
  exists th',
    threads (step e w) !! tid = Some th'
    /\ (d < length (tmpdirs (os (step e w))))%nat
    /\ holds_or_removed d th' (step e w).
Proof.
  intros Hth Hd Hrm Hinv. destruct (is_worker e) eqn:Hwk.
  - destruct e as [| | | | | | | | |tid'| | |]; try discriminate.
    cbn [step]. destruct (threads w !! tid') as [th0|] eqn:Hth0; [|eauto].
    destruct (worker_step th0 w) as [th0' w'] eqn:E.
    destruct (worker_step_frame _ _ _ _ E) as (Hthr & _ & _ & Hev).
    proj_simpl. rewrite Hthr.
    assert (Hd' : (d < length (tmpdirs (os w')))%nat)
      by (destruct Hev as [Hlen _]; lia).
    destruct (decide (tid' = tid)) as [->|Hne].
    + simplify_eq. exists th0'. split; [by eapply lookup_insert_thread|].
      split; [done|]. unfold holds_or_removed in *. proj_simpl.
      by eapply worker_step_own_dir.
    + exists th. rewrite list_lookup_insert_ne by done.
      split; [done|]. split; [done|].
      unfold holds_or_removed in *. proj_simpl.
      by eapply (holds_or_removed_other th w w').
  - exists th. split; [by apply step_keeps_thread|].
    unfold holds_or_removed. rewrite step_keeps_tmpdirs by done. done.
Qed.

(** C2, as the code has it: a worker that holds a temporary directory
    keeps holding it until its [finally] block, whatever happens in
    between and however the run ends; provided [rmtree] does not fail
    along the way, the directory is gone once the worker is done. *)
Theorem temp_dir_removed_when_done es : forall w tid th d,
  threads w !! tid = Some th ->
  temp_root_of (t_pc th) = Some d ->
  (d < length (tmpdirs (os w)))%nat ->
  always (fun w => f_rmtree (faults (os w)) = false) es w ->
  exists th',
    threads (run es w) !! tid = Some th'
    /\ (temp_root_of (t_pc th') = Some d
        \/ t_pc th' = W_done /\ tmpdirs (os (run es w)) !! d = Some None).
Proof.
  assert (G : forall w tid th d,
    threads w !! tid = Some th ->
    (d < length (tmpdirs (os w)))%nat ->
    always (fun w => f_rmtree (faults (os w)) = false) es w ->
    holds_or_removed d th w ->
    exists th', threads (run es w) !! tid = Some th'
                /\ holds_or_removed d th' (run es w)).
  { induction es as [|e es IH]; intros w tid th d Hth Hd Hal Hinv.
    - exists th. by split.
    - destruct Hal as [Hrm Hal].
      destruct (step_own_dir e w tid th d Hth Hd Hrm Hinv)
        as (th1 & Hth1 & Hd1 & Hinv1).
      cbn [run]. by eapply IH. }
  intros w tid th d Hth Hroot Hd Hal.
  apply (G w tid th d); try done. by left.
Qed.

Lemma temp_dir_removed_when_done_witness :
  exists th',
    threads (run finish_first_run sample_running) !! 0%nat = Some th'
    /\ (temp_root_of (t_pc th') = Some 0%nat
        \/ t_pc th' = W_done
           /\ tmpdirs (os (run finish_first_run sample_running)) !! 0%nat
              = Some None).
Proof.
  assert (H1 : threads sample_running !! 0%nat = Some first_worker)
    by (vm_compute; reflexivity).
  assert (H2 : temp_root_of (t_pc first_worker) = Some 0%nat)
    by (vm_compute; reflexivity).
  assert (H3 : (0 < length (tmpdirs (os sample_running)))%nat)
    by (vm_compute; lia).
  assert (H4 : always (fun w => f_rmtree (faults (os w)) = false)
                 finish_first_run sample_running)
    by (vm_compute; repeat split).
  exact (temp_dir_removed_when_done finish_first_run sample_running
           0%nat first_worker 0%nat H1 H2 H3 H4).
Defined.

(** C2 as stated fails: when the removal of the directory fails,
    [rmtree(..., ignore_errors=True)] returns all the same; the worker
    ends, the process handle is cleared, and the directory with the
    credentials document is still there. *)
Lemma temp_dir_left_when_rmtree_fails :
  let w := run (EvFaults rmtree_fails :: finish_first_run) sample_running in
  (t_pc <$> threads w !! 0%nat) = Some W_done
  /\ (t_outcome <$> threads w !! 0%nat) = Some (Some Succeeded)
  /\ proc (app w) = None
  /\ tmp_exists 0 w = true
  /\ tmp_exists 0 sample_running = true.
Proof. vm_compute. repeat split; reflexivity. Qed.

(** ** Cancellation *)

Lemma worker_step_cancel th w th' w' :
  worker_step th w = (th', w') ->
  stop_requested (app w) = true ->
  cancel_inv th -> cancel_inv th'.
Proof.
  unfold cancel_inv, worker_step. intros H Hstop Hinv.
  destruct (t_pc th) eqn:Hpc; cbn [awaiting_child finished] in Hinv.
  - destruct Hinv as [(?&_)|[(?&?&?&_)|(?&_)]]; done.
  - destruct Hinv as [(?&_)|[(?&?&?&_)|(?&_)]]; done.
  - destruct Hinv as [(_&Hrc&Hout)|[(?&?&?&_)|(?&_)]]; try done.
    worker_ops. repeat case_match; simplify_eq; proj_simpl.
    + left. done.
    + right; right. split; [done|]. right. done.
  - destruct Hinv as [(_&Hrc&Hout)|[(?&?&?&_)|(?&_)]]; try done.
    worker_ops. repeat case_match; simplify_eq; proj_simpl;
      try (left; rewrite ?Hpc; done).
    right; right. split; [done|]. right. done.
  - destruct Hinv as [(_&Hrc&Hout)|[(?&?&?&_)|(?&_)]]; try done.
    worker_ops. repeat case_match; simplify_eq; proj_simpl;
      try (left; rewrite ?Hpc; done).
    + right; left. eauto.
    + right; right. split; [done|]. right. done.
  - destruct Hinv as [(?&_)|[(d&rc'&E&Hrc&Hout)|(?&_)]]; try done.
    simplify_eq. rewrite Hstop in H. worker_ops. simplify_eq. proj_simpl.
    right; right. split; [done|]. left. done.
  - destruct Hinv as [(?&_)|[(?&?&?&_)|(_&Hout)]]; try done.
    worker_ops. simplify_eq. proj_simpl. right; right. done.
  - destruct Hinv as [(?&_)|[(?&?&?&_)|(_&Hout)]]; try done.
    simplify_eq. right; right. by rewrite Hpc.
Qed.

Lemma step_cancel e w tid th :
  e <> EvRun ->
  threads w !! tid = Some th ->
  stop_requested (app w) = true ->
  cancel_inv th ->
  exists th',
    threads (step e w) !! tid = Some th'
    /\ stop_requested (app (step e w)) = true
    /\ cancel_inv th'.
Proof.
  intros Hrun Hth Hstop Hinv. destruct (is_worker e) eqn:Hwk.
  - destruct e as [| | | | | | | | |tid'| | |]; try discriminate.
    cbn [step]. destruct (threads w !! tid') as [th0|] eqn:Hth0; [|eauto].
    destruct (worker_step th0 w) as [th0' w'] eqn:E.
    destruct (worker_step_frame _ _ _ _ E) as (Hthr & Hst & _).
    proj_simpl. rewrite Hthr, Hst.
    destruct (decide (tid' = tid)) as [->|Hne].
    + simplify_eq. exists th0'. split; [by eapply lookup_insert_thread|].
      split; [done|]. by eapply worker_step_cancel.
    + exists th. by rewrite list_lookup_insert_ne.
  - exists th. split; [by apply step_keeps_thread|].
    split; [by apply step_keeps_stop_flag|done].
Qed.

Lemma run_cancel es : forall w tid th,
  no_run_request es ->
  threads w !! tid = Some th ->
  stop_requested (app w) = true ->
  cancel_inv th ->
  exists th',
    threads (run es w) !! tid = Some th'
    /\ stop_requested (app (run es w)) = true
    /\ cancel_inv th'.
Proof.
  induction es as [|e es IH]; intros w tid th Hes Hth Hstop Hinv.
  - exists th. done.
  - inversion Hes as [|? ? He Hes']; subst.
    destruct (step_cancel e w tid th He Hth Hstop Hinv)
      as (th1 & Hth1 & Hstop1 & Hinv1).
    cbn [run]. by eapply IH.
Qed.

(** C3, as the code has it. First part: if the stop flag is set while a
    worker awaits its child, then along every sequence of events without
    a further run request the worker never reports success, and once it
    is past its report having seen an exit code, it has reported the
    cancellation. Second part: whatever exit code [wait] returns, zero
    included, with the stop flag set the worker's next two steps report
    "Process terminated by user." *)
Theorem stop_flag_yields_cancelled :
  (forall es w tid th,
     threads w !! tid = Some th ->
     awaiting_child (t_pc th) = true ->
     t_rc th = None -> t_outcome th = None ->
     stop_requested (app w) = true ->
     no_run_request es ->
     exists th',
       threads (run es w) !! tid = Some th'
       /\ t_outcome th' <> Some Succeeded
       /\ (forall rc, finished (t_pc th') = true -> t_rc th' = Some rc ->
           t_outcome th' = Some Cancelled))
  /\ (forall w tid th d p P rc,
        threads w !! tid = Some th -> t_pc th = W_wait d ->
        proc (app w) = Some p -> procs (os w) !! p = Some P ->
        p_exit P = Some rc ->
        stop_requested (app w) = true ->
        exists th',
          threads (run [EvWorker tid; EvWorker tid] w) !! tid = Some th'
          /\ t_rc th' = Some rc
          /\ t_outcome th' = Some Cancelled
          /\ output_queue (app (run [EvWorker tid; EvWorker tid] w))
             = output_queue (app w)
               ++ [[LF] ++ py "Process terminated by user." ++ [LF]]).
Proof.
  split.
  - intros es w tid th Hth Haw Hrc Hout Hstop Hes.
    destruct (run_cancel es w tid th Hes Hth Hstop) as (th' & Hth' & _ & Hinv).
    { left. done. }
    exists th'. split; [done|].
    destruct Hinv as [(_&Hn&Ho)|[(d&rc&Hpc&_&Ho)|(_&[Ho|[Ho Hn]])]].
    + split; [congruence|]. intros rc _ ?. congruence.
    + split; [congruence|]. intros rc' Hfin _. by rewrite Hpc in Hfin.
    + split; [congruence|done].
    + split; [congruence|]. intros rc _ ?. congruence.
  - intros w tid th d p P rc Hth Hpc Hproc HP Hexit Hstop.
    cbn [run]. rewrite (step_wait w tid th d p P rc) by assumption.
    erewrite step_report;
      [| cbn [threads set_threads]; by eapply lookup_insert_thread
       | reflexivity].
    cbn [app set_threads]. rewrite Hstop. unfold report. cbn [fst snd].
    eexists. split.
    { cbn [threads set_threads put upd_app]. rewrite list_insert_insert_eq.
      by eapply lookup_insert_thread. }
    repeat split.
Qed.

Lemma stop_flag_yields_cancelled_witness :
  (exists th',
     threads (run exit_and_report sample_cancelled) !! 0%nat = Some th'
     /\ t_outcome th' <> Some Succeeded
     /\ (forall rc, finished (t_pc th') = true -> t_rc th' = Some rc ->
         t_outcome th' = Some Cancelled))
  /\ (t_rc <$> threads (run exit_and_report sample_cancelled) !! 0%nat)
     = Some (Some 0%Z)
  /\ (t_outcome <$> threads (run exit_and_report sample_cancelled) !! 0%nat)
     = Some (Some Cancelled).
Proof.
  assert (H1 : threads sample_cancelled !! 0%nat = Some cancelled_worker)
    by (vm_compute; reflexivity).
  assert (H2 : awaiting_child (t_pc cancelled_worker) = true)
    by (vm_compute; reflexivity).
  assert (H3 : t_rc cancelled_worker = None) by (vm_compute; reflexivity).
  assert (H4 : t_outcome cancelled_worker = None) by (vm_compute; reflexivity).
  assert (H5 : stop_requested (app sample_cancelled) = true)
    by (vm_compute; reflexivity).
  assert (H6 : no_run_request exit_and_report)
    by (repeat constructor; discriminate).
  split.
  - exact (proj1 stop_flag_yields_cancelled exit_and_report sample_cancelled
             0%nat cancelled_worker H1 H2 H3 H4 H5 H6).
  - vm_compute. split; reflexivity.
Defined.

(** C3 as stated fails: the stop flag is set while the child is running
    and before the worker has seen it exit; a second run request clears
    the flag; the child then exits with code 0 and the worker of the
    first run reports success. *)
Lemma stop_flag_cleared_by_second_run :
  stop_requested (app sample_running) = false
  /\ stop_requested (app sample_cancelled) = true
  /\ (p_exit <$> procs (os sample_cancelled) !! 0%nat) = Some None
  /\ (t_pc <$> threads sample_cancelled !! 0%nat) = Some (W_read 0 0)
  /\ stop_requested (app (step EvRun sample_cancelled)) = false
  /\ (t_rc <$> threads (run (EvRun :: exit_and_report) sample_cancelled)
               !! 0%nat)
     = Some (Some 0%Z)
  /\ (t_outcome <$> threads (run (EvRun :: exit_and_report) sample_cancelled)
                    !! 0%nat)
     = Some (Some Succeeded).
Proof. vm_compute. repeat split; reflexivity. Qed.

(** ** The working-directory entry is not read *)

Lemma sans_work_dir_inv w w' :
  sans_work_dir w = sans_work_dir w' ->
  forget_app (app w) = forget_app (app w') /\ os w = os w'
  /\ forget_thread <$> threads w = forget_thread <$> threads w'.
Proof.
  unfold sans_work_dir. intros H.
  split; [exact (f_equal (fun x => fst (fst x)) H)|].
  split; [exact (f_equal (fun x => snd (fst x)) H) | exact (f_equal snd H)].
Qed.

Lemma forget_app_fields a a' :
  forget_app a = forget_app a' ->
  settings a = settings a' /\ proc a = proc a'
  /\ stop_requested a = stop_requested a'
  /\ output_queue a = output_queue a' /\ console a = console a'
  /\ status_var a = status_var a' /\ dialogs a = dialogs a'
  /\ pending a = pending a'
  /\ var_set V_work_dir [] (vars a) = var_set V_work_dir [] (vars a').
Proof.
  intros H.
  split; [exact (f_equal settings H)|].
  split; [exact (f_equal proc H)|].
  split; [exact (f_equal stop_requested H)|].
  split; [exact (f_equal output_queue H)|].
  split; [exact (f_equal console H)|].
  split; [exact (f_equal status_var H)|].
  split; [exact (f_equal dialogs H)|].
  split; [exact (f_equal pending H) | exact (f_equal vars H)].
Qed.

Lemma agree_ret {A} (a : A) : agree (ret a) (ret a).
Proof. by intros w w' E. Qed.

Lemma agree_raise {A} e : agree (@raise A e) (@raise A e).
Proof. by intros w w' E. Qed.

Lemma agree_gets {A} (g : World -> A) :
  (forall w, g w = g {| app := forget_app (app w); os := os w; threads := [] |}) ->
  agree (gets g) (gets g).
Proof.
  intros H w w' E. split; [done|].
  apply sans_work_dir_inv in E as (Ha & Ho & _).
  unfold gets. cbn [snd]. f_equal.
  transitivity (g {| app := forget_app (app w); os := os w; threads := [] |});
    [apply H|].
  rewrite Ha, Ho. symmetry. apply H.
Qed.

Lemma agree_fallible f : agree (fallible f) (fallible f).
Proof.
  intros w w' E. unfold fallible.
  pose proof (sans_work_dir_inv _ _ E) as (_ & Ho & _). rewrite Ho.
  by destruct (f (faults (os w'))).
Qed.

Lemma agree_modify_app f :
  (forall a, forget_app (f a) = forget_app (f (forget_app a))) ->
  agree (modify (upd_app f)) (modify (upd_app f)).
Proof.
  intros H w w' E. split; [|done].
  apply sans_work_dir_inv in E as (Ha & Ho & Ht).
  unfold sans_work_dir. cbn. by rewrite (H (app w)), (H (app w')), Ha, Ho, Ht.
Qed.

Lemma agree_modify_os f : agree (modify (upd_os f)) (modify (upd_os f)).
Proof.
  intros w w' E. split; [|done].
  apply sans_work_dir_inv in E as (Ha & Ho & Ht).
  unfold sans_work_dir. cbn. by rewrite Ha, Ho, Ht.
Qed.

Lemma agree_start_thread cmd_args :
  agree (start_thread cmd_args) (start_thread cmd_args).
Proof.
  intros w w' E. split; [|done].
  apply sans_work_dir_inv in E as (Ha & Ho & Ht).
  unfold sans_work_dir. cbn. by rewrite !fmap_app, Ha, Ho, Ht.
Qed.

Lemma agree_bind {A B} (m m' : M A) (k k' : A -> M B) :
  agree m m' -> (forall a, agree (k a) (k' a)) -> agree (bind m k) (bind m' k').
Proof.
  intros Hm Hk w w' E. unfold bind. destruct (Hm w w' E) as [E1 Hr].
  destruct (m w) as [w1 r1], (m' w') as [w1' r1']. cbn [fst snd] in *.
  subst r1'. destruct r1 as [a|e]; [by apply Hk|done].
Qed.

Lemma agree_try {A} (m m' : M A) (h h' : exn -> M A) :
  agree m m' -> (forall e, agree (h e) (h' e)) ->
  agree (try_except m h) (try_except m' h').
Proof.
  intros Hm Hh w w' E. unfold try_except. destruct (Hm w w' E) as [E1 Hr].
  destruct (m w) as [w1 r1], (m' w') as [w1' r1']. cbn [fst snd] in *.
  subst r1'. destruct r1 as [a|e]; [done|by apply Hh].
Qed.

Lemma agree_bind_get_vars {B} (k k' : Vars -> M B) :
  (forall v v', var_set V_work_dir [] v = var_set V_work_dir [] v' ->
                agree (k v) (k' v')) ->
  agree (bind get_vars k) (bind get_vars k').
Proof.
  intros Hk w w' E. unfold get_vars. rewrite !bind_gets.
  apply Hk; [|done].
  apply sans_work_dir_inv in E as (Ha & _).
  by apply forget_app_fields in Ha as (_&_&_&_&_&_&_&_&Hv).
Qed.

Ltac vars_simpl :=
  cbn [var_spotify_client_id var_spotify_client_secret var_spotify_username
       var_spotify_redirect var_tidal_username var_tidal_password var_action
       var_playlist_url var_subcommand_custom var_extra_flags var_work_dir
       var_set] in *.

Ltac agree_ops :=
  unfold messagebox, showerror_missing, set_var, set_status, after,
    console_clear, field_or_secret, get_secret, set_secret,
    keyring_get_password, keyring_set_password, save_settings,
    open_settings_file, json_dump,
    load_settings, read_settings_file, mkdir_app_data_dir, terminate,
    mkdtemp, write_text,
    build_cmd_args, settings_from_ui, config_content.

Ltac agree_step :=
  lazymatch goal with
  | |- agree (ret _) _ => apply agree_ret
  | |- agree (raise _) _ => apply agree_raise
  | |- agree (bind get_vars _) _ =>
      apply agree_bind_get_vars;
      let v := fresh "v" in let v' := fresh "v" in let Hv := fresh "Hv" in
      intros v v' Hv; destruct v, v'; vars_simpl;
      injection Hv; clear Hv; intros; subst; vars_simpl
  | |- agree (gets _) _ => apply agree_gets; intros ?; reflexivity
  | |- agree (fallible _) _ => apply agree_fallible
  | |- agree (start_thread _) _ => apply agree_start_thread
  | |- agree (modify (upd_app _)) _ =>
      apply agree_modify_app; intros ?; reflexivity
  | |- agree (modify (upd_os _)) _ => apply agree_modify_os
  | |- agree (bind _ _) _ => apply agree_bind; [|intros ?]
  | |- agree (try_except _ _) _ => apply agree_try; [|intros ?]
  | |- agree (if ?c then _ else _) _ => destruct c
  | |- agree _ _ => progress case_match
  end.

Ltac solve_agree :=
  repeat first [progress handler_ops | progress agree_ops | agree_step].

Lemma agree_on_save_settings : agree on_save_settings on_save_settings.
Proof. solve_agree. Qed.

Lemma agree_on_run : agree on_run on_run.
Proof. solve_agree. Qed.

Lemma agree_set_var n s : agree (set_var n s) (set_var n s).
Proof. destruct n; solve_agree. Qed.

Lemma agree_on_load_settings_clicked :
  agree on_load_settings_clicked on_load_settings_clicked.
Proof. solve_agree. Qed.

Lemma agree_on_clear_secrets : agree on_clear_secrets on_clear_secrets.
Proof. solve_agree. Qed.

Lemma agree_on_cancel : agree on_cancel on_cancel.
Proof. solve_agree. Qed.

Lemma agree_console_clear : agree console_clear console_clear.
Proof. solve_agree. Qed.

Lemma agree_run_callback cb : agree (run_callback cb) (run_callback cb).
Proof. destruct cb; solve_agree. Qed.

Lemma agree_build_temp_config : agree _build_temp_config _build_temp_config.
Proof. unfold _build_temp_config. solve_agree. Qed.

Lemma agree_exec {A} (m : M A) w w' :
  agree m m -> sans_work_dir w = sans_work_dir w' ->
  sans_work_dir (exec m w) = sans_work_dir (exec m w').
Proof. intros Hm E. by destruct (Hm w w' E). Qed.

(** The directory dialog needs [Path.cwd()] when the entry is empty. *)
Lemma agree_on_browse_workdir d w w' :
  f_cwd (faults (os w)) = None ->
  sans_work_dir w = sans_work_dir w' ->
  sans_work_dir (exec (on_browse_workdir d) w)
  = sans_work_dir (exec (on_browse_workdir d) w').
Proof.
  intros Hc E. pose proof (sans_work_dir_inv _ _ E) as (_ & Ho & _).
  assert (Hc' : f_cwd (faults (os w')) = None) by (by rewrite <- Ho).
  assert (R : forall w0,
             f_cwd (faults (os w0)) = None ->
             exec (on_browse_workdir d) w0
             = exec (if truthy d then set_var V_work_dir d else ret tt) w0).
  { intros w0 H0. unfold exec, on_browse_workdir, get_vars.
    rewrite bind_gets; cbn beta.
    destruct (truthy (var_work_dir (vars (app w0)))).
    - by rewrite bind_ret.
    - by rewrite bind_fallible_None. }
  rewrite !R by done.
  destruct (truthy d); [|done].
  apply agree_exec; [apply agree_set_var|done].
Qed.

Lemma sans_put s w w' :
  sans_work_dir w = sans_work_dir w' ->
  sans_work_dir (put s w) = sans_work_dir (put s w').
Proof.
  intros E.
  apply (agree_exec (modify (upd_app (fun a =>
           set_output_queue (output_queue a ++ [s]) a))) w w'); [|done].
  solve_agree.
Qed.

Lemma sans_upd_os f w w' :
  sans_work_dir w = sans_work_dir w' ->
  sans_work_dir (upd_os f w) = sans_work_dir (upd_os f w').
Proof. intros E. by apply (agree_exec (modify (upd_os f)) w w' (agree_modify_os f)). Qed.

Lemma sans_set_proc p w w' :
  sans_work_dir w = sans_work_dir w' ->
  sans_work_dir (upd_app (set_proc p) w) = sans_work_dir (upd_app (set_proc p) w').
Proof.
  intros E. apply (agree_exec (modify (upd_app (set_proc p))) w w'); [|done].
  solve_agree.
Qed.

Lemma agree_Popen c d : agree (Popen c d) (Popen c d).
Proof. unfold Popen. solve_agree. Qed.

Lemma sans_fields w w' :
  sans_work_dir w = sans_work_dir w' ->
  os w = os w' /\ proc (app w) = proc (app w')
  /\ stop_requested (app w) = stop_requested (app w')
  /\ pending (app w) = pending (app w').
Proof.
  intros E. apply sans_work_dir_inv in E as (Ha & Ho & _).
  apply forget_app_fields in Ha as (_&Hp&Hs&_&_&_&_&Hpe&_). done.
Qed.

Lemma stop_requested_take_line s rest w :
  stop_requested (app (take_line s rest w)) = stop_requested (app w).
Proof. reflexivity. Qed.

Lemma sans_take_line s rest w w' :
  sans_work_dir w = sans_work_dir w' ->
  sans_work_dir (take_line s rest w) = sans_work_dir (take_line s rest w').
Proof. apply sans_upd_os. Qed.

Lemma tmp_exists_agree d w w' :
  os w = os w' -> tmp_exists d w = tmp_exists d w'.
Proof. unfold tmp_exists. by intros ->. Qed.

Lemma sans_rmtree d w w' :
  sans_work_dir w = sans_work_dir w' ->
  sans_work_dir (rmtree d w) = sans_work_dir (rmtree d w').
Proof.
  intros E. destruct (sans_fields w w' E) as (Ho & _).
  unfold rmtree. rewrite Ho.
  destruct (f_rmtree (faults (os w'))); [|by apply sans_upd_os].
  destruct (f_rmtree_partial (faults (os w'))); [by apply sans_upd_os|done].
Qed.

Lemma cwd_fault_None w :
  f_cwd (faults (os w)) = None -> cwd_fault w = None.
Proof. intros H. unfold cwd_fault. rewrite H. by destruct (truthy _). Qed.

Lemma worker_step_agree th th' w w' :
  f_cwd (faults (os w)) = None ->
  forget_thread th = forget_thread th' ->
  sans_work_dir w = sans_work_dir w' ->
  forget_thread (fst (worker_step th w)) = forget_thread (fst (worker_step th' w'))
  /\ sans_work_dir (snd (worker_step th w))
     = sans_work_dir (snd (worker_step th' w')).
Proof.
  intros Hcwd Hth E. destruct (sans_fields w w' E) as (Ho & Hp & Hs & _).
  destruct th as [args wd pc rc oc], th' as [args' wd' pc' rc' oc'].
  injection Hth as -> -> -> ->.
  unfold worker_step. cbn [t_pc t_cmd_args].
  destruct pc'.
  - rewrite (cwd_fault_None w Hcwd).
    rewrite (cwd_fault_None w') by (by rewrite <- Ho).
    destruct (agree_build_temp_config w w' E) as [E1 Hr].
    destruct (_build_temp_config w) as [w1 r1],
             (_build_temp_config w') as [w1' r1'].
    cbn [fst snd] in *. subst r1'.
    destruct r1; unfold worker_except; cbn [fst snd];
      (split; [reflexivity|]); [done|by apply sans_put].
  - rewrite Ho.
    match goal with |- context [Popen ?c ?d (put ?a (put ?b w))] =>
      destruct (agree_Popen c d (put a (put b w)) (put a (put b w')))
        as [E1 Hr]; [by do 2 apply sans_put|];
      destruct (Popen c d (put a (put b w))) as [w1 r1],
               (Popen c d (put a (put b w'))) as [w1' r1']
    end.
    cbn [fst snd] in *. subst r1'.
    destruct r1; unfold worker_except; cbn [fst snd];
      (split; [reflexivity|]); [by apply sans_set_proc|by apply sans_put].
  - rewrite Hp. destruct (proc (app w')); unfold worker_except; cbn [fst snd];
      (split; [reflexivity|]); [done|by apply sans_put].
  - rewrite Ho. destruct (f_stdout (faults (os w'))).
    { unfold worker_except; cbn [fst snd]. split; [reflexivity|by apply sans_put]. }
    destruct (procs (os w') !! stream) as [P|]; [|by split].
    destruct (p_out P) as [|line rest].
    { destruct (p_exit P); by split. }
    cbn zeta. rewrite !stop_requested_take_line, Hs.
    destruct (stop_requested (app w')); cbn [fst snd];
      (split; [reflexivity|]);
      [by apply sans_take_line | by apply sans_put, sans_take_line].
  - rewrite Hp, Ho. destruct (proc (app w')) as [p|].
    + destruct (procs (os w') !! p) as [P|]; [|by split].
      destruct (p_exit P); by split.
    + unfold worker_except; cbn [fst snd].
      split; [reflexivity|by apply sans_put].
  - rewrite Hs. destruct (report (stop_requested (app w')) rc) as [o msg].
    cbn [fst snd]. split; [reflexivity|by apply sans_put].
  - cbn [fst snd]. split; [reflexivity|].
    apply (agree_exec (after Cb_ready)); [solve_agree|].
    apply sans_set_proc.
    destruct temp_root as [d|]; [|done].
    rewrite (tmp_exists_agree d w w' Ho).
    destruct (tmp_exists d w'); [|done].
    by apply sans_put, sans_rmtree.
  - by split.
Qed.

(** One event keeps two states equal up to the working-directory
    entry, when [Path.cwd()] does not fail. *)
Lemma step_agree e w w' :
  cwd_resolves w ->
  sans_work_dir w = sans_work_dir w' ->
  sans_work_dir (step e w) = sans_work_dir (step e w').
Proof.
  intros Hcwd E. destruct e; cbn [step].
  - apply agree_exec; [apply agree_set_var | done].
  - apply agree_exec; [apply agree_on_save_settings | done].
  - apply agree_exec; [apply agree_on_load_settings_clicked | done].
  - apply agree_exec; [apply agree_on_clear_secrets | done].
  - by apply agree_on_browse_workdir.
  - apply agree_exec; [apply agree_on_cancel | done].
  - apply agree_exec; [apply agree_on_run | done].
  - apply agree_exec; [apply agree_console_clear | done].
  - destruct (sans_fields w w' E) as (_ & _ & _ & Hpe). rewrite Hpe.
    destruct (pending (app w') !! i) as [cb|]; [|done].
    apply agree_exec; [apply agree_run_callback|].
    apply (agree_exec (modify (upd_app (fun a =>
             set_pending (delete i (pending a)) a))) w w'); [|done].
    solve_agree.
  - pose proof (sans_work_dir_inv _ _ E) as (_ & _ & Ht).
    assert (Hl : forget_thread <$> threads w !! tid
                 = forget_thread <$> threads w' !! tid)
      by (by rewrite <- !list_lookup_fmap, Ht).
    destruct (threads w !! tid) as [th|], (threads w' !! tid) as [th'|];
      cbn in Hl; try discriminate; [|done].
    apply (inj Some) in Hl. rename Hl into Hth.
    destruct (worker_step_agree th th' w w' Hcwd Hth E) as [H1 H2].
    destruct (worker_step th w) as [t1 w1], (worker_step th' w') as [t1' w1'].
    cbn [fst snd] in *.
    apply sans_work_dir_inv in H2 as (Ha & Ho & Hts).
    unfold sans_work_dir. cbn [app os threads set_threads].
    by rewrite !list_fmap_insert, Ha, Ho, Hts, H1.
  - by apply sans_upd_os.
  - by apply sans_upd_os.
  - by apply sans_upd_os.
Qed.

Lemma run_agree es : forall w w',
  always cwd_resolves es w ->
  sans_work_dir w = sans_work_dir w' ->
  sans_work_dir (run es w) = sans_work_dir (run es w').
Proof.
  induction es as [|e es IH]; intros w w' [Hc Hes] E; [done|].
  cbn [run]. apply IH; [exact Hes|]. by apply step_agree.
Qed.

(** The directory [_build_temp_config] returns is new and exists. *)
Lemma build_temp_config_fresh w w' d :
  _build_temp_config w = (w', Ok d) ->
  d = length (tmpdirs (os w)) /\ tmp_exists d w' = true.
Proof.
  unfold _build_temp_config, get_vars, mkdtemp, write_text.
  rewrite bind_assoc.
  destruct (f_mkdtemp (faults (os w))) as [e|] eqn:Hmk.
  { by rewrite (bind_fallible_Some _ _ _ e Hmk). }
  rewrite bind_fallible_None by exact Hmk. cbn beta.
  rewrite bind_assoc; cbn beta. rewrite bind_gets; cbn beta.
  rewrite bind_assoc; cbn beta. rewrite bind_modify; cbn beta.
  rewrite bind_ret; cbn beta. rewrite bind_gets; cbn beta.
  erewrite bind_Ok by apply field_or_secret_spec. cbn beta.
  erewrite bind_Ok by apply field_or_secret_spec. cbn beta.
  rewrite bind_assoc.
  destruct (f_write_text (faults (os w))) as [e|] eqn:Hwt.
  { by rewrite (bind_fallible_Some _ _ _ e) by (proj_simpl; exact Hwt). }
  rewrite bind_fallible_None by (proj_simpl; exact Hwt). cbn beta.
  rewrite bind_modify; cbn beta.
  unfold ret. intros [= <- <-]. split; [done|].
  unfold tmp_exists. proj_simpl.
  rewrite list_lookup_insert_eq; [done|]. rewrite length_app. cbn. lia.
Qed.

(** The step of a thread that builds its configuration. *)
Lemma step_start w tid th th' d :
  threads w !! tid = Some th -> t_pc th = W_start ->
  threads (step (EvWorker tid) w) !! tid = Some th' ->
  t_pc th' = W_spawn d ->
  d = length (tmpdirs (os w)) /\ tmp_exists d (step (EvWorker tid) w) = true.
Proof.
  intros Hth Hpc. cbn [step]. rewrite Hth. unfold worker_step. rewrite Hpc.
  destruct (cwd_fault w).
  { proj_simpl. erewrite lookup_insert_thread by exact Hth.
    intros [= <-]. proj_simpl. discriminate. }
  destruct (build_temp_config_spec w) as (w1 & r & E & _ & Ht & _).
  rewrite E. destruct r as [d1|e]; unfold worker_except; proj_simpl;
    rewrite Ht; erewrite lookup_insert_thread by exact Hth;
    intros [= <-]; proj_simpl; intros [= <-].
  by apply build_temp_config_fresh in E.
Qed.

(** X25: apart from the calls of [Path.cwd()] at lines 367 and 484,
    made when the entry is empty or blank, the working-directory entry
    has no effect on what the program does.
    First part: as long as [Path.cwd()] does not fail, two states that
    differ only in that entry (and in the [work_dir] local of their
    workers) stay so along every sequence of events, and the child
    processes they spawn are the same, working directory included.
    Second part: the child a worker spawns has the worker's temporary
    directory as its working directory. Third part: that directory is
    the one [_build_temp_config] has just made. *)
Theorem work_dir_not_used :
  (forall es w w',
     always cwd_resolves es w ->
     sans_work_dir w = sans_work_dir w' ->
     sans_work_dir (run es w) = sans_work_dir (run es w')
     /\ procs (os (run es w)) = procs (os (run es w')))
  /\ (forall w tid th d,
        threads w !! tid = Some th -> t_pc th = W_spawn d ->
        f_popen (faults (os w)) = None ->
        exists P,
          procs (os (step (EvWorker tid) w)) = procs (os w) ++ [P]
          /\ p_cwd P = TmpDir d)
  /\ (forall w tid th th' d,
        threads w !! tid = Some th -> t_pc th = W_start ->
        threads (step (EvWorker tid) w) !! tid = Some th' ->
        t_pc th' = W_spawn d ->
        d = length (tmpdirs (os w))
        /\ tmp_exists d (step (EvWorker tid) w) = true).
Proof.
  split; [|split].
  - intros es w w' Hc E. pose proof (run_agree es w w' Hc E) as H.
    split; [done|]. apply sans_work_dir_inv in H as (_ & Ho & _).
    by rewrite Ho.
  - intros w tid th d Hth Hpc Hf.
    destruct (step_spawn w tid th d Hth Hpc Hf) as (H & _).
    exists (spawned_child w th d). by split.
  - apply step_start.
Qed.

Lemma work_dir_not_used_witness :
  sans_work_dir (run first_spawn sample_ready)
  = sans_work_dir (run first_spawn sample_elsewhere)
  /\ procs (os (run first_spawn sample_ready))
     = procs (os (run first_spawn sample_elsewhere))
  /\ List.map p_cwd (procs (os (run first_spawn sample_elsewhere)))
     = [TmpDir 0]
  /\ var_work_dir (vars (app sample_ready)) = py "/home/user"
  /\ var_work_dir (vars (app sample_elsewhere)) = py "/srv/music".
Proof.
  assert (E : sans_work_dir sample_ready = sans_work_dir sample_elsewhere)
    by (vm_compute; reflexivity).
  assert (Hc : always cwd_resolves first_spawn sample_ready)
    by (vm_compute; repeat split; reflexivity).
  split; [exact (proj1 (proj1 work_dir_not_used first_spawn _ _ Hc E))|].
  split; [exact (proj2 (proj1 work_dir_not_used first_spawn _ _ Hc E))|].
  vm_compute. repeat split; reflexivity.
Defined.

(** C9: where the code departs from it. Two states that differ only in
    the working-directory entry, blank in one: when the current
    directory cannot be resolved, the worker of the blank one ends at
    line 484, before the [try], with no temporary directory, no child
    and no report, while the worker of the other spawns its child in
    its temporary directory. *)
Theorem blank_work_dir_ends_worker :
  let es := [EvFaults cwd_gone; EvRun; EvWorker 0; EvWorker 0] in
  sans_work_dir sample_ready = sans_work_dir sample_unset
  /\ var_work_dir (vars (app sample_ready)) = py "/home/user"
  /\ var_work_dir (vars (app sample_unset)) = []
  /\ List.map p_cwd (procs (os (run es sample_ready))) = [TmpDir 0]
  /\ procs (os (run es sample_unset)) = []
  /\ tmpdirs (os (run es sample_unset)) = []
  /\ List.map t_pc (threads (run es sample_unset)) = [W_done]
  /\ List.map t_outcome (threads (run es sample_unset)) = [None]
  /\ output_queue (app (run es sample_unset)) = []
  /\ pending (app (run es sample_unset)) = [Cb_drain].
Proof. vm_compute. repeat split; reflexivity. Qed.

(** * Further properties *)

(** ** Settings file and keyring *)

Lemma save_settings_spec data w :
  save_settings data w
  = match f_mkdir (faults (os w)) with
    | Some e => (w, Raise e)
    | None =>
        match f_write (faults (os w)) with
        | Some (OpenFails e) => (w, Raise e)
        | Some (DumpFails e) =>
            (upd_os (set_settings_file (Some Garbage)) w, Raise e)
        | None => (upd_os (set_settings_file (Some (JsonDoc data))) w, Ok tt)
        end
    end.
Proof.
  unfold save_settings, mkdir_app_data_dir, open_settings_file, json_dump.
  unfold_monad.
  destruct (f_mkdir (faults (os w))); [done|].
  destruct (f_write (faults (os w))) as [[e|e]|] eqn:Hwr; proj_simpl;
    rewrite ?Hwr; reflexivity.
Qed.

(** X1: what [save_settings] has written, [load_settings] reads back.
    A write that fails in [open] raises and leaves everything as it
    was. A write that fails in [json.dump] raises after [open] has
    truncated the file: what the file held is lost, and the next
    [load_settings] returns the default mapping. *)
Theorem save_then_load data w :
  f_mkdir (faults (os w)) = None ->
  f_read (faults (os w)) = None ->
  (f_write (faults (os w)) = None ->
   snd (save_settings data w) = Ok tt
   /\ load_settings (exec (save_settings data) w)
      = (exec (save_settings data) w, Ok data))
  /\ (forall e, f_write (faults (os w)) = Some (OpenFails e) ->
      save_settings data w = (w, Raise e))
  /\ (forall e, f_write (faults (os w)) = Some (DumpFails e) ->
      snd (save_settings data w) = Raise e
      /\ settings_file (os (exec (save_settings data) w)) = Some Garbage
      /\ load_settings (exec (save_settings data) w)
         = (exec (save_settings data) w, Ok default_settings)).
Proof.
  intros Hmk Hrd. unfold exec. rewrite save_settings_spec, Hmk.
  split; [|split].
  - intros Hwr. rewrite Hwr. cbn [fst snd]. split; [done|].
    rewrite load_settings_spec. proj_simpl. by rewrite Hmk, Hrd.
  - intros e Hwr. by rewrite Hwr.
  - intros e Hwr. rewrite Hwr. cbn [fst snd]. split; [done|].
    split; [done|].
    rewrite load_settings_spec. proj_simpl. by rewrite Hmk.
Qed.

Lemma save_then_load_witness :
  load_settings (exec (save_settings default_settings) sample_ready)
  = (exec (save_settings default_settings) sample_ready, Ok default_settings)
  /\ let w := run [EvSave;
                   EvFaults (write_fails (DumpFails (Exception (py "disk full"))))]
                sample_ready in
     settings_file (os w)
     = Some (JsonDoc (settings_from_ui (vars (app sample_ready))
                        (settings (app sample_ready))))
     /\ settings_file (os (exec (save_settings (settings (app w))) w))
        = Some Garbage.
Proof.
  assert (H1 : f_mkdir (faults (os sample_ready)) = None) by reflexivity.
  assert (H2 : f_read (faults (os sample_ready)) = None) by reflexivity.
  assert (H3 : f_write (faults (os sample_ready)) = None) by reflexivity.
  split;
    [exact (proj2 (proj1 (save_then_load default_settings sample_ready H1 H2)
                     H3))|].
  intros w.
  assert (H4 : f_mkdir (faults (os w)) = None) by reflexivity.
  assert (H5 : f_read (faults (os w)) = None) by reflexivity.
  assert (H6 : f_write (faults (os w))
               = Some (DumpFails (Exception (py "disk full")))) by reflexivity.
  split; [vm_compute; reflexivity|].
  exact (proj1 (proj2 (proj2 (proj2 (save_then_load (settings (app w)) w H4 H5))
                         _ H6))).
Defined.

(** X2: a secret stored with [set_secret] is what [get_secret] returns
    for that name, and the other names keep their secrets. *)
Theorem set_then_get_secret name value w :
  KEYRING_AVAILABLE (os w) = true ->
  f_keyring_set (faults (os w)) = None ->
  f_keyring_get (faults (os w)) = None ->
  snd (set_secret name value w) = Ok true
  /\ snd (get_secret name (exec (set_secret name value) w)) = Ok value
  /\ (forall other, other <> name ->
      snd (get_secret other (exec (set_secret name value) w))
      = snd (get_secret other w)).
Proof.
  intros Hav Hset Hget. unfold exec.
  rewrite (set_secret_ok name value w Hav Hset). cbn [fst snd].
  split; [done|]. split.
  - rewrite get_secret_spec. proj_simpl. rewrite Hav, Hget.
    rewrite lookup_insert_eq. unfold or_else. by destruct value.
  - intros other Hne. rewrite !get_secret_spec. proj_simpl.
    by rewrite Hav, Hget, lookup_insert_ne.
Qed.

Lemma set_then_get_secret_witness :
  snd (get_secret (py "tidal_password")
         (exec (set_secret (py "tidal_password") (py "pw")) sample_ready))
  = Ok (py "pw").
Proof.
  assert (H1 : KEYRING_AVAILABLE (os sample_ready) = true) by reflexivity.
  assert (H2 : f_keyring_set (faults (os sample_ready)) = None) by reflexivity.
  assert (H3 : f_keyring_get (faults (os sample_ready)) = None) by reflexivity.
  exact (proj1 (proj2 (set_then_get_secret (py "tidal_password") (py "pw")
                         sample_ready H1 H2 H3))).
Defined.

(** ** A run request whose Save Settings fails *)

(** X3: when the credential checks pass and Save Settings cannot
    write the settings file, the run request ends with the exception
    of [mkdir], [open] or [json.dump]. The settings mapping in memory
    is updated; the settings file is as it was when [mkdir] or [open]
    failed and is left cut short when [json.dump] failed; nothing is
    stored in the keyring, no dialog is shown and no worker is
    started. *)
Theorem failed_save_aborts_run w e :
  credentials_ok w = true ->
  save_fault w = Some e ->
  on_run w
  = (upd_os (set_settings_file (file_after_failed_save w))
       (upd_app (fun a => set_settings
                            (settings_from_ui (vars a) (settings a)) a) w),
     Raise e).
Proof.
  intros Hok Hf. rewrite on_run_valid by exact Hok.
  unfold on_save_settings, get_vars.
  rewrite bind_assoc, bind_gets; cbn beta.
  rewrite bind_assoc, bind_modify; cbn beta.
  rewrite bind_assoc, bind_gets; cbn beta.
  rewrite bind_assoc. unfold bind at 1.
  rewrite save_settings_spec. proj_simpl.
  unfold save_fault, file_after_failed_save in *.
  destruct w as [a o t]. proj_simpl.
  destruct (f_mkdir (faults o)); simplify_eq.
  - by destruct o.
  - destruct (f_write (faults o)) as [[e1|e1]|]; simplify_eq;
      [by destruct o|reflexivity].
Qed.

Lemma failed_save_aborts_run_witness :
  let w := step (EvFaults (write_fails (DumpFails (Exception (py "disk full")))))
             (step EvSave sample_ready) in
  threads (step EvRun w) = []
  /\ snd (on_run w) = Raise (Exception (py "disk full"))
  /\ settings_file (os (step EvRun w)) = Some Garbage
  /\ dialogs (app (step EvRun w)) = dialogs (app w).
Proof.
  intros w.
  assert (Hok : credentials_ok w = true) by (vm_compute; reflexivity).
  assert (Hf : save_fault w = Some (Exception (py "disk full")))
    by reflexivity.
  pose proof (f_equal snd (failed_save_aborts_run w _ Hok Hf)) as H.
  split; [vm_compute; reflexivity|].
  split; [exact H|].
  split; vm_compute; reflexivity.
Defined.

(** ** Clearing the secrets *)

(** X4: with the keyring module present, Clear Secrets never shows its
    "Could not clear secrets." warning: [set_secret] swallows every
    keyring error, so the handler blanks both entries and announces
    "Secrets cleared from keyring." even when the keyring refused the
    writes and still holds the secrets. *)
Theorem clear_secrets_reports_cleared w :
  KEYRING_AVAILABLE (os w) = true ->
  let w' := step EvClearSecrets w in
  snd (on_clear_secrets w) = Ok tt
  /\ dialogs (app w')
     = dialogs (app w)
       ++ [{| d_kind := ShowInfo; d_title := py "Cleared";
              d_message := py "Secrets cleared from keyring." |}]
  /\ var_spotify_client_secret (vars (app w')) = []
  /\ var_tidal_password (vars (app w')) = []
  /\ (is_Some (f_keyring_set (faults (os w))) -> os w' = os w).
Proof.
  intros Hav w'. subst w'. cbn [step]. unfold exec, on_clear_secrets.
  rewrite bind_gets; cbn beta. rewrite Hav. cbn [negb].
  unfold try_except.
  destruct (f_keyring_set (faults (os w))) as [e|] eqn:Hset.
  - assert (E : forall name v, set_secret name v w = (w, Ok false)).
    { intros name v. by rewrite set_secret_spec, Hav, Hset. }
    rewrite (bind_Ok _ _ _ _ _ (E _ _)); cbn beta.
    rewrite (bind_Ok _ _ _ _ _ (E _ _)); cbn beta.
    unfold set_var, messagebox. rewrite !bind_modify. unfold modify.
    proj_simpl. repeat split; reflexivity.
  - erewrite bind_Ok by (apply set_secret_ok; assumption). cbn beta.
    erewrite bind_Ok by (apply set_secret_ok; proj_simpl; assumption).
    cbn beta.
    unfold set_var, messagebox. rewrite !bind_modify. unfold modify.
    proj_simpl. repeat split; try reflexivity. by intros [? ?].
Qed.

Lemma clear_secrets_reports_cleared_witness :
  let w := step (EvFaults {| f_keyring_get := None;
                             f_keyring_set := Some (Exception (py "locked"));
                             f_mkdir := None; f_read := None; f_write := None;
                             f_mkdtemp := None; f_write_text := None;
                             f_rmtree := false; f_rmtree_partial := false; f_popen := None;
                             f_stdout := None; f_terminate := None; f_cwd := None |})
             (step EvSave sample_ready) in
  keyring_store (os (step EvClearSecrets w)) !! py "tidal_password"
  = Some (py "pw")
  /\ List.map d_title (dialogs (app (step EvClearSecrets w)))
     = [py "Saved"; py "Cleared"].
Proof.
  intros w.
  assert (Hav : KEYRING_AVAILABLE (os w) = true) by reflexivity.
  destruct (clear_secrets_reports_cleared w Hav) as (_ & Hd & _ & _ & Hos).
  rewrite Hd, Hos by (eexists; reflexivity).
  split; vm_compute; reflexivity.
Defined.

(** X5: with a working keyring, after Clear Secrets both secrets read
    back empty and both entries are blank, so the next run request
    fails its credential check and starts nothing. *)
Theorem clear_secrets_then_run_refused w :
  KEYRING_AVAILABLE (os w) = true ->
  f_keyring_set (faults (os w)) = None ->
  f_keyring_get (faults (os w)) = None ->
  let w' := step EvClearSecrets w in
  snd (get_secret (py "spotify_client_secret") w') = Ok []
  /\ snd (get_secret (py "tidal_password") w') = Ok []
  /\ credentials_ok w' = false
  /\ same_run_state w (step EvRun w')
  /\ os (step EvRun w') = os w'.
Proof.
  intros Hav Hset Hget w'.
  assert (E : w' = upd_app (fun a =>
                set_dialogs (dialogs a ++
                  [{| d_kind := ShowInfo; d_title := py "Cleared";
                      d_message := py "Secrets cleared from keyring." |}])
                  (set_vars (var_set V_tidal_password []
                     (var_set V_spotify_client_secret [] (vars a))) a))
              (upd_os (fun o => set_keyring_store
                 (<[py "tidal_password" := []]>
                    (<[py "spotify_client_secret" := []]> (keyring_store o))) o)
                 w)).
  { subst w'. cbn [step]. unfold exec, on_clear_secrets.
    rewrite bind_gets; cbn beta. rewrite Hav. cbn [negb].
    unfold try_except.
    erewrite bind_Ok by (apply set_secret_ok; assumption). cbn beta.
    erewrite bind_Ok by (apply set_secret_ok; proj_simpl; assumption).
    cbn beta.
    unfold set_var, messagebox. rewrite !bind_modify. unfold modify.
    reflexivity. }
  clearbody w'.
  assert (G1 : snd (get_secret (py "spotify_client_secret") w') = Ok []).
  { rewrite get_secret_spec, E. proj_simpl. rewrite Hav, Hget.
    rewrite lookup_insert_ne by done. by rewrite lookup_insert_eq. }
  assert (G2 : snd (get_secret (py "tidal_password") w') = Ok []).
  { rewrite get_secret_spec, E. proj_simpl. rewrite Hav, Hget.
    by rewrite lookup_insert_eq. }
  assert (Hbad : credentials_ok w' = false).
  { unfold credentials_ok, resolved_secret, value_of, field_or_secret.
    assert (Hv : var_spotify_client_secret (vars (app w')) = [])
      by (rewrite E; reflexivity).
    rewrite Hv. change (truthy (strip [])) with false. cbv iota.
    rewrite G1. cbn [default truthy]. by rewrite andb_false_r. }
  do 3 (split; [assumption|]).
  destruct (on_run_invalid w' Hbad) as [what Hrun].
  cbn [step]. unfold exec. rewrite Hrun.
  split; [|reflexivity].
  unfold same_run_state, showerror_missing, messagebox, modify.
  rewrite E. by proj_simpl.
Qed.

Lemma clear_secrets_then_run_refused_witness :
  credentials_ok sample_ready = true
  /\ credentials_ok (step EvClearSecrets sample_ready) = false
  /\ threads (step EvRun (step EvClearSecrets sample_ready)) = [].
Proof.
  assert (H1 : KEYRING_AVAILABLE (os sample_ready) = true) by reflexivity.
  assert (H2 : f_keyring_set (faults (os sample_ready)) = None) by reflexivity.
  assert (H3 : f_keyring_get (faults (os sample_ready)) = None) by reflexivity.
  destruct (clear_secrets_then_run_refused sample_ready H1 H2 H3)
    as (_ & _ & Hbad & (Hth & _) & _).
  split; [vm_compute; reflexivity|]. split; [exact Hbad|exact Hth].
Defined.

(** ** Cancelling *)

(** X6: Cancel never raises, also when [terminate] does. It sets the
    stop flag exactly when the process handle points to a child that
    has not exited, and then marks that child terminated unless
    [terminate] raised; it touches no other child, no thread, no
    temporary directory and not the handle, and the status line tells
    which of the two cases it took. *)
Theorem cancel_effect w :
  let w' := step EvCancel w in
  snd (on_cancel w) = Ok tt
  /\ stop_requested (app w') = stop_requested (app w) || proc_running w
  /\ status_var (app w')
     = (if proc_running w then py "Cancellation requested" ++ [8230]
        else py "No running process.")
  /\ (forall q, proc (app w) <> Some q ->
      procs (os w') !! q = procs (os w) !! q)
  /\ threads w' = threads w
  /\ tmpdirs (os w') = tmpdirs (os w)
  /\ proc (app w') = proc (app w)
  /\ (forall p, proc (app w) = Some p -> proc_running w = true ->
      f_terminate (faults (os w)) = None ->
      p_terminated <$> procs (os w') !! p = Some true).
Proof.
  intros w'. subst w'. cbn [step]. unfold exec, on_cancel.
  rewrite bind_gets; cbn beta.
  destruct (proc_running w) eqn:Hrun.
  - rewrite bind_modify; cbn beta. rewrite bind_gets; cbn beta.
    proj_simpl. rewrite orb_true_r.
    unfold proc_running in Hrun.
    destruct (proc (app w)) as [p|] eqn:Hp; [|done].
    destruct (procs (os w) !! p) as [P|] eqn:HP; [|done].
    assert (T : forall w1,
               try_except (terminate p) (fun _ => ret tt) w1
               = (match f_terminate (faults (os w1)) with
                  | Some _ => w1
                  | None =>
                      upd_os (fun o =>
                        set_procs (alter (fun P =>
                          {| p_args := p_args P; p_cwd := p_cwd P;
                             p_out := p_out P; p_exit := p_exit P;
                             p_terminated := true |}) p (procs o)) o) w1
                  end, Ok tt)).
    { intros w1. unfold terminate, try_except, bind, fallible, modify, ret.
      by destruct (f_terminate (faults (os w1))). }
    erewrite bind_Ok by apply T. cbn beta.
    unfold set_status, modify. proj_simpl.
    destruct (f_terminate (faults (os w))) as [e|] eqn:Hterm; proj_simpl.
    + repeat split; done.
    + repeat split; try done.
      * intros q Hq. apply list_lookup_alter_ne. congruence.
      * intros p' Hp' _ _. simplify_eq.
        rewrite list_lookup_alter_eq, HP. reflexivity.
  - unfold set_status, modify. proj_simpl. rewrite orb_false_r.
    repeat split; done.
Qed.

Lemma cancel_effect_witness :
  stop_requested (app (step EvCancel sample_running)) = true
  /\ p_terminated <$> procs (os (step EvCancel sample_running)) !! 0%nat
     = Some true
  /\ stop_requested (app (step EvCancel sample_ready)) = false.
Proof.
  destruct (cancel_effect sample_running) as (_ & Hs & _ & _ & _ & _ & _ & Ht).
  destruct (cancel_effect sample_ready) as (_ & Hs' & _).
  split; [rewrite Hs; vm_compute; reflexivity|].
  split; [apply Ht; vm_compute; reflexivity|].
  rewrite Hs'. vm_compute. reflexivity.
Defined.

(** ** Blank entries *)

Lemma lstrip_blank s :
  Forall (fun c => isspace c = true) s -> lstrip s = [].
Proof.
  induction 1 as [|c s Hc _ IH]; [done|]. cbn [lstrip]. by rewrite Hc.
Qed.

Lemma strip_blank s :
  Forall (fun c => isspace c = true) s -> strip s = [].
Proof. intros H. unfold strip. by rewrite lstrip_blank. Qed.

(** X7: a Client ID entry made of whitespace only counts as missing:
    the run request shows "Spotify Client ID is required." and does
    nothing else, whatever the other entries and the keyring hold. *)
Theorem blank_client_id_refused w :
  Forall (fun c => isspace c = true) (var_spotify_client_id (vars (app w))) ->
  step EvRun w
  = upd_app (fun a =>
      set_dialogs (dialogs a ++
        [{| d_kind := ShowError; d_title := py "Missing";
            d_message := py "Spotify Client ID is required." |}]) a) w.
Proof.
  intros Hblank. cbn [step]. unfold exec, on_run, get_vars.
  rewrite bind_gets; cbn beta. by rewrite (strip_blank _ Hblank).
Qed.

Lemma blank_client_id_refused_witness :
  let w := step (EvEdit V_spotify_client_id [32; 9; 32]) sample_ready in
  threads (step EvRun w) = []
  /\ settings_file (os (step EvRun w)) = None.
Proof.
  intros w.
  assert (H : Forall (fun c => isspace c = true)
                (var_spotify_client_id (vars (app w)))).
  { repeat constructor. }
  rewrite (blank_client_id_refused w H). split; reflexivity.
Defined.

(** ** Secrets taken from the keyring *)

(** X8: a secret kept in the keyring stands in for a blank entry. With
    both secret entries blank and both secrets stored, the credential
    checks pass as soon as the three other entries are filled in, and
    the ephemeral document [_build_temp_config] writes, in a directory
    of its own, carries the stored secrets. *)
Theorem stored_secrets_stand_in w s p :
  KEYRING_AVAILABLE (os w) = true ->
  f_keyring_get (faults (os w)) = None ->
  keyring_store (os w) !! py "spotify_client_secret" = Some s -> s <> [] ->
  keyring_store (os w) !! py "tidal_password" = Some p -> p <> [] ->
  strip (var_spotify_client_secret (vars (app w))) = [] ->
  strip (var_tidal_password (vars (app w))) = [] ->
  credentials_ok w
  = truthy (strip (var_spotify_client_id (vars (app w))))
    && truthy (strip (var_spotify_username (vars (app w))))
    && truthy (strip (var_tidal_username (vars (app w))))
  /\ (f_mkdtemp (faults (os w)) = None ->
      f_write_text (faults (os w)) = None ->
      _build_temp_config w
      = (upd_os (fun o =>
           set_tmpdirs
             (tmpdirs o
              ++ [Some (Some (join [LF] (config_content (vars (app w)) s p)))])
             o) w,
         Ok (length (tmpdirs (os w))))).
Proof.
  intros Hav Hget Hs Hs0 Hp Hp0 Hfs Hfp.
  assert (R : forall w0 field name x,
             app w0 = app w -> KEYRING_AVAILABLE (os w0) = true ->
             f_keyring_get (faults (os w0)) = None ->
             keyring_store (os w0) !! name = Some x -> x <> [] ->
             strip field = [] ->
             field_or_secret field name w0 = (w0, Ok x)).
  { intros w0 field name x _ Ha Hg Hx Hx0 Hf. unfold field_or_secret.
    rewrite Hf. cbn [truthy]. rewrite get_secret_spec, Ha, Hg, Hx.
    unfold or_else. by destruct x. }
  split.
  - unfold credentials_ok, resolved_secret, value_of.
    rewrite (R w _ _ s), (R w _ _ p) by done. cbn [snd default].
    destruct s; [done|]. destruct p; [done|]. cbn [truthy].
    by rewrite !andb_true_r.
  - intros Hmk Hwt.
    unfold _build_temp_config, get_vars, mkdtemp, write_text.
    rewrite bind_assoc, bind_fallible_None by exact Hmk. cbn beta.
    rewrite bind_assoc; cbn beta. rewrite bind_gets; cbn beta.
    rewrite bind_assoc; cbn beta. rewrite bind_modify; cbn beta.
    rewrite bind_ret; cbn beta. rewrite bind_gets; cbn beta.
    erewrite bind_Ok by (apply (R _ _ _ s); proj_simpl; done). cbn beta.
    erewrite bind_Ok by (apply (R _ _ _ p); proj_simpl; done). cbn beta.
    rewrite bind_assoc, bind_fallible_None by (proj_simpl; exact Hwt).
    cbn beta. rewrite bind_modify; cbn beta. unfold ret. proj_simpl.
    f_equal. unfold upd_os. proj_simpl. f_equal. unfold set_tmpdirs.
    proj_simpl. f_equal.
    rewrite insert_app_r_alt by lia. by rewrite Nat.sub_diag.
Qed.

Lemma stored_secrets_stand_in_witness :
  let w := run [EvSave; EvEdit V_spotify_client_secret [];
                EvEdit V_tidal_password [32]] sample_ready in
  credentials_ok w = true
  /\ snd (_build_temp_config w) = Ok 0%nat
  /\ tmpdirs (os (exec _build_temp_config w))
     = [Some (Some (join [LF] (config_content (vars (app w))
                                 (py "s3cret") (py "pw"))))].
Proof.
  intros w.
  assert (H1 : KEYRING_AVAILABLE (os w) = true) by reflexivity.
  assert (H2 : f_keyring_get (faults (os w)) = None) by reflexivity.
  assert (H3 : keyring_store (os w) !! py "spotify_client_secret"
               = Some (py "s3cret")) by (vm_compute; reflexivity).
  assert (H4 : py "s3cret" <> []) by discriminate.
  assert (H5 : keyring_store (os w) !! py "tidal_password" = Some (py "pw"))
    by (vm_compute; reflexivity).
  assert (H6 : py "pw" <> []) by discriminate.
  assert (H7 : strip (var_spotify_client_secret (vars (app w))) = [])
    by reflexivity.
  assert (H8 : strip (var_tidal_password (vars (app w))) = [])
    by reflexivity.
  destruct (stored_secrets_stand_in w _ _ H1 H2 H3 H4 H5 H6 H7 H8)
    as [Hok Hcfg].
  split; [rewrite Hok; vm_compute; reflexivity|].
  unfold exec. rewrite Hcfg by reflexivity. split; reflexivity.
Defined.

(** ** The worker from spawn to end *)

Lemma run_app es1 : forall es2 w, run (es1 ++ es2) w = run es2 (run es1 w).
Proof. induction es1 as [|e es1 IH]; intros es2 w; cbn; [done|apply IH]. Qed.

(** The read loop of lines 511-514 with the stop flag clear: one step
    per line the child has written. *)
Lemma read_loop lines : forall w tid th d s P,
  threads w !! tid = Some th -> t_pc th = W_read d s ->
  procs (os w) !! s = Some P -> p_out P = lines ->
  stop_requested (app w) = false ->
  f_stdout (faults (os w)) = None ->
  let w' := run (worker_steps tid (length lines)) w in
  threads w' = threads w
  /\ output_queue (app w') = output_queue (app w) ++ lines
  /\ procs (os w') !! s = Some (drained P)
  /\ (forall q, q <> s -> procs (os w') !! q = procs (os w) !! q)
  /\ proc (app w') = proc (app w)
  /\ stop_requested (app w') = false
  /\ pending (app w') = pending (app w)
  /\ console (app w') = console (app w)
  /\ tmpdirs (os w') = tmpdirs (os w)
  /\ faults (os w') = faults (os w).
Proof.
  induction lines as [|line rest IH]; intros w tid th d s P Hth Hpc HP Hout
    Hstop Hf w'; subst w'.
  - cbn [length worker_steps repeat run]. rewrite app_nil_r.
    repeat split; try done.
    rewrite HP. f_equal. destruct P; cbn in *. by subst.
  - cbn [length worker_steps repeat run].
    assert (E : step (EvWorker tid) w
                = set_threads (<[tid := th]> (threads w))
                    (put line (take_line s rest w))).
    { cbn [step]. rewrite Hth. unfold worker_step.
      rewrite Hpc, Hf, HP, Hout.
      rewrite stop_requested_take_line, Hstop. reflexivity. }
    rewrite E. rewrite list_insert_id by exact Hth.
    set (w1 := set_threads (threads w) (put line (take_line s rest w))).
    assert (HP1 : procs (os w1) !! s
                  = Some {| p_args := p_args P; p_cwd := p_cwd P;
                            p_out := rest; p_exit := p_exit P;
                            p_terminated := p_terminated P |}).
    { subst w1. unfold take_line. proj_simpl.
      by rewrite list_lookup_alter_eq, HP. }
    destruct (IH w1 tid th d s _ Hth Hpc HP1 eq_refl Hstop Hf)
      as (H1 & H2 & H3 & H4 & H5 & H6 & H7 & H8 & H9 & H10).
    fold (worker_steps tid (length rest)).
    rewrite H1, H2, H3, H5, H6, H7, H8, H9, H10.
    subst w1. unfold take_line. proj_simpl.
    repeat split; try done.
    + by rewrite <- app_assoc.
    + intros q Hq. rewrite H4 by done. proj_simpl.
      by apply list_lookup_alter_ne.
Qed.

(** X9: while the stop flag is clear, the worker forwards the lines its
    child has written to the output queue in the order written, each
    one once, and empties the child's buffer; it is then still reading
    from the same child. *)
Theorem output_forwarded_in_order w tid th d s P :
  threads w !! tid = Some th -> t_pc th = W_read d s ->
  procs (os w) !! s = Some P ->
  stop_requested (app w) = false ->
  f_stdout (faults (os w)) = None ->
  let w' := run (worker_steps tid (length (p_out P))) w in
  output_queue (app w') = output_queue (app w) ++ p_out P
  /\ procs (os w') !! s = Some (drained P)
  /\ threads w' !! tid = Some th.
Proof.
  intros Hth Hpc HP Hstop Hf w'.
  destruct (read_loop (p_out P) w tid th d s P Hth Hpc HP eq_refl Hstop Hf)
    as (H1 & H2 & H3 & _).
  subst w'. by rewrite H1, H2, H3.
Qed.

Lemma output_forwarded_in_order_witness :
  let w := run [EvOutput 0 (py "one"); EvOutput 0 (py "two")] sample_running in
  output_queue (app (run (worker_steps 0 2) w))
  = output_queue (app w) ++ [py "one"; py "two"].
Proof.
  intros w.
  assert (Hth : threads w !! 0%nat = Some first_worker)
    by (vm_compute; reflexivity).
  assert (Hpc : t_pc first_worker = W_read 0 0) by (vm_compute; reflexivity).
  assert (HP : procs (os w) !! 0%nat
               = Some {| p_args := [py "python3"; py "-m"; py "spotify_to_tidal";
                                    py "sync"; py "abc123"; py "--dry-run"];
                         p_cwd := TmpDir 0; p_out := [py "one"; py "two"];
                         p_exit := None; p_terminated := false |})
    by (vm_compute; reflexivity).
  assert (Hstop : stop_requested (app w) = false) by reflexivity.
  assert (Hf : f_stdout (faults (os w)) = None) by reflexivity.
  exact (proj1 (output_forwarded_in_order w 0 first_worker 0 0 _
                  Hth Hpc HP Hstop Hf)).
Defined.

(** The last four steps of a worker that has read its child's output to
    the end: end of stream, [wait], the report and [finally]. *)
Lemma worker_tail w tid th d s P rc :
  threads w !! tid = Some th -> t_pc th = W_read d s ->
  proc (app w) = Some s -> procs (os w) !! s = Some P ->
  p_out P = [] -> p_exit P = Some rc ->
  f_stdout (faults (os w)) = None ->
  f_rmtree (faults (os w)) = false ->
  tmp_exists d w = true ->
  let w' := run (worker_steps tid 4) w in
  exists th',
    threads w' !! tid = Some th'
    /\ t_pc th' = W_done
    /\ t_rc th' = Some rc
    /\ t_outcome th' = Some (fst (report (stop_requested (app w)) rc))
    /\ output_queue (app w')
       = output_queue (app w)
         ++ [snd (report (stop_requested (app w)) rc);
             py "Temporary config removed." ++ [LF]]
    /\ tmpdirs (os w') !! d = Some None
    /\ proc (app w') = None
    /\ pending (app w') = pending (app w) ++ [Cb_ready].
Proof.
  intros Hth Hpc Hproc HP Hout Hexit Hf Hrm Hex w'. subst w'.
  cbn [worker_steps repeat run].
  assert (E1 : step (EvWorker tid) w
               = set_threads (<[tid := set_pc (W_wait d) th]> (threads w)) w).
  { cbn [step]. rewrite Hth. unfold worker_step.
    by rewrite Hpc, Hf, HP, Hout, Hexit. }
  rewrite E1.
  rewrite (step_wait (set_threads (<[tid := set_pc (W_wait d) th]> (threads w)) w)
             tid (set_pc (W_wait d) th) d s P rc);
    [| cbn [threads set_threads]; by eapply lookup_insert_thread
     | reflexivity | exact Hproc | exact HP | exact Hexit ].
  cbn [threads set_threads]. rewrite list_insert_insert_eq.
  match goal with |- context [step (EvWorker tid) (step (EvWorker tid) ?w2)] =>
    rewrite (step_report w2 tid
               (set_rc rc (set_pc (W_report d rc) (set_pc (W_wait d) th))) d rc);
    [| cbn [threads set_threads]; by eapply lookup_insert_thread
     | reflexivity]
  end.
  cbn [threads set_threads app]. rewrite list_insert_insert_eq.
  destruct (report (stop_requested (app w)) rc) as [o msg]. cbn [fst snd].
  cbn [step]. proj_simpl.
  erewrite lookup_insert_thread by exact Hth.
  unfold worker_step. cbn [t_pc set_outcome set_pc set_rc].
  match goal with |- context [tmp_exists d ?w0] =>
    assert (Hex' : tmp_exists d w0 = true) by exact Hex end.
  rewrite Hex'. unfold rmtree. proj_simpl. rewrite Hrm.
  unfold exec, after, modify. proj_simpl.
  rewrite list_insert_insert_eq.
  eexists. split; [by eapply lookup_insert_thread|].
  repeat split.
  - by rewrite <- app_assoc.
  - unfold tmp_exists in Hex.
    destruct (tmpdirs (os w) !! d) as [[c|]|] eqn:Hl; try done.
    apply list_lookup_insert_eq. by eapply lookup_lt_Some.
Qed.

(** X10: a worker whose child has exited runs to its end when it is
    left to run, the process handle still points to its own child (no
    later run has replaced it), the stop flag is clear, reading the
    child's output does not raise and [rmtree] works: it forwards what
    is left of the child's output, reports exit code 0 as success and
    any other code as failure, removes its temporary directory, clears
    the process handle and schedules the "Ready." status. *)
Theorem worker_runs_to_end w tid th d s P rc :
  threads w !! tid = Some th -> t_pc th = W_read d s ->
  proc (app w) = Some s -> procs (os w) !! s = Some P ->
  p_exit P = Some rc ->
  stop_requested (app w) = false ->
  f_stdout (faults (os w)) = None ->
  f_rmtree (faults (os w)) = false ->
  tmp_exists d w = true ->
  let w' := run (worker_steps tid (length (p_out P) + 4)) w in
  exists th',
    threads w' !! tid = Some th'
    /\ t_pc th' = W_done
    /\ t_rc th' = Some rc
    /\ t_outcome th' = Some (if (rc =? 0)%Z then Succeeded else Failed)
    /\ output_queue (app w')
       = output_queue (app w) ++ p_out P
         ++ [snd (report false rc); py "Temporary config removed." ++ [LF]]
    /\ tmpdirs (os w') !! d = Some None
    /\ proc (app w') = None
    /\ pending (app w') = pending (app w) ++ [Cb_ready].
Proof.
  intros Hth Hpc Hproc HP Hexit Hstop Hf Hrm Hex w'. subst w'.
  unfold worker_steps. rewrite repeat_app, run_app.
  fold (worker_steps tid (length (p_out P))). fold (worker_steps tid 4).
  destruct (read_loop (p_out P) w tid th d s P Hth Hpc HP eq_refl Hstop Hf)
    as (H1 & H2 & H3 & _ & H5 & H6 & H7 & _ & H9 & H10).
  set (w1 := run (worker_steps tid (length (p_out P))) w) in *.
  destruct (worker_tail w1 tid th d s (drained P) rc) as (th' & T);
    try done; try congruence.
  { unfold tmp_exists in *. by rewrite H9. }
  exists th'. rewrite H6, H2, H7 in T.
  destruct T as (T1 & T2 & T3 & T4 & T5 & T6 & T7 & T8).
  repeat split; try done.
  - rewrite T4. unfold report. by destruct (rc =? 0)%Z.
  - by rewrite T5, <- app_assoc.
Qed.

Lemma worker_runs_to_end_witness :
  let w := run [EvOutput 0 (py "one"); EvExit 0 0] sample_running in
  exists th',
    threads (run (worker_steps 0 5) w) !! 0%nat = Some th'
    /\ t_outcome th' = Some Succeeded
    /\ tmpdirs (os (run (worker_steps 0 5) w)) !! 0%nat = Some None.
Proof.
  intros w.
  assert (Hth : threads w !! 0%nat = Some first_worker)
    by (vm_compute; reflexivity).
  assert (Hpc : t_pc first_worker = W_read 0 0) by (vm_compute; reflexivity).
  assert (Hproc : proc (app w) = Some 0%nat) by reflexivity.
  assert (HP : procs (os w) !! 0%nat
               = Some {| p_args := [py "python3"; py "-m"; py "spotify_to_tidal";
                                    py "sync"; py "abc123"; py "--dry-run"];
                         p_cwd := TmpDir 0; p_out := [py "one"];
                         p_exit := Some 0%Z; p_terminated := false |})
    by (vm_compute; reflexivity).
  assert (Hstop : stop_requested (app w) = false) by reflexivity.
  assert (Hf : f_stdout (faults (os w)) = None) by reflexivity.
  assert (Hrm : f_rmtree (faults (os w)) = false) by reflexivity.
  assert (Hex : tmp_exists 0 w = true) by (vm_compute; reflexivity).
  destruct (worker_runs_to_end w 0 first_worker 0 0 _ 0
              Hth Hpc Hproc HP eq_refl Hstop Hf Hrm Hex)
    as (th' & H1 & _ & _ & H4 & _ & H6 & _).
  exists th'. split; [exact H1|]. split; [exact H4|exact H6].
Defined.

(** X11: when [Popen] raises, the worker logs the error (for
    [FileNotFoundError] with the advice to install the tool), ends as
    failed without a child, and still removes the temporary directory,
    clears the process handle and schedules the "Ready." status. *)
Theorem spawn_failure_cleans_up w tid th d e :
  threads w !! tid = Some th -> t_pc th = W_spawn d ->
  f_popen (faults (os w)) = Some e ->
  f_rmtree (faults (os w)) = false ->
  tmp_exists d w = true ->
  let w' := run (worker_steps tid 2) w in
  exists th' line1 line2,
    threads w' !! tid = Some th'
    /\ t_pc th' = W_done
    /\ t_outcome th' = Some Failed
    /\ procs (os w') = procs (os w)
    /\ proc (app w') = None
    /\ tmpdirs (os w') !! d = Some None
    /\ output_queue (app w')
       = output_queue (app w)
         ++ [line1; line2; except_message e;
             py "Temporary config removed." ++ [LF]]
    /\ pending (app w') = pending (app w) ++ [Cb_ready]
    /\ (forall m, e = FileNotFoundError m ->
        contains (py "Make sure 'spotify_to_tidal' is installed")
          (except_message e)).
Proof.
  intros Hth Hpc Hpo Hrm Hex w'. subst w'.
  cbn [worker_steps repeat run].
  assert (E1 : step (EvWorker tid) w
               = set_threads
                   (<[tid := set_outcome Failed (set_pc (W_finally (Some d)) th)]>
                      (threads w))
                   (put (except_message e)
                      (put (py "> Using config: " ++ tmp_path d
                            ++ py "/config.yml" ++ [LF; LF])
                         (put (py "> Running: "
                               ++ join (py " ")
                                    ([executable (os w); py "-m";
                                      py "spotify_to_tidal"] ++ t_cmd_args th)
                               ++ [LF]) w)))).
  { cbn [step]. rewrite Hth. unfold worker_step. rewrite Hpc.
    unfold Popen.
    rewrite (bind_fallible_Some _ _ _ e) by (proj_simpl; exact Hpo).
    reflexivity. }
  rewrite E1. cbn [step]. proj_simpl.
  erewrite lookup_insert_thread by exact Hth.
  unfold worker_step. cbn [t_pc set_outcome set_pc].
  match goal with |- context [tmp_exists d ?w0] =>
    assert (Hex' : tmp_exists d w0 = true) by exact Hex end.
  rewrite Hex'. unfold rmtree. proj_simpl. rewrite Hrm.
  unfold exec, after, modify. proj_simpl.
  rewrite list_insert_insert_eq.
  eexists _, _, _. split; [by eapply lookup_insert_thread|].
  repeat split.
  - unfold tmp_exists in Hex.
    destruct (tmpdirs (os w) !! d) as [[c|]|] eqn:Hl; try done.
    apply list_lookup_insert_eq. by eapply lookup_lt_Some.
  - by rewrite <- !app_assoc.
  - intros m ->. unfold except_message.
    exists ([LF; 10007] ++ py " Error: " ++ m ++ [LF]),
           (py " and Python can run it." ++ [LF]).
    rewrite <- !app_assoc. reflexivity.
Qed.

Lemma spawn_failure_cleans_up_witness :
  let w := run [EvFaults {| f_keyring_get := None; f_keyring_set := None;
                            f_mkdir := None; f_read := None; f_write := None;
                            f_mkdtemp := None; f_write_text := None;
                            f_rmtree := false; f_rmtree_partial := false;
                            f_popen := Some (FileNotFoundError (py "python3"));
                            f_stdout := None; f_terminate := None; f_cwd := None |};
                EvRun; EvWorker 0] sample_ready in
  tmp_exists 0 w = true
  /\ procs (os (run (worker_steps 0 2) w)) = []
  /\ tmpdirs (os (run (worker_steps 0 2) w)) !! 0%nat = Some None.
Proof.
  intros w.
  assert (Hth : threads w !! 0%nat
                = Some (set_pc (W_spawn 0)
                          (set_work_dir (Path (py "/home/user"))
                             (new_thread [py "sync"; py "abc123";
                                          py "--dry-run"]))))
    by (vm_compute; reflexivity).
  assert (Hpo : f_popen (faults (os w))
                = Some (FileNotFoundError (py "python3"))) by reflexivity.
  assert (Hrm : f_rmtree (faults (os w)) = false) by reflexivity.
  assert (Hex : tmp_exists 0 w = true) by (vm_compute; reflexivity).
  destruct (spawn_failure_cleans_up w 0 _ 0 _ Hth eq_refl Hpo Hrm Hex)
    as (th' & l1 & l2 & _ & _ & _ & Hp & _ & Ht & _).
  split; [exact Hex|]. split; [rewrite Hp; vm_compute; reflexivity|exact Ht].
Defined.

(** ** A child that exits with a non-zero code *)





(** ** A temporary directory nobody removes *)

(** [_build_temp_config] leaves the directories that exist as they
    are. *)
Lemma build_temp_config_keeps w d :
  (d < length (tmpdirs (os w)))%nat ->
  tmpdirs (os (fst (_build_temp_config w))) !! d = tmpdirs (os w) !! d.
Proof.
  intros Hd. unfold _build_temp_config, get_vars, mkdtemp, write_text.
  rewrite bind_assoc.
  destruct (f_mkdtemp (faults (os w))) as [e|] eqn:Hmk.
  { by rewrite (bind_fallible_Some _ _ _ e Hmk). }
  rewrite bind_fallible_None by exact Hmk. cbn beta.
  rewrite bind_assoc; cbn beta. rewrite bind_gets; cbn beta.
  rewrite bind_assoc; cbn beta. rewrite bind_modify; cbn beta.
  rewrite bind_ret; cbn beta. rewrite bind_gets; cbn beta.
  erewrite bind_Ok by apply field_or_secret_spec. cbn beta.
  erewrite bind_Ok by apply field_or_secret_spec. cbn beta.
  rewrite bind_assoc.
  destruct (f_write_text (faults (os w))) as [e|] eqn:Hwt.
  { rewrite (bind_fallible_Some _ _ _ e) by (proj_simpl; exact Hwt).
    proj_simpl. by apply lookup_app_l. }
  rewrite bind_fallible_None by (proj_simpl; exact Hwt). cbn beta.
  rewrite bind_modify; cbn beta. unfold ret. proj_simpl.
  rewrite list_lookup_insert_ne by lia. by apply lookup_app_l.
Qed.

(** When [write_text] raises, the directory [mkdtemp] has just made
    stays behind, empty. *)
Lemma build_temp_config_write_fails w e :
  f_mkdtemp (faults (os w)) = None ->
  f_write_text (faults (os w)) = Some e ->
  _build_temp_config w
  = (upd_os (fun o => set_tmpdirs (tmpdirs o ++ [Some None]) o) w, Raise e).
Proof.
  intros Hmk Hwt. unfold _build_temp_config, get_vars, mkdtemp, write_text.
  rewrite bind_assoc, bind_fallible_None by exact Hmk. cbn beta.
  rewrite bind_assoc; cbn beta. rewrite bind_gets; cbn beta.
  rewrite bind_assoc; cbn beta. rewrite bind_modify; cbn beta.
  rewrite bind_ret; cbn beta. rewrite bind_gets; cbn beta.
  erewrite bind_Ok by apply field_or_secret_spec. cbn beta.
  erewrite bind_Ok by apply field_or_secret_spec. cbn beta.
  rewrite bind_assoc.
  by rewrite (bind_fallible_Some _ _ _ e) by (proj_simpl; exact Hwt).
Qed.

Ltac orphan_done :=
  first
    [ by (exfalso; congruence)
    | split;
      [ done
      | repeat match goal with H : t_pc _ = _ |- _ => rewrite H end;
        cbn [temp_root_of]; done ] ].

Lemma worker_step_orphaned th w th' w' d :
  worker_step th w = (th', w') ->
  temp_root_of (t_pc th) <> Some d ->
  tmp_exists d w = true ->
  tmp_exists d w' = true /\ temp_root_of (t_pc th') <> Some d.
Proof.
  unfold worker_step. intros H Hroot Hex.
  assert (Hd : (d < length (tmpdirs (os w)))%nat).
  { unfold tmp_exists in Hex.
    destruct (tmpdirs (os w) !! d) eqn:Hl; [|done]. by eapply lookup_lt_Some. }
  destruct (t_pc th) eqn:Hpc; cbn [temp_root_of] in Hroot.
  - destruct (cwd_fault w); [by simplify_eq|].
    pose proof (build_temp_config_keeps w d Hd) as Hk.
    destruct (build_temp_config_spec w)
      as (w1 & r & E & _ & _ & _ & _ & _ & Hfresh).
    rewrite E in H, Hk. cbn [fst] in Hk. worker_ops.
    destruct r as [d1|e]; simplify_eq; proj_simpl;
      (split; [by rewrite Hk|]); cbn [temp_root_of]; [|done].
    destruct (Hfresh d1 eq_refl) as [Hd1 _]. intros [= ->]. lia.
  - match type of H with context [Popen ?c ?x ?w0] =>
      destruct (Popen_cases c x w0) as [(e & _ & E)|(_ & E)]; rewrite E in H
    end; worker_ops; simplify_eq; proj_simpl; orphan_done.
  - worker_ops. repeat case_match; simplify_eq; proj_simpl; orphan_done.
  - worker_ops. repeat case_match; simplify_eq; proj_simpl; orphan_done.
  - worker_ops. repeat case_match; simplify_eq; proj_simpl; orphan_done.
  - worker_ops. repeat case_match; simplify_eq; proj_simpl; orphan_done.
  - worker_ops. repeat case_match; simplify_eq; proj_simpl;
      try orphan_done; exfalso;
      match goal with
      | H : <[_:=_]> _ !! _ = _ |- _ =>
          rewrite list_lookup_insert_ne in H by congruence
      | H : alter _ _ _ !! _ = _ |- _ =>
          rewrite list_lookup_alter_ne in H by congruence
      end; congruence.
  - simplify_eq. by rewrite Hpc.
Qed.

(** The events that are not worker steps start threads at [W_start] and
    leave the others as they are. *)
Lemma step_keeps_threads_Forall (Q : Thread -> Prop) e w :
  is_worker e = false ->
  (forall c, Q (new_thread c)) ->
  Forall Q (threads w) -> Forall Q (threads (step e w)).
Proof.
  intros Hwk Hnew HQ.
  assert (K : forall A (m : M A) w,
             keeps (fun w => Forall Q (threads w)) m ->
             Forall Q (threads w) -> Forall Q (threads (exec m w)))
    by (intros ? ? ? Hm ?; by apply Hm).
  assert (S : forall c, keeps (fun w => Forall Q (threads w))
                          (modify (fun w => set_threads
                                     (threads w ++ [new_thread c]) w))).
  { intros c. apply keeps_modify. intros w0 H0. proj_simpl.
    apply Forall_app. split; [done|]. by constructor. }
  destruct e; try done; cbn [step];
    try (apply (K _ _ w); [solve_keeps; apply S | assumption]).
  destruct (pending (app w) !! i) as [[]|]; [| |assumption];
    apply K; solve_keeps; assumption.
Qed.

Lemma step_orphaned e w d : orphaned d w -> orphaned d (step e w).
Proof.
  intros [Hex Hth]. destruct (is_worker e) eqn:Hwk.
  - destruct e as [| | | | | | | | |tid| | |]; try discriminate.
    cbn [step]. destruct (threads w !! tid) as [th|] eqn:Hl; [|done].
    destruct (worker_step th w) as [th' w'] eqn:E.
    destruct (worker_step_frame _ _ _ _ E) as (Hthr & _).
    assert (Hroot : temp_root_of (t_pc th) <> Some d).
    { rewrite Forall_lookup in Hth. by eapply Hth. }
    destruct (worker_step_orphaned _ _ _ _ d E Hroot Hex) as [Hex' Hroot'].
    split; [exact Hex'|]. proj_simpl. rewrite Hthr.
    by apply Forall_insert.
  - split.
    + unfold tmp_exists. by rewrite step_keeps_tmpdirs.
    + by apply step_keeps_threads_Forall.
Qed.

Lemma run_orphaned es : forall w d, orphaned d w -> orphaned d (run es w).
Proof.
  induction es as [|e es IH]; intros w d H; cbn [run]; [done|].
  by apply IH, step_orphaned.
Qed.

(** X12: when the worker gets past its first line (the working
    directory entry is filled in, or [Path.cwd()] answers), [mkdtemp]
    works and [write_text] raises inside [_build_temp_config], the
    worker ends as failed without a [temp_root], and the directory
    [mkdtemp] had made for it is never removed: it exists after the
    step and after every further sequence of events. *)
Theorem temp_dir_leaks_when_write_fails w tid th e es :
  threads w !! tid = Some th -> t_pc th = W_start ->
  cwd_fault w = None ->
  f_mkdtemp (faults (os w)) = None ->
  f_write_text (faults (os w)) = Some e ->
  roots_bounded w ->
  (exists th',
     threads (step (EvWorker tid) w) !! tid = Some th'
     /\ t_pc th' = W_finally None /\ t_outcome th' = Some Failed)
  /\ tmpdirs (os (step (EvWorker tid) w)) = tmpdirs (os w) ++ [Some None]
  /\ tmp_exists (length (tmpdirs (os w))) (run (EvWorker tid :: es) w) = true.
Proof.
  intros Hth Hpc Hcwd Hmk Hwt Hb.
  assert (E : step (EvWorker tid) w
              = set_threads
                  (<[tid := set_outcome Failed
                              (set_pc (W_finally None)
                                 (set_work_dir
                                    (Path (or_else
                                       (strip (var_work_dir (vars (app w))))
                                       (cwd (os w)))) th))]> (threads w))
                  (put (except_message e)
                     (upd_os (fun o => set_tmpdirs (tmpdirs o ++ [Some None]) o)
                        w))).
  { cbn [step]. rewrite Hth. unfold worker_step. rewrite Hpc, Hcwd.
    by rewrite (build_temp_config_write_fails w e Hmk Hwt). }
  split; [|split].
  - rewrite E. eexists. split; [by eapply lookup_insert_thread|done].
  - by rewrite E.
  - cbn [run]. apply run_orphaned. rewrite E. split.
    + unfold tmp_exists. proj_simpl.
      by rewrite lookup_app_r, Nat.sub_diag by lia.
    + proj_simpl. apply Forall_insert; [|done].
      unfold roots_bounded in Hb. eapply Forall_impl; [exact Hb|].
      intros th0 H0 Heq. specialize (H0 _ Heq). lia.
Qed.

Lemma temp_dir_leaks_when_write_fails_witness :
  let w := run [EvFaults (write_text_fails (Exception (py "disk full")));
                EvRun] sample_ready in
  tmp_exists 0 (run ([EvWorker 0; EvWorker 0; EvTimer 1]) w) = true
  /\ exists th',
       threads (step (EvWorker 0) w) !! 0%nat = Some th'
       /\ t_pc th' = W_finally None /\ t_outcome th' = Some Failed.
Proof.
  intros w.
  assert (Hth : threads w !! 0%nat
                = Some (new_thread [py "sync"; py "abc123"; py "--dry-run"]))
    by (vm_compute; reflexivity).
  assert (Hcwd : cwd_fault w = None) by (vm_compute; reflexivity).
  assert (Hmk : f_mkdtemp (faults (os w)) = None) by reflexivity.
  assert (Hwt : f_write_text (faults (os w)) = Some (Exception (py "disk full")))
    by reflexivity.
  assert (Hb : roots_bounded w).
  { unfold roots_bounded.
    replace (threads w) with [new_thread [py "sync"; py "abc123"; py "--dry-run"]]
      by (vm_compute; reflexivity).
    repeat constructor. intros d [=]. }
  destruct (temp_dir_leaks_when_write_fails w 0 _ _ [EvWorker 0; EvTimer 1]
              Hth eq_refl Hcwd Hmk Hwt Hb) as (H1 & _ & H3).
  split; [exact H3|exact H1].
Defined.

(** ** Quoting in the extra-flags entry *)

Lemma quote_not_blank q :
  Shlex.is_quote q = true ->
  Shlex.is_whitespace q = false /\ Shlex.is_escape q = false.
Proof.
  unfold Shlex.is_quote, Shlex.is_whitespace, Shlex.is_escape. intros Hq.
  apply orb_true_iff in Hq as [H|H]; apply N.eqb_eq in H; by subst.
Qed.

(** Inside quotes every character but the closing quote is taken as it
    is; inside double quotes the backslash is left out of [body], since
    there it escapes. *)
Lemma lex_quote_body body : forall q esc quoted token rest,
  Forall (quotable q) body ->
  Shlex.lex (Shlex.St_quote q) esc quoted token (body ++ q :: rest)
  = Shlex.lex Shlex.St_word esc true (token ++ body) rest.
Proof.
  induction body as [|c body IH]; intros q esc quoted token rest Hb.
  - rewrite app_nil_l, app_nil_r. cbn [Shlex.lex]. by rewrite N.eqb_refl.
  - inversion Hb as [|? ? [Hc He] Hb']; subst.
    rewrite <- app_comm_cons. cbn [Shlex.lex].
    apply N.eqb_neq in Hc. rewrite Hc, He.
    rewrite IH by assumption. by rewrite <- app_assoc.
Qed.

(** X13: an extra-flags entry that is one quoted string gives exactly
    one argument, the text between the quotes with its whitespace kept,
    also when that text is empty; between single quotes a backslash is
    an ordinary character. *)
Theorem quoted_flags_one_token q body :
  Shlex.is_quote q = true ->
  Forall (quotable q) body ->
  _split_flags ([q] ++ body ++ [q]) = [body].
Proof.
  intros Hq Hb. unfold _split_flags, Shlex.split.
  change ([q] ++ body ++ [q]) with (q :: body ++ [q]).
  cbn [truthy negb Shlex.lex].
  destruct (quote_not_blank q Hq) as [Hws Hesc].
  rewrite Hws, Hesc, Hq. rewrite lex_quote_body by assumption.
  cbn [Shlex.lex app]. unfold Shlex.emit. by rewrite orb_true_r.
Qed.

Lemma quoted_flags_one_token_witness :
  _split_flags ([39] ++ py "My Mix \ 2024" ++ [39]) = [py "My Mix \ 2024"]
  /\ _split_flags ([34] ++ [] ++ [34]) = [[]].
Proof.
  assert (H1 : Shlex.is_quote 39 = true) by reflexivity.
  assert (H2 : Forall (quotable 39) (py "My Mix \ 2024")).
  { repeat constructor; try discriminate. }
  assert (H3 : Shlex.is_quote 34 = true) by reflexivity.
  assert (H4 : Forall (quotable 34) []) by constructor.
  split; [exact (quoted_flags_one_token 39 _ H1 H2)
         |exact (quoted_flags_one_token 34 _ H3 H4)].
Defined.

(** A quote that is never closed: the lexer raises. *)
Lemma lex_unclosed body : forall q esc quoted token,
  Forall (quotable q) body ->
  Shlex.lex (Shlex.St_quote q) esc quoted token body = None.
Proof.
  induction body as [|c body IH]; intros q esc quoted token Hb; [done|].
  inversion Hb as [|? ? [Hc He] Hb']; subst. cbn [Shlex.lex].
  apply N.eqb_neq in Hc. rewrite Hc, He. by apply IH.
Qed.

(** Outside quotes, text without quote and escape characters leads the
    lexer to its whitespace or word state again, whatever it has
    emitted; if what follows makes it raise from both, it raises. *)
Lemma lex_unquoted_prefix pre : forall st esc quoted token rest,
  st = Shlex.St_ws \/ st = Shlex.St_word ->
  Forall unquoted pre ->
  (forall esc' quoted' token',
     Shlex.lex Shlex.St_ws esc' quoted' token' rest = None
     /\ Shlex.lex Shlex.St_word esc' quoted' token' rest = None) ->
  Shlex.lex st esc quoted token (pre ++ rest) = None.
Proof.
  induction pre as [|c pre IH]; intros st esc quoted token rest Hst Hp Hrest.
  - rewrite app_nil_l. destruct Hst as [-> | ->]; apply Hrest.
  - inversion Hp as [|? ? [Hq He] Hp']; subst.
    rewrite <- app_comm_cons.
    destruct Hst as [-> | ->]; cbn [Shlex.lex]; rewrite Hq, He;
      destruct (Shlex.is_whitespace c);
      try destruct (truthy token || quoted);
      rewrite ?IH by auto; reflexivity.
Qed.

(** X14: when the extra-flags entry opens a quote that it never closes,
    [shlex.split] raises and [_split_flags] falls back to splitting at
    whitespace, so the quote character stays in its token. *)
Theorem unclosed_quote_falls_back pre q body :
  Forall unquoted pre ->
  Shlex.is_quote q = true ->
  Forall (quotable q) body ->
  Shlex.split (pre ++ [q] ++ body) = None
  /\ _split_flags (pre ++ [q] ++ body) = split_ws (pre ++ [q] ++ body).
Proof.
  intros Hp Hq Hb.
  destruct (quote_not_blank q Hq) as [Hws Hesc].
  assert (Hnone : Shlex.split (pre ++ [q] ++ body) = None).
  { unfold Shlex.split. apply lex_unquoted_prefix; [by left|done|].
    intros esc' quoted' token'.
    change ([q] ++ body) with (q :: body). cbn [Shlex.lex].
    rewrite Hws, Hesc, Hq. split; by apply lex_unclosed. }
  split; [exact Hnone|]. unfold _split_flags. rewrite Hnone.
  by destruct pre.
Qed.

Lemma unclosed_quote_falls_back_witness :
  _split_flags (py "--name " ++ [39] ++ py "a b")
  = [py "--name"; [39] ++ py "a"; py "b"].
Proof.
  assert (H1 : Forall unquoted (py "--name ")).
  { repeat constructor. }
  assert (H2 : Shlex.is_quote 39 = true) by reflexivity.
  assert (H3 : Forall (quotable 39) (py "a b")).
  { repeat constructor; try discriminate. }
  rewrite (proj2 (unclosed_quote_falls_back _ 39 _ H1 H2 H3)).
  reflexivity.
Defined.

(** Text without quote and escape characters is cut at the lexer's
    whitespace and nowhere else. *)
Lemma lex_unquoted s : forall st esc token,
  (st = Shlex.St_ws /\ token = [])
  \/ (st = Shlex.St_word /\ token <> []
      /\ Forall (fun c => is_special c = false) token) ->
  Forall unquoted s ->
  exists toks,
    Shlex.lex st esc false token s = Some toks
    /\ Forall plain_token toks
    /\ concat toks
       = token ++ List.filter (fun c => negb (Shlex.is_whitespace c)) s.
Proof.
  induction s as [|c s IH]; intros st esc token Hst Hs.
  - destruct Hst as [[-> ->] | (-> & Hne & Hpl)]; cbn [Shlex.lex List.filter].
    + exists []. by repeat split.
    + exists [token]. unfold Shlex.emit. destruct token as [|t0 token]; [done|].
      cbn [truthy orb]. split; [reflexivity|].
      split; [constructor; [by split|constructor]|].
      cbn [concat]. by rewrite !app_nil_r.
  - inversion Hs as [|? ? [Hq He] Hs']; subst. cbn [List.filter].
    destruct (Shlex.is_whitespace c) eqn:Hws; cbn [negb].
    + destruct Hst as [[-> ->] | (-> & Hne & Hpl)]; cbn [Shlex.lex];
        rewrite Hws.
      * cbn [truthy orb]. apply IH; [by left|done].
      * destruct token as [|t0 token]; [done|]. cbn [truthy orb].
        destruct (IH Shlex.St_ws Shlex.St_ws []) as (toks & E & Hall & Hcat);
          [by left|done|].
        rewrite E. exists ((t0 :: token) :: toks). unfold Shlex.emit.
        cbn [truthy orb fmap option_fmap option_map concat].
        repeat split; [by constructor|]. by rewrite Hcat.
    + assert (Hc : is_special c = false).
      { unfold is_special. by rewrite Hws, Hq, He. }
      destruct Hst as [[-> ->] | (-> & Hne & Hpl)]; cbn [Shlex.lex];
        rewrite Hws, Hq, He.
      * destruct (IH Shlex.St_word esc [c]) as (toks & E & Hall & Hcat);
          [right; repeat split; [done|by repeat constructor]|done|].
        exists toks. by repeat split.
      * destruct (IH Shlex.St_word esc (token ++ [c]))
          as (toks & E & Hall & Hcat).
        { right. repeat split; [by destruct token|].
          apply Forall_app. split; [done|by repeat constructor]. }
        { done. }
        exists toks. repeat split; [done|done|].
        by rewrite Hcat, <- app_assoc.
Qed.

(** X15: an extra-flags entry without quote and escape characters
    never makes [shlex.split] raise; its arguments are the maximal runs
    of characters between blanks, tabs and line ends: none is empty,
    none holds such whitespace, and together they are the entry with
    that whitespace taken out. *)
Theorem unquoted_flags_cut_at_whitespace s :
  Forall unquoted s ->
  Shlex.split s = Some (_split_flags s)
  /\ Forall plain_token (_split_flags s)
  /\ concat (_split_flags s)
     = List.filter (fun c => negb (Shlex.is_whitespace c)) s.
Proof.
  intros Hs.
  destruct (lex_unquoted s Shlex.St_ws Shlex.St_ws [])
    as (toks & E & Hall & Hcat); [by left|done|].
  unfold _split_flags. fold (Shlex.split s) in E. rewrite E.
  destruct s as [|c s]; cbn [truthy negb].
  - cbn in E. injection E as <-. by repeat split.
  - by repeat split.
Qed.

Lemma unquoted_flags_cut_at_whitespace_witness :
  Shlex.split (py "  --dry-run" ++ [9] ++ py "-v  ")
  = Some [py "--dry-run"; py "-v"]
  /\ concat (_split_flags (py "  --dry-run" ++ [9] ++ py "-v  "))
     = py "--dry-run-v".
Proof.
  assert (H : Forall unquoted (py "  --dry-run" ++ [9] ++ py "-v  ")).
  { repeat constructor. }
  destruct (unquoted_flags_cut_at_whitespace _ H) as (H1 & _ & H3).
  split; [rewrite H1; reflexivity|rewrite H3; reflexivity].
Defined.

(** ** The end of output polling *)

(** A worker step leaves the log view as it is and schedules nothing
    but the "Ready." status. *)
Lemma worker_step_log th w th' w' :
  worker_step th w = (th', w') ->
  console (app w') = console (app w)
  /\ (pending (app w') = pending (app w)
      \/ pending (app w') = pending (app w) ++ [Cb_ready]).
Proof.
  unfold worker_step. intros H. destruct (t_pc th) eqn:Hpc.
  - destruct (cwd_fault w); [simplify_eq; split; auto|].
    destruct (build_temp_config_spec w) as (w1 & r & E & Happ & _).
    rewrite E in H. worker_ops.
    destruct r; simplify_eq; proj_simpl; rewrite ?Happ; split; auto.
  - match type of H with context [Popen ?c ?d ?w0] =>
      destruct (Popen_cases c d w0) as [(e & _ & E)|(_ & E)]; rewrite E in H
    end; worker_ops; simplify_eq; proj_simpl; split; auto.
  - worker_ops. repeat case_match; simplify_eq; proj_simpl; split; auto.
  - worker_ops. repeat case_match; simplify_eq; proj_simpl; split; auto.
  - worker_ops. repeat case_match; simplify_eq; proj_simpl; split; auto.
  - worker_ops. repeat case_match; simplify_eq; proj_simpl; split; auto.
  - worker_ops. repeat case_match; simplify_eq; proj_simpl; split; auto.
  - simplify_eq. split; auto.
Qed.

Lemma step_polling_stopped e w C :
  keeps_log e -> polling_stopped C w -> polling_stopped C (step e w).
Proof.
  intros [Hrun Hclr] H. destruct (is_worker e) eqn:Hwk.
  - destruct e as [| | | | | | | | |tid| | |]; try discriminate.
    cbn [step]. destruct (threads w !! tid) as [th|] eqn:Hl; [|done].
    destruct (worker_step th w) as [th' w'] eqn:E.
    destruct (worker_step_log _ _ _ _ E) as [Hc Hp].
    destruct H as [Hn Hcon]. unfold polling_stopped. proj_simpl.
    split; [|congruence].
    destruct Hp as [-> | ->]; [done|].
    rewrite elem_of_app, list_elem_of_singleton. intros [?|?]; done.
  - assert (K : forall A (m : M A) w,
               keeps (polling_stopped C) m ->
               polling_stopped C w -> polling_stopped C (exec m w))
      by (intros ? ? ? Hm ?; by apply Hm).
    destruct e; try done; cbn [step];
      try (apply (K _ _ w); [solve_keeps | assumption]).
    destruct (pending (app w) !! i) as [cb|] eqn:Hl; [|done].
    destruct H as [Hn Hcon]. destruct cb.
    + destruct Hn. by eapply list_elem_of_lookup_2.
    + cbn [run_callback]. unfold exec, set_status, modify, polling_stopped.
      proj_simpl. split; [|done].
      intros Hin. apply Hn. eapply elem_of_sublist; [exact Hin|].
      apply sublist_delete.
Qed.

Lemma run_polling_stopped es : forall w C,
  Forall keeps_log es -> polling_stopped C w -> polling_stopped C (run es w).
Proof.
  induction es as [|e es IH]; intros w C Hes H; cbn [run]; [done|].
  inversion Hes; subst. by apply IH, step_polling_stopped.
Qed.

(** X16: a poll of the output queue that finds no running child, while
    no other poll is pending (two run requests leave two), is the last
    one. It moves what is queued to the log view and schedules no
    further poll; from then on, until the next run request or Clear
    Logs, the log view stays as that poll left it, so whatever a worker
    queues afterwards is not shown. *)
Theorem console_frozen_after_last_poll es w i :
  pending (app w) !! i = Some Cb_drain ->
  Cb_drain ∉ delete i (pending (app w)) ->
  proc_running w = false ->
  Forall keeps_log es ->
  console (app (run (EvTimer i :: es) w))
  = console (app w) ++ output_queue (app w)
  /\ Cb_drain ∉ pending (app (run (EvTimer i :: es) w)).
Proof.
  intros Hl Hn Hrun Hes. cbn [run].
  assert (H : polling_stopped (console (app w) ++ output_queue (app w))
                (step (EvTimer i) w)).
  { cbn [step]. rewrite Hl. cbn [run_callback].
    unfold exec, _drain_output_queue.
    rewrite bind_modify; cbn beta. rewrite bind_gets; cbn beta.
    match goal with |- context [proc_running ?w0] =>
      assert (E : proc_running w0 = false) by exact Hrun end.
    rewrite E. rewrite bind_gets; cbn beta. proj_simpl.
    unfold ret, polling_stopped. by proj_simpl. }
  destruct (run_polling_stopped es _ _ Hes H) as [H1 H2]. by split.
Qed.

Lemma console_frozen_after_last_poll_witness :
  let w := run [EvExit 0 0] sample_running in
  let es := worker_steps 0 4 ++ [EvTimer 0] in
  console (app (run (EvTimer 0 :: es) w))
  = console (app w) ++ output_queue (app w)
  /\ length (output_queue (app (run (EvTimer 0 :: es) w))) = 2%nat.
Proof.
  intros w es.
  assert (Hl : pending (app w) !! 0%nat = Some Cb_drain) by reflexivity.
  assert (Hn : Cb_drain ∉ delete 0%nat (pending (app w))).
  { replace (pending (app w)) with [Cb_drain] by reflexivity.
    cbn. apply not_elem_of_nil. }
  assert (Hrun : proc_running w = false) by (vm_compute; reflexivity).
  assert (Hes : Forall keeps_log es).
  { repeat (constructor; [split; discriminate|]). constructor. }
  split; [exact (proj1 (console_frozen_after_last_poll es w 0 Hl Hn Hrun Hes))|].
  vm_compute. reflexivity.
Defined.

(** ** What survives a restart *)

Lemma settings_from_ui_lookup v s :
  settings_from_ui v s !! py "spotify_client_id"
  = Some (strip (var_spotify_client_id v))
  /\ settings_from_ui v s !! py "spotify_username"
     = Some (strip (var_spotify_username v))
  /\ settings_from_ui v s !! py "spotify_redirect_uri"
     = Some (or_else (strip (var_spotify_redirect v)) DEFAULT_REDIRECT_URI)
  /\ settings_from_ui v s !! py "tidal_username"
     = Some (strip (var_tidal_username v))
  /\ settings_from_ui v s !! py "last_playlist_url"
     = Some (strip (var_playlist_url v))
  /\ (forall k,
        k <> py "spotify_client_id" -> k <> py "spotify_username" ->
        k <> py "spotify_redirect_uri" -> k <> py "tidal_username" ->
        k <> py "last_playlist_url" ->
        settings_from_ui v s !! k = s !! k).
Proof.
  unfold settings_from_ui.
  repeat split;
    repeat first
      [ rewrite lookup_insert_eq
      | rewrite lookup_insert_ne by (intros E; vm_compute in E; discriminate) ];
    try reflexivity.
  intros k H1 H2 H3 H4 H5. by rewrite !lookup_insert_ne.
Qed.

(** The form as [App.__init__] fills it in on a machine with the
    keyring module. *)
Lemma boot_vars o :
  KEYRING_AVAILABLE o = true ->
  settings (app (boot o)) = stored_settings o
  /\ vars (app (boot o))
     = {| var_spotify_client_id :=
            default [] (stored_settings o !! py "spotify_client_id");
          var_spotify_client_secret :=
            or_else (stored_secret (py "spotify_client_secret") o) [];
          var_spotify_username :=
            default [] (stored_settings o !! py "spotify_username");
          var_spotify_redirect :=
            default DEFAULT_REDIRECT_URI
              (stored_settings o !! py "spotify_redirect_uri");
          var_tidal_username :=
            default [] (stored_settings o !! py "tidal_username");
          var_tidal_password :=
            or_else (stored_secret (py "tidal_password") o) [];
          var_action := py "sync_playlist_url";
          var_playlist_url :=
            default [] (stored_settings o !! py "last_playlist_url");
          var_subcommand_custom :=
            default (py "sync") (stored_settings o !! py "default_subcommand");
          var_extra_flags := [];
          var_work_dir := cwd o |}.
Proof.
  intros Hav. unfold boot, App__init__, exec, _load_ui_from_settings, set_var.
  unfold bind, gets, modify. rewrite !load_settings_spec.
  proj_simpl. rewrite Hav.
  rewrite ?get_secret_spec. proj_simpl. rewrite ?get_secret_spec.
  proj_simpl. unfold stored_secret, stored_settings. rewrite ?Hav.
  split; reflexivity.
Qed.

Lemma on_save_settings_cwd w : cwd (os (exec on_save_settings w)) = cwd (os w).
Proof.
  assert (H : frames (fun w => cwd (os w)) on_save_settings).
  { unfold on_save_settings. solve_frames. }
  apply H.
Qed.

Lemma or_else_idem s : or_else (or_else s []) [] = or_else s [].
Proof. by destruct s. Qed.

(** The machine as Save Settings leaves it when the disk and the
    keyring work: what [load_settings] and [get_secret] will return. *)
Lemma saved_machine w :
  f_mkdir (faults (os w)) = None -> f_write (faults (os w)) = None ->
  f_read (faults (os w)) = None ->
  KEYRING_AVAILABLE (os w) = true ->
  f_keyring_set (faults (os w)) = None ->
  f_keyring_get (faults (os w)) = None ->
  let v := vars (app w) in
  let o' := os (step EvSave w) in
  KEYRING_AVAILABLE o' = true
  /\ cwd o' = cwd (os w)
  /\ stored_settings o' = settings_from_ui v (settings (app w))
  /\ or_else (stored_secret (py "spotify_client_secret") o') []
     = resolved_secret (var_spotify_client_secret v)
         (py "spotify_client_secret") w
  /\ or_else (stored_secret (py "tidal_password") o') []
     = resolved_secret (var_tidal_password v) (py "tidal_password") w.
Proof.
  intros Hmk Hwr Hrd Hav Hset Hget v o'. subst v o'. cbn [step].
  destruct (on_save_settings_frame w) as (_ & _ & Hf & Hav').
  pose proof (on_save_settings_file w Hmk Hwr) as Hfile.
  pose proof (on_save_settings_keyring w Hmk Hwr Hav Hset) as Hkey.
  pose proof (on_save_settings_cwd w) as Hcwd.
  set (o' := os (exec on_save_settings w)) in *.
  rewrite Hav in Hav'.
  split; [exact Hav'|]. split; [exact Hcwd|]. split.
  { unfold stored_settings. by rewrite Hf, Hmk, Hfile, Hrd. }
  assert (Hsec : forall field name other ofield,
            name <> other ->
            (stored_secret name
               (set_keyring_store
                  (store_if_set name field
                     (store_if_set other ofield (keyring_store (os w))))
                  (os w))
             = resolved_secret field name w)
            /\ (stored_secret name
                  (set_keyring_store
                     (store_if_set other ofield
                        (store_if_set name field (keyring_store (os w))))
                     (os w))
                = resolved_secret field name w)).
  { intros field name other ofield Hne.
    unfold stored_secret, resolved_secret, value_of, field_or_secret,
      store_if_set.
    proj_simpl. rewrite Hav, Hget.
    destruct (truthy (strip field)) eqn:Hfield;
      destruct (truthy (strip ofield));
      rewrite ?get_secret_spec, ?Hav, ?Hget; cbn [snd default];
      rewrite ?lookup_insert_eq, ?lookup_insert_ne by done;
      rewrite ?lookup_insert_eq;
      unfold or_else; rewrite ?Hfield; done. }
  assert (Hss : forall name,
            stored_secret name o'
            = stored_secret name (set_keyring_store (keyring_store o') (os w))).
  { intros name. unfold stored_secret. proj_simpl. by rewrite Hav', Hf, Hav. }
  rewrite !Hss, Hkey.
  destruct (Hsec (var_tidal_password (vars (app w))) (py "tidal_password")
              (py "spotify_client_secret")
              (var_spotify_client_secret (vars (app w)))) as [E1 _];
    [intros E; vm_compute in E; discriminate|].
  destruct (Hsec (var_spotify_client_secret (vars (app w)))
              (py "spotify_client_secret") (py "tidal_password")
              (var_tidal_password (vars (app w)))) as [_ E2];
    [intros E; vm_compute in E; discriminate|].
  rewrite E1, E2.
  assert (Hres : forall field name,
            or_else (resolved_secret field name w) []
            = resolved_secret field name w).
  { intros field name. unfold resolved_secret, value_of, field_or_secret.
    destruct (truthy (strip field)) eqn:Hfield; unfold ret; cbn [snd default].
    - unfold or_else, id. by rewrite Hfield.
    - rewrite get_secret_spec. cbn [snd default]. rewrite Hav, Hget.
      destruct (keyring_store (os w) !! name);
        [apply or_else_idem|reflexivity]. }
  by rewrite !Hres.
Qed.

(** X17: what Save Settings has stored is what the form shows after
    the program is started again, when the disk and the keyring work:
    the five persisted entries come back whitespace-stripped (the
    redirect URI as its default when blank), each secret entry comes
    back as the stripped entry or, when that was blank, as the secret
    the keyring already held; the action, the extra flags and the
    working directory are not persisted and are back at their
    defaults. *)
Theorem settings_survive_restart w :
  f_mkdir (faults (os w)) = None -> f_write (faults (os w)) = None ->
  f_read (faults (os w)) = None ->
  KEYRING_AVAILABLE (os w) = true ->
  f_keyring_set (faults (os w)) = None ->
  f_keyring_get (faults (os w)) = None ->
  let v := vars (app w) in
  let w' := restart (step EvSave w) in
  settings (app w') = settings_from_ui v (settings (app w))
  /\ var_spotify_client_id (vars (app w')) = strip (var_spotify_client_id v)
  /\ var_spotify_username (vars (app w')) = strip (var_spotify_username v)
  /\ var_spotify_redirect (vars (app w'))
     = or_else (strip (var_spotify_redirect v)) DEFAULT_REDIRECT_URI
  /\ var_tidal_username (vars (app w')) = strip (var_tidal_username v)
  /\ var_playlist_url (vars (app w')) = strip (var_playlist_url v)
  /\ var_spotify_client_secret (vars (app w'))
     = resolved_secret (var_spotify_client_secret v)
         (py "spotify_client_secret") w
  /\ var_tidal_password (vars (app w'))
     = resolved_secret (var_tidal_password v) (py "tidal_password") w
  /\ var_action (vars (app w')) = py "sync_playlist_url"
  /\ var_extra_flags (vars (app w')) = []
  /\ var_work_dir (vars (app w')) = cwd (os w).
Proof.
  intros Hmk Hwr Hrd Hav Hset Hget v w'. subst v w'. unfold restart.
  destruct (saved_machine w Hmk Hwr Hrd Hav Hset Hget)
    as (Hav' & Hcwd & Hst & Hs1 & Hs2).
  destruct (boot_vars _ Hav') as [Hs Hv]. rewrite Hs, Hv.
  rewrite Hst, Hs1, Hs2, Hcwd.
  destruct (settings_from_ui_lookup (vars (app w)) (settings (app w)))
    as (L1 & L2 & L3 & L4 & L5 & _).
  rewrite L1, L2, L3, L4, L5. by repeat split.
Qed.

Lemma settings_survive_restart_witness :
  let w := step (EvEdit V_spotify_username (py "  me  ")) sample_ready in
  let w' := restart (step EvSave w) in
  var_spotify_username (vars (app w')) = py "me"
  /\ var_tidal_password (vars (app w')) = py "pw"
  /\ var_extra_flags (vars (app w)) = py "--dry-run"
  /\ var_extra_flags (vars (app w')) = [].
Proof.
  intros w w'.
  assert (H1 : f_mkdir (faults (os w)) = None) by reflexivity.
  assert (H2 : f_write (faults (os w)) = None) by reflexivity.
  assert (H3 : f_read (faults (os w)) = None) by reflexivity.
  assert (H4 : KEYRING_AVAILABLE (os w) = true) by reflexivity.
  assert (H5 : f_keyring_set (faults (os w)) = None) by reflexivity.
  assert (H6 : f_keyring_get (faults (os w)) = None) by reflexivity.
  destruct (settings_survive_restart w H1 H2 H3 H4 H5 H6)
    as (_ & _ & Hu & _ & _ & _ & _ & Hp & _ & Hx & _).
  subst w'. rewrite Hu, Hp, Hx.
  repeat split; vm_compute; reflexivity.
Defined.

(** X18: the settings file Save Settings writes does not depend on the
    two secret entries: whatever they hold, the file is the same. *)
Theorem secrets_kept_out_of_settings_file w s1 s2 :
  f_mkdir (faults (os w)) = None -> f_write (faults (os w)) = None ->
  settings_file
    (os (run [EvEdit V_spotify_client_secret s1; EvEdit V_tidal_password s2;
              EvSave] w))
  = settings_file (os (step EvSave w)).
Proof.
  intros Hmk Hwr. cbn [run step].
  rewrite !on_save_settings_file by done. reflexivity.
Qed.

Lemma secrets_kept_out_of_settings_file_witness :
  settings_file
    (os (run [EvEdit V_spotify_client_secret (py "other");
              EvEdit V_tidal_password []; EvSave] sample_ready))
  = settings_file (os (step EvSave sample_ready)).
Proof.
  assert (H1 : f_mkdir (faults (os sample_ready)) = None) by reflexivity.
  assert (H2 : f_write (faults (os sample_ready)) = None) by reflexivity.
  exact (secrets_kept_out_of_settings_file sample_ready (py "other") [] H1 H2).
Defined.

(** ** Temporary directories over a whole session *)

Lemma tmp_evolves_trans t1 t2 t3 :
  tmp_evolves t1 t2 -> tmp_evolves t2 t3 -> tmp_evolves t1 t3.
Proof.
  intros [L1 H1] [L2 H2]. split; [lia|].
  intros d Hd. assert (Hd2 : (d < length t2)%nat) by lia.
  destruct (H1 d Hd) as [E1|[E1|[Hh E1]]],
           (H2 d Hd2) as [E2|[E2|[[c Hc] E2]]].
  - left. congruence.
  - right; left. congruence.
  - right; right. split; [|done]. exists c. congruence.
  - right; left. congruence.
  - by right; left.
  - congruence.
  - right; right. split; [done|congruence].
  - by right; left.
  - right; right. by split.
Qed.

Lemma step_tmp_evolves e w :
  tmp_evolves (tmpdirs (os w)) (tmpdirs (os (step e w))).
Proof.
  destruct (is_worker e) eqn:Hwk.
  - destruct e as [| | | | | | | | |tid| | |]; try discriminate.
    cbn [step]. destruct (threads w !! tid) as [th|]; [|apply tmp_evolves_refl].
    destruct (worker_step th w) as [th' w'] eqn:E.
    by destruct (worker_step_frame _ _ _ _ E) as (_ & _ & _ & H).
  - rewrite step_keeps_tmpdirs by done. apply tmp_evolves_refl.
Qed.

Lemma run_tmp_evolves es : forall w,
  tmp_evolves (tmpdirs (os w)) (tmpdirs (os (run es w))).
Proof.
  induction es as [|e es IH]; intros w; cbn [run]; [apply tmp_evolves_refl|].
  eapply tmp_evolves_trans; [apply step_tmp_evolves|apply IH].
Qed.

(** X19: over any sequence of events, a temporary directory keeps the
    document it holds until [rmtree] takes the document or the whole
    directory away; a directory without document never gets one, and a
    removed directory never exists again: no run writes into the
    directory of another run, and no name is handed out twice. *)
Theorem temp_config_never_rewritten es w d :
  (forall text, tmpdirs (os w) !! d = Some (Some (Some text)) ->
     tmpdirs (os (run es w)) !! d = Some (Some (Some text))
     \/ tmpdirs (os (run es w)) !! d = Some (Some None)
     \/ tmpdirs (os (run es w)) !! d = Some None)
  /\ (tmpdirs (os w) !! d = Some (Some None) ->
      tmpdirs (os (run es w)) !! d = Some (Some None)
      \/ tmpdirs (os (run es w)) !! d = Some None)
  /\ (tmpdirs (os w) !! d = Some None ->
      tmpdirs (os (run es w)) !! d = Some None).
Proof.
  destruct (run_tmp_evolves es w) as [_ H].
  split; [|split].
  - intros text Hl.
    destruct (H d) as [E|[E|[_ E]]]; [by eapply lookup_lt_Some| | |].
    + left. by rewrite E.
    + by right; right.
    + by right; left.
  - intros Hl.
    destruct (H d) as [E|[E|[_ E]]]; [by eapply lookup_lt_Some| | |].
    + left. by rewrite E.
    + by right.
    + by left.
  - intros Hl.
    destruct (H d) as [E|[E|[[c Hc] _]]]; [by eapply lookup_lt_Some| | |];
      congruence.
Qed.

Lemma temp_config_never_rewritten_witness :
  let es := finish_first_run ++ [EvRun; EvWorker 1] in
  tmpdirs (os (run es sample_running)) !! 0%nat = Some None
  /\ tmp_exists 1 (run es sample_running) = true
  /\ tmpdirs (os (run (EvFaults rmtree_leaves_dir :: finish_first_run)
                   sample_running)) !! 0%nat
     = Some (Some None).
Proof.
  intros es.
  destruct (temp_config_never_rewritten
              [EvRun; EvWorker 1] (run finish_first_run sample_running) 0)
    as (_ & _ & H).
  subst es. rewrite run_app.
  split; [apply H|split]; vm_compute; reflexivity.
Defined.

(** ** A worker that ends while another child runs *)

(** X20: the [finally] block clears the process handle whatever it
    points to. Once any worker has ended, Cancel finds no process: it
    sets no stop flag and terminates no child, also while a child of
    another run is still alive. *)
Theorem finished_worker_disarms_cancel w tid th o :
  threads w !! tid = Some th -> t_pc th = W_finally o ->
  let w' := step (EvWorker tid) w in
  proc (app w') = None
  /\ procs (os w') = procs (os w)
  /\ stop_requested (app (step EvCancel w')) = stop_requested (app w)
  /\ procs (os (step EvCancel w')) = procs (os w)
  /\ status_var (app (step EvCancel w')) = py "No running process.".
Proof.
  intros Hth Hpc w'.
  assert (E : proc (app w') = None /\ procs (os w') = procs (os w)
              /\ stop_requested (app w') = stop_requested (app w)).
  { subst w'. cbn [step]. rewrite Hth. unfold worker_step. rewrite Hpc.
    worker_ops. repeat case_match; by proj_simpl. }
  destruct E as (E1 & E2 & E3). clearbody w'.
  assert (Hrun : proc_running w' = false)
    by (unfold proc_running; by rewrite E1).
  cbn [step]. unfold exec, on_cancel. rewrite bind_gets; cbn beta.
  rewrite Hrun. unfold set_status, modify. by proj_simpl.
Qed.

Lemma finished_worker_disarms_cancel_witness :
  let w := run [EvFaults (popen_fails (FileNotFoundError (py "python3")));
                EvRun; EvWorker 1; EvWorker 1] sample_running in
  let w' := step (EvWorker 1) w in
  proc_running w = true
  /\ p_exit <$> procs (os (step EvCancel w')) !! 0%nat = Some None
  /\ p_terminated <$> procs (os (step EvCancel w')) !! 0%nat = Some false
  /\ stop_requested (app (step EvCancel w')) = false.
Proof.
  intros w w'.
  assert (Hth : threads w !! 1%nat
                = Some (set_outcome Failed
                          (set_pc (W_finally (Some 1%nat))
                             (set_work_dir (Path (py "/home/user"))
                                (new_thread [py "sync"; py "abc123";
                                             py "--dry-run"])))))
    by (vm_compute; reflexivity).
  destruct (finished_worker_disarms_cancel w 1 _ _ Hth eq_refl)
    as (_ & _ & Hs & Hp & _).
  fold w' in Hs, Hp. rewrite Hs, Hp.
  repeat split; vm_compute; reflexivity.
Defined.

(** ** The log as the user sees it *)

(** A worker step appends to the output queue. *)
Lemma worker_step_queue th w th' w' :
  worker_step th w = (th', w') ->
  exists more, output_queue (app w') = output_queue (app w) ++ more.
Proof.
  unfold worker_step. intros H. destruct (t_pc th) eqn:Hpc.
  - destruct (cwd_fault w);
      [simplify_eq; exists []; by rewrite app_nil_r|].
    destruct (build_temp_config_spec w) as (w1 & r & E & Happ & _).
    rewrite E in H. worker_ops.
    destruct r; simplify_eq; proj_simpl; rewrite ?Happ;
      first [by exists [] ; rewrite app_nil_r | by eexists].
  - match type of H with context [Popen ?c ?d ?w0] =>
      destruct (Popen_cases c d w0) as [(e & _ & E)|(_ & E)]; rewrite E in H
    end; worker_ops; simplify_eq; proj_simpl;
      rewrite <- ?app_assoc; by eexists.
  - worker_ops. repeat case_match; simplify_eq; proj_simpl;
      first [by exists []; rewrite app_nil_r | by eexists].
  - worker_ops. repeat case_match; simplify_eq; proj_simpl;
      first [by exists []; rewrite app_nil_r | by eexists].
  - worker_ops. repeat case_match; simplify_eq; proj_simpl;
      first [by exists []; rewrite app_nil_r | by eexists].
  - worker_ops. repeat case_match; simplify_eq; proj_simpl;
      first [by exists []; rewrite app_nil_r | by eexists].
  - worker_ops. repeat case_match; simplify_eq; proj_simpl;
      first [by exists []; rewrite app_nil_r | by eexists].
  - simplify_eq. exists []. by rewrite app_nil_r.
Qed.

Lemma step_log_stream e w :
  keeps_log e ->
  exists more, log_stream (step e w) = log_stream w ++ more.
Proof.
  intros [Hrun Hclr]. destruct (is_worker e) eqn:Hwk.
  - destruct e as [| | | | | | | | |tid| | |]; try discriminate.
    cbn [step]. destruct (threads w !! tid) as [th|] eqn:Hl;
      [|exists []; by rewrite app_nil_r].
    destruct (worker_step th w) as [th' w'] eqn:E.
    destruct (worker_step_log _ _ _ _ E) as [Hc _].
    destruct (worker_step_queue _ _ _ _ E) as [more Hq].
    exists more. unfold log_stream. proj_simpl.
    by rewrite Hc, Hq, app_assoc.
  - exists [].
    rewrite app_nil_r.
    assert (K : forall A (m : M A) w0,
               keeps (fun w1 => log_stream w1 = log_stream w) m ->
               log_stream w0 = log_stream w ->
               log_stream (exec m w0) = log_stream w)
      by (intros ? ? ? Hm ?; by apply Hm).
    destruct e; try done; cbn [step];
      try (apply (K _ _ w); [solve_keeps | reflexivity]).
    destruct (pending (app w) !! i) as [[]|] eqn:Hl; [| |done].
    + cbn [run_callback]. unfold exec, _drain_output_queue.
      rewrite bind_modify; cbn beta. rewrite bind_gets; cbn beta.
      assert (F : forall m : M unit,
                 frames log_stream m ->
                 forall w0, log_stream (fst (m w0)) = log_stream w0)
        by (intros m Hm; exact Hm).
      rewrite F.
      * unfold log_stream. proj_simpl. by rewrite app_nil_r.
      * solve_frames.
    + reflexivity.
Qed.

(** X21: between a run request or Clear Logs and the next, the log
    view followed by the output queue only grows at its end: polling
    moves lines from the queue to the view in the order queued, workers
    append to the queue, and nothing else touches either, so no line is
    lost, repeated or reordered. *)
Theorem log_append_only es : forall w,
  Forall keeps_log es ->
  exists more, log_stream (run es w) = log_stream w ++ more.
Proof.
  induction es as [|e es IH]; intros w Hes; cbn [run].
  - exists []. by rewrite app_nil_r.
  - inversion Hes as [|? ? He Hes']; subst.
    destruct (step_log_stream e w He) as [m1 E1].
    destruct (IH (step e w) Hes') as [m2 E2].
    exists (m1 ++ m2). by rewrite E2, E1, app_assoc.
Qed.

Lemma log_append_only_witness :
  let es := [EvOutput 0 (py "one"); EvWorker 0; EvTimer 0; EvExit 0 0;
             EvWorker 0; EvCancel; EvWorker 0] in
  exists more,
    log_stream (run es sample_running) = log_stream sample_running ++ more.
Proof.
  intros es. apply log_append_only.
  repeat (constructor; [split; discriminate|]). constructor.
Defined.

(** ** The dialogs of Save Settings *)

Lemma on_save_settings_dialogs w :
  f_mkdir (faults (os w)) = None -> f_write (faults (os w)) = None ->
  snd (on_save_settings w) = Ok tt
  /\ dialogs (app (exec on_save_settings w)) = dialogs (app w) ++ [save_dialog w]
  /\ (KEYRING_AVAILABLE (os w) = false
      \/ is_Some (f_keyring_set (faults (os w))) ->
      keyring_store (os (exec on_save_settings w)) = keyring_store (os w)).
Proof.
  intros Hmk Hwr. unfold exec, on_save_settings, get_vars, save_dialog.
  rewrite bind_gets; cbn beta. rewrite bind_modify; cbn beta.
  rewrite bind_gets; cbn beta.
  erewrite bind_Ok by (apply save_settings_ok; proj_simpl; done). cbn beta.
  destruct (KEYRING_AVAILABLE (os w)) eqn:Hav;
    destruct (f_keyring_set (faults (os w))) as [e|] eqn:Hset;
    destruct (truthy (strip (var_spotify_client_secret (vars (app w)))));
    destruct (truthy (strip (var_tidal_password (vars (app w)))));
    repeat first
      [ rewrite bind_ret; cbn beta
      | rewrite bind_assoc
      | erewrite (bind_Ok (set_secret _ _));
          [| rewrite set_secret_spec; proj_simpl; rewrite ?Hav, ?Hset;
             reflexivity ]; cbn beta
      | rewrite bind_gets; cbn beta ];
    proj_simpl; rewrite ?Hav; cbn [orb andb negb];
    unfold messagebox, modify; proj_simpl;
    (split; [reflexivity|]); (split; [reflexivity|]);
    intros [?|[? ?]]; done.
Qed.

(** X22: once the settings file is written, Save Settings ends with
    exactly one dialog and returns. The dialog is the warning "Saved
    (with issues)" only when the keyring module is there, a secret
    entry was not blank and the keyring refused to store; otherwise it
    is "Settings saved.", also when the keyring module is missing and
    the secrets were therefore stored nowhere. *)
Theorem save_settings_dialog w :
  f_mkdir (faults (os w)) = None -> f_write (faults (os w)) = None ->
  snd (on_save_settings w) = Ok tt
  /\ dialogs (app (step EvSave w)) = dialogs (app w) ++ [save_dialog w]
  /\ (KEYRING_AVAILABLE (os w) = false ->
      d_message (save_dialog w) = py "Settings saved."
      /\ keyring_store (os (step EvSave w)) = keyring_store (os w)).
Proof.
  intros Hmk Hwr.
  destruct (on_save_settings_dialogs w Hmk Hwr) as (H1 & H2 & H3).
  split; [exact H1|]. split; [exact H2|].
  intros Hav. split; [unfold save_dialog; by rewrite Hav|].
  apply H3. by left.
Qed.

Lemma save_settings_dialog_witness :
  let w := run (fill_form (py "abc123")) (boot bare_os) in
  List.map d_title (dialogs (app (step EvSave w)))
  = [py "Keyring not available"; py "Saved"]
  /\ keyring_store (os (step EvSave w)) = ∅.
Proof.
  intros w.
  assert (H1 : f_mkdir (faults (os w)) = None) by reflexivity.
  assert (H2 : f_write (faults (os w)) = None) by reflexivity.
  destruct (save_settings_dialog w H1 H2) as (_ & Hd & Hk).
  destruct Hk as [_ Hk]; [reflexivity|].
  rewrite Hd, Hk. split; vm_compute; reflexivity.
Defined.

(** ** Without the keyring module *)

Lemma boot_no_keyring o :
  KEYRING_AVAILABLE o = false ->
  os (boot o) = o
  /\ var_spotify_client_secret (vars (app (boot o))) = []
  /\ var_tidal_password (vars (app (boot o))) = []
  /\ List.map d_kind (dialogs (app (boot o))) = [ShowWarning]
  /\ threads (boot o) = [].
Proof.
  intros Hav. unfold boot, App__init__, exec, _load_ui_from_settings, set_var.
  unfold bind, gets, modify. rewrite !load_settings_spec.
  proj_simpl. rewrite Hav. unfold messagebox, modify. proj_simpl.
  repeat split; reflexivity.
Qed.

(** X23: without the keyring module the secrets typed into the form
    do not survive a restart: Save Settings stores them nowhere, and
    after the program is started again it warns once, both secret
    entries are empty and a run request is refused for want of the
    client secret or, when the Client ID is blank, of that. *)
Theorem secrets_lost_without_keyring w :
  KEYRING_AVAILABLE (os w) = false ->
  let w' := restart (step EvSave w) in
  var_spotify_client_secret (vars (app w')) = []
  /\ var_tidal_password (vars (app w')) = []
  /\ List.map d_kind (dialogs (app w')) = [ShowWarning]
  /\ credentials_ok w' = false
  /\ threads (step EvRun w') = [].
Proof.
  intros Hav w'.
  destruct (on_save_settings_frame w) as (_ & _ & _ & Hav').
  rewrite Hav in Hav'.
  destruct (boot_no_keyring (os (step EvSave w)) Hav')
    as (Hos & H1 & H2 & H3 & H4).
  fold (restart (step EvSave w)) in Hos, H1, H2, H3, H4.
  fold w' in Hos, H1, H2, H3, H4.
  assert (Hbad : credentials_ok w' = false).
  { unfold credentials_ok, resolved_secret, value_of, field_or_secret.
    rewrite H1. change (truthy (strip [])) with false. cbv iota.
    rewrite get_secret_spec, Hos. cbn [snd]. 
    change (KEYRING_AVAILABLE (os (step EvSave w))) with
      (KEYRING_AVAILABLE (os (exec on_save_settings w))).
    rewrite Hav'. cbn [default truthy]. by rewrite andb_false_r. }
  do 4 (split; [assumption|]).
  destruct (on_run_invalid w' Hbad) as [what Hrun].
  cbn [step]. unfold exec. rewrite Hrun. exact H4.
Qed.

Lemma secrets_lost_without_keyring_witness :
  let w := run (fill_form (py "abc123")) (boot bare_os) in
  var_tidal_password (vars (app w)) = py "pw"
  /\ var_tidal_password (vars (app (restart (step EvSave w)))) = []
  /\ threads (step EvRun (restart (step EvSave w))) = [].
Proof.
  intros w.
  assert (Hav : KEYRING_AVAILABLE (os w) = false) by reflexivity.
  destruct (secrets_lost_without_keyring w Hav) as (_ & H2 & _ & _ & H5).
  split; [reflexivity|]. split; [exact H2|exact H5].
Defined.

(** ** Load Settings *)

(** The form as Load Settings fills it in on a machine with the keyring
    module: the seven stored entries are replaced, the others kept. *)
Lemma load_vars w :
  KEYRING_AVAILABLE (os w) = true ->
  snd (on_load_settings_clicked w) = Ok tt
  /\ os (step EvLoad w) = os w
  /\ settings (app (step EvLoad w)) = stored_settings (os w)
  /\ status_var (app (step EvLoad w)) = py "Settings reloaded."
  /\ vars (app (step EvLoad w))
     = {| var_spotify_client_id :=
            default [] (stored_settings (os w) !! py "spotify_client_id");
          var_spotify_client_secret :=
            or_else (stored_secret (py "spotify_client_secret") (os w)) [];
          var_spotify_username :=
            default [] (stored_settings (os w) !! py "spotify_username");
          var_spotify_redirect :=
            default DEFAULT_REDIRECT_URI
              (stored_settings (os w) !! py "spotify_redirect_uri");
          var_tidal_username :=
            default [] (stored_settings (os w) !! py "tidal_username");
          var_tidal_password :=
            or_else (stored_secret (py "tidal_password") (os w)) [];
          var_action := var_action (vars (app w));
          var_playlist_url :=
            default [] (stored_settings (os w) !! py "last_playlist_url");
          var_subcommand_custom := var_subcommand_custom (vars (app w));
          var_extra_flags := var_extra_flags (vars (app w));
          var_work_dir := var_work_dir (vars (app w)) |}.
Proof.
  intros Hav. cbn [step].
  unfold on_load_settings_clicked, exec, _load_ui_from_settings, set_var,
    set_status.
  unfold bind, gets, modify. rewrite !load_settings_spec.
  proj_simpl. rewrite Hav.
  rewrite ?get_secret_spec. proj_simpl. rewrite ?get_secret_spec.
  proj_simpl. unfold stored_secret, stored_settings. rewrite ?Hav.
  repeat split; reflexivity.
Qed.

(** X24: Load Settings right after Save Settings gives the form back
    as it was saved, when the disk and the keyring work: the five
    persisted entries whitespace-stripped (the redirect URI as its
    default when blank), the two secret entries as entered or, when
    blank, as the keyring held them; the action, the custom subcommand,
    the extra flags and the working directory are left as they are,
    and the status line says "Settings reloaded.". *)
Theorem load_after_save w :
  f_mkdir (faults (os w)) = None -> f_write (faults (os w)) = None ->
  f_read (faults (os w)) = None ->
  KEYRING_AVAILABLE (os w) = true ->
  f_keyring_set (faults (os w)) = None ->
  f_keyring_get (faults (os w)) = None ->
  let v := vars (app w) in
  let w' := run [EvSave; EvLoad] w in
  vars (app w')
  = {| var_spotify_client_id := strip (var_spotify_client_id v);
       var_spotify_client_secret :=
         resolved_secret (var_spotify_client_secret v)
           (py "spotify_client_secret") w;
       var_spotify_username := strip (var_spotify_username v);
       var_spotify_redirect :=
         or_else (strip (var_spotify_redirect v)) DEFAULT_REDIRECT_URI;
       var_tidal_username := strip (var_tidal_username v);
       var_tidal_password :=
         resolved_secret (var_tidal_password v) (py "tidal_password") w;
       var_action := var_action v;
       var_playlist_url := strip (var_playlist_url v);
       var_subcommand_custom := var_subcommand_custom v;
       var_extra_flags := var_extra_flags v;
       var_work_dir := var_work_dir v |}
  /\ settings (app w') = settings_from_ui v (settings (app w))
  /\ status_var (app w') = py "Settings reloaded.".
Proof.
  intros Hmk Hwr Hrd Hav Hset Hget v w'. subst v w'. cbn [run].
  destruct (saved_machine w Hmk Hwr Hrd Hav Hset Hget)
    as (Hav' & _ & Hst & Hs1 & Hs2).
  destruct (load_vars (step EvSave w) Hav') as (_ & _ & Hs & Hstat & Hv).
  rewrite Hv, Hs, Hstat, Hst, Hs1, Hs2.
  destruct (settings_from_ui_lookup (vars (app w)) (settings (app w)))
    as (L1 & L2 & L3 & L4 & L5 & _).
  rewrite L1, L2, L3, L4, L5. cbn [default step].
  destruct (on_save_settings_frame w) as (_ & -> & _).
  by repeat split.
Qed.

Lemma load_after_save_witness :
  let w := step (EvEdit V_playlist_url (py " abc123 ")) sample_ready in
  var_playlist_url (vars (app (run [EvSave; EvLoad] w))) = py "abc123"
  /\ var_extra_flags (vars (app (run [EvSave; EvLoad] w))) = py "--dry-run".
Proof.
  intros w.
  assert (H1 : f_mkdir (faults (os w)) = None) by reflexivity.
  assert (H2 : f_write (faults (os w)) = None) by reflexivity.
  assert (H3 : f_read (faults (os w)) = None) by reflexivity.
  assert (H4 : KEYRING_AVAILABLE (os w) = true) by reflexivity.
  assert (H5 : f_keyring_set (faults (os w)) = None) by reflexivity.
  assert (H6 : f_keyring_get (faults (os w)) = None) by reflexivity.
  destruct (load_after_save w H1 H2 H3 H4 H5 H6) as (Hv & _).
  rewrite Hv. split; vm_compute; reflexivity.
Defined.
